(** * go-rust-interop: the Go wrapper around the native Cosmos library
      and the point-read benchmark harness

    A shallow embedding of
    - the cgo wrapper package [azurecosmos] (error translation, the three
      handle wrappers [CosmosClient], [DatabaseClient], [ContainerClient],
      string marshaling around each foreign call), and
    - the [pointRead] benchmark command ([executeBenchmark],
      [workerBenchmark]) together with the key scheme of the data loader
      ([createRandomDocsItem]).

    Foreign calls are modelled by explicit state passing over a [World]
    that records every call crossing the cgo boundary, in order.  The
    native library is a test double: a record of response functions that
    may inspect the calls made so far. *)

From Stdlib Require Import ZArith Lia Bool String Ascii List.
From Stdlib Require Import DecimalString.
From Stdlib Require DecimalPos DecimalZ.
From Stdlib Require Import SpecFloat.
From stdpp Require Import base list.
Import ListNotations.

Local Open Scope string_scope.
Local Open Scope Z_scope.

(* ===================================================================== *)
(** ** Go's fixed-width integers and [fmt] verbs *)
(* ===================================================================== *)

(** Conversion to [int32]: keep the low 32 bits, read as two's complement. *)
Definition to_int32 (z : Z) : Z := (z + 2 ^ 31) mod 2 ^ 32 - 2 ^ 31.

(** Conversion to (and arithmetic in) [int64]. *)
Definition to_int64 (z : Z) : Z := (z + 2 ^ 63) mod 2 ^ 64 - 2 ^ 63.

Definition int64_range (z : Z) : Prop := - 2 ^ 63 <= z < 2 ^ 63.

(** The verb [%d] of [fmt.Sprintf]: an optional minus sign and the decimal
    digits, no padding. *)
Definition fmt_d (z : Z) : string := NilZero.string_of_int (Z.to_int z).

(** Go's [%] on integers: truncated remainder; a zero divisor panics
    ([None]).  The remainder is bounded by both operands, so it never
    wraps. *)
Definition go_rem (a b : Z) : option Z :=
  if b =? 0 then None else Some (Z.rem a b).

(* ===================================================================== *)
(** ** The cgo boundary *)
(* ===================================================================== *)

(** A C pointer is an address; [0] is [NULL] (Go's [nil]). *)
Definition ptr := Z.
Definition NULL : ptr := 0.

(** A [char*] as the Go side can see it: [None] is [NULL], otherwise the
    address and the bytes up to the terminating NUL. *)
Record cbuf := { addr : ptr; bytes : string }.
Definition char_ptr := option cbuf.

(** [struct cosmos_error] of azurecosmos.h. *)
Record cosmos_error := { code : Z; message : char_ptr }.

(** Modelled from the spec: the constant [COSMOS_ERROR_CODE_SUCCESS] of
    azurecosmos.h, which is not part of the sources; "code = 0 is the
    reserved success sentinel". *)
Definition COSMOS_ERROR_CODE_SUCCESS : Z := 0.

(** Every call that crosses the cgo boundary.  [E_CString] and [E_free]
    are libc's allocator ([C.CString] mallocs, [C.free] frees); the others
    are the entry points of the native Cosmos library. *)
Inductive event :=
| E_CString (p : ptr) (s : string)
| E_free (p : ptr)
| E_cosmos_client_create_with_key (endpoint key : ptr)
| E_cosmos_client_database_client (client : ptr) (database_id : ptr)
| E_cosmos_database_container_client (database : ptr) (container_id : ptr)
| E_cosmos_container_read_item (container : ptr) (partition_key item_id : ptr)
| E_cosmos_client_free (client : ptr)
| E_cosmos_database_free (database : ptr)
| E_cosmos_container_free (container : ptr)
| E_cosmos_string_free (s : ptr).

Definition event_eqb (a b : event) : bool :=
  match a, b with
  | E_CString p s, E_CString q t => (p =? q) && String.eqb s t
  | E_free p, E_free q => p =? q
  | E_cosmos_client_create_with_key p1 p2, E_cosmos_client_create_with_key q1 q2
  | E_cosmos_client_database_client p1 p2, E_cosmos_client_database_client q1 q2
  | E_cosmos_database_container_client p1 p2,
    E_cosmos_database_container_client q1 q2 => (p1 =? q1) && (p2 =? q2)
  | E_cosmos_container_read_item p1 p2 p3, E_cosmos_container_read_item q1 q2 q3 =>
      (p1 =? q1) && (p2 =? q2) && (p3 =? q3)
  | E_cosmos_client_free p, E_cosmos_client_free q
  | E_cosmos_database_free p, E_cosmos_database_free q
  | E_cosmos_container_free p, E_cosmos_container_free q
  | E_cosmos_string_free p, E_cosmos_string_free q => p =? q
  | _, _ => false
  end.

(** Calls into the native Cosmos library (as opposed to libc). *)
Definition is_cosmos_call (e : event) : bool :=
  match e with
  | E_CString _ _ | E_free _ => false
  | _ => true
  end.

(** The destructors of the three handle kinds. *)
Definition is_destructor (e : event) : bool :=
  match e with
  | E_cosmos_client_free _ | E_cosmos_database_free _
  | E_cosmos_container_free _ => true
  | _ => false
  end.

(** How many times a given call occurs in a trace. *)
Definition occurrences (e : event) (t : list event) : nat :=
  length (List.filter (event_eqb e) t).

Definition count_if (f : event -> bool) (t : list event) : nat :=
  length (List.filter f t).

(** The world outside the Go heap: the calls made so far, oldest first,
    and the next address libc's allocator hands out. *)
Record World := { trace : list event; brk : positive }.

Definition emit (e : event) (w : World) : World :=
  {| trace := trace w ++ [e]; brk := brk w |}.

(** [C.CString]: a fresh, never-null malloc'd copy of the Go string. *)
Definition C_CString (s : string) (w : World) : ptr * World :=
  (Z.pos (brk w),
   {| trace := trace w ++ [E_CString (Z.pos (brk w)) s];
      brk := Pos.succ (brk w) |}).

(** [C.free]. *)
Definition C_free (p : ptr) (w : World) : World := emit (E_free p) w.

(** [C.GoString]: copy the bytes into a managed string. *)
Definition C_GoString (b : cbuf) : string := bytes b.

(** The native library as a test double.  Each entry point sees the calls
    made so far and the Go strings whose copies its [char*] arguments
    point to, and answers with its return code and what it leaves in its
    out-parameters (which the callers zero-initialise). *)
Record Foreign := {
  cosmos_client_create_with_key :
    list event -> string -> string -> Z * ptr * cosmos_error;
  cosmos_client_database_client :
    list event -> ptr -> string -> Z * ptr * cosmos_error;
  cosmos_database_container_client :
    list event -> ptr -> string -> Z * ptr * cosmos_error;
  cosmos_container_read_item :
    list event -> ptr -> string -> string -> Z * char_ptr * cosmos_error
}.

(* ===================================================================== *)
(** ** Errors *)
(* ===================================================================== *)

(** The dynamic types behind Go's [error] interface that this code
    produces: [*CosmosError], and the string errors of [fmt.Errorf].  A nil
    [error] is [None]. *)
Inductive error :=
| CosmosError (Code : Z) (Message : string)
| Errorf (msg : string).

Definition Error (e : error) : string :=
  match e with
  | CosmosError c m => "Cosmos error " ++ fmt_d c ++ ": " ++ m
  | Errorf msg => msg
  end.

Definition newCosmosError (cerr : cosmos_error) : option error :=
  if code cerr =? COSMOS_ERROR_CODE_SUCCESS then None
  else
    let message :=
      match message cerr with
      | Some b => C_GoString b
      | None => ""
      end in
    Some (CosmosError (to_int32 (code cerr)) message).

(** The names the specification gives to the string errors. *)
Definition ClosedHandleError (e : error) : Prop :=
  e = Errorf "client is closed" \/
  e = Errorf "database client is closed" \/
  e = Errorf "container client is closed".

Definition NullResponseError : error := Errorf "received null JSON response".

Definition NoOperationsCompletedError : error := Errorf "no operations completed".

(* ===================================================================== *)
(** ** Handle wrappers *)
(* ===================================================================== *)

(** Each wrapper holds one native pointer.  [*_finalizer] is the runtime's
    side of [runtime.SetFinalizer] for the object: whether a finalizer is
    registered. *)
Record CosmosClient := { client : ptr; client_finalizer : bool }.
Record DatabaseClient := { database : ptr; database_finalizer : bool }.
Record ContainerClient := { container : ptr; container_finalizer : bool }.

Module Client.

Definition finalize (c : CosmosClient) (w : World) : CosmosClient * World :=
  if negb (client c =? NULL) then
    ({| client := NULL; client_finalizer := client_finalizer c |},
     emit (E_cosmos_client_free (client c)) w)
  else (c, w).

Definition Close (c : CosmosClient) (w : World) : CosmosClient * World :=
  finalize {| client := client c; client_finalizer := false |} w.

(** The collector finds the object unreachable: a registered finalizer
    is cleared and run; otherwise nothing happens. *)
Definition collect (c : CosmosClient) (w : World) : CosmosClient * World :=
  if client_finalizer c
  then finalize {| client := client c; client_finalizer := false |} w
  else (c, w).

End Client.

Module Database.

Definition finalize (d : DatabaseClient) (w : World) : DatabaseClient * World :=
  if negb (database d =? NULL) then
    ({| database := NULL; database_finalizer := database_finalizer d |},
     emit (E_cosmos_database_free (database d)) w)
  else (d, w).

Definition Close (d : DatabaseClient) (w : World) : DatabaseClient * World :=
  finalize {| database := database d; database_finalizer := false |} w.

Definition collect (d : DatabaseClient) (w : World) : DatabaseClient * World :=
  if database_finalizer d
  then finalize {| database := database d; database_finalizer := false |} w
  else (d, w).

End Database.

Module Container.

Definition finalize (c : ContainerClient) (w : World) : ContainerClient * World :=
  if negb (container c =? NULL) then
    ({| container := NULL; container_finalizer := container_finalizer c |},
     emit (E_cosmos_container_free (container c)) w)
  else (c, w).

Definition Close (c : ContainerClient) (w : World) : ContainerClient * World :=
  finalize {| container := container c; container_finalizer := false |} w.

Definition collect (c : ContainerClient) (w : World) : ContainerClient * World :=
  if container_finalizer c
  then finalize {| container := container c; container_finalizer := false |} w
  else (c, w).

End Container.

(** What can happen to a wrapper after its construction: an explicit
    [Close], a run of [finalize] itself, or the collector finding the
    object unreachable. *)
Inductive lifecycle := Op_Close | Op_finalize | Op_collect.

Definition client_op (o : lifecycle) (cw : CosmosClient * World) :=
  match o with
  | Op_Close => Client.Close (fst cw) (snd cw)
  | Op_finalize => Client.finalize (fst cw) (snd cw)
  | Op_collect => Client.collect (fst cw) (snd cw)
  end.

Definition database_op (o : lifecycle) (dw : DatabaseClient * World) :=
  match o with
  | Op_Close => Database.Close (fst dw) (snd dw)
  | Op_finalize => Database.finalize (fst dw) (snd dw)
  | Op_collect => Database.collect (fst dw) (snd dw)
  end.

Definition container_op (o : lifecycle) (cw : ContainerClient * World) :=
  match o with
  | Op_Close => Container.Close (fst cw) (snd cw)
  | Op_finalize => Container.finalize (fst cw) (snd cw)
  | Op_collect => Container.collect (fst cw) (snd cw)
  end.

(** A sequence of such events, first to last. *)
Definition run_ops {A} (op : lifecycle -> A -> A) (ops : list lifecycle) (a : A) : A :=
  fold_left (fun a o => op o a) ops a.

(** The calls made between an earlier world and a later one. *)
Definition events_since (w w' : World) : list event :=
  drop (length (trace w)) (trace w').

Section Wrapper.

Variable F : Foreign.

Definition NewCosmosClientWithKey (endpoint key : string) (w : World)
  : option CosmosClient * option error * World :=
  let '(cEndpoint, w) := C_CString endpoint w in
  let '(cKey, w) := C_CString key w in
  let '(code, client, cerr) :=
    cosmos_client_create_with_key F (trace w) endpoint key in
  let w := emit (E_cosmos_client_create_with_key cEndpoint cKey) w in
  let ret :=
    if negb (code =? COSMOS_ERROR_CODE_SUCCESS)
    then (None, newCosmosError cerr)
    else (Some {| client := client; client_finalizer := true |}, None) in
  (* deferred calls, last registered first *)
  let w := C_free cKey w in
  let w := C_free cEndpoint w in
  (ret, w).

Definition CosmosClient_DatabaseClient
    (c : CosmosClient) (databaseID : string) (w : World)
  : option DatabaseClient * option error * World :=
  if client c =? NULL then (None, Some (Errorf "client is closed"), w)
  else
    let '(cDatabaseID, w) := C_CString databaseID w in
    let '(code, database, cerr) :=
      cosmos_client_database_client F (trace w) (client c) databaseID in
    let w := emit (E_cosmos_client_database_client (client c) cDatabaseID) w in
    let ret :=
      if negb (code =? COSMOS_ERROR_CODE_SUCCESS)
      then (None, newCosmosError cerr)
      else (Some {| database := database; database_finalizer := true |}, None) in
    let w := C_free cDatabaseID w in
    (ret, w).

Definition DatabaseClient_ContainerClient
    (d : DatabaseClient) (containerID : string) (w : World)
  : option ContainerClient * option error * World :=
  if database d =? NULL then (None, Some (Errorf "database client is closed"), w)
  else
    let '(cContainerID, w) := C_CString containerID w in
    let '(code, container, cerr) :=
      cosmos_database_container_client F (trace w) (database d) containerID in
    let w := emit (E_cosmos_database_container_client (database d) cContainerID) w in
    let ret :=
      if negb (code =? COSMOS_ERROR_CODE_SUCCESS)
      then (None, newCosmosError cerr)
      else (Some {| container := container; container_finalizer := true |}, None) in
    let w := C_free cContainerID w in
    (ret, w).

Definition ReadItem (c : ContainerClient) (itemID partitionKey : string) (w : World)
  : string * option error * World :=
  if container c =? NULL then ("", Some (Errorf "container client is closed"), w)
  else
    let '(cItemID, w) := C_CString itemID w in
    let '(cPartitionKey, w) := C_CString partitionKey w in
    let '(code, outJson, cerr) :=
      cosmos_container_read_item F (trace w) (container c) partitionKey itemID in
    let w := emit (E_cosmos_container_read_item (container c) cPartitionKey cItemID) w in
    let '(ret, w) :=
      if negb (code =? COSMOS_ERROR_CODE_SUCCESS)
      then (("", newCosmosError cerr), w)
      else
        match outJson with
        | None => (("", Some (Errorf "received null JSON response")), w)
        | Some b =>
            let result := C_GoString b in
            let w := emit (E_cosmos_string_free (addr b)) w in
            ((result, None), w)
        end in
    let w := C_free cPartitionKey w in
    let w := C_free cItemID w in
    (ret, w).

End Wrapper.

(** Scoped marshaling of input text: within the calls of one operation,
    every copy made by [C.CString] is passed to [C.free] exactly once, and
    [C.free] is passed nothing else. *)
Definition copies_released_once (evs : list event) : Prop :=
  (forall p s, In (E_CString p s) evs -> occurrences (E_free p) evs = 1%nat) /\
  (forall p, In (E_free p) evs -> exists s, In (E_CString p s) evs).

(** A test double that answers every call alike: the return code, the
    handle or payload left in the out-parameter, and the error struct. *)
Definition constant_double (rc : Z) (handle : ptr) (payload : char_ptr)
    (cerr : cosmos_error) : Foreign :=
  {| cosmos_client_create_with_key := fun _ _ _ => (rc, handle, cerr);
     cosmos_client_database_client := fun _ _ _ => (rc, handle, cerr);
     cosmos_database_container_client := fun _ _ _ => (rc, handle, cerr);
     cosmos_container_read_item := fun _ _ _ _ => (rc, payload, cerr) |}.

Definition no_error : cosmos_error := {| code := 0; message := None |}.

Definition empty_world : World := {| trace := []; brk := 1 |}.

(* ===================================================================== *)
(** ** Key scheme: benchmark worker and data loader *)
(* ===================================================================== *)

(** [rand.Intn n] on a raw non-negative draw [v] that the generator
    accepts: [v % n]; panics ([None]) when [n <= 0]. *)
Definition Intn (n v : Z) : option Z :=
  if n <=? 0 then None else Some (v mod n).

(** Lines 400-402 of [workerBenchmark]: the item id and partition key of
    the chosen index; [None] when [%] panics. *)
Definition worker_keys (itemIndex partitionCount : Z) : option (string * string) :=
  let itemID := "item" ++ fmt_d itemIndex in
  match go_rem itemIndex partitionCount with
  | None => None
  | Some r => Some (itemID, "partition" ++ fmt_d r)
  end.

(** The document of the data loader (go-bench/cmd/createDb.go). *)
Record RandomDocsItem := {
  ID : string;
  PartitionKey : string;
  Data : string;
  RandomNumber : Z
}.

(** [createRandomDocsItem]; [data] and [randomNumber] stand for the results
    of [generateRandomString(1024)] and [generateRandomInt(0, 10000)]. *)
Definition createRandomDocsItem (index partitionCount : Z)
    (data : string) (randomNumber : Z) : option RandomDocsItem :=
  let id := "item" ++ fmt_d index in
  match go_rem index partitionCount with
  | None => None
  | Some r =>
      Some {| ID := id;
              PartitionKey := "partition" ++ fmt_d r;
              Data := data;
              RandomNumber := randomNumber |}
  end.

(* ===================================================================== *)
(** ** float64 and the results of a run *)
(* ===================================================================== *)

(** IEEE 754 binary64, as Go's [float64]: 53 bits of precision, round to
    nearest even. *)
Definition float64 := spec_float.
Definition f64_prec : Z := 53.
Definition f64_emax : Z := 1024.

(** [float64(n)] for an integer [n]. *)
Definition f64_of_int (n : Z) : float64 := binary_normalize f64_prec f64_emax n 0 false.
Definition f64_div : float64 -> float64 -> float64 := SFdiv f64_prec f64_emax.
Definition f64_add : float64 -> float64 -> float64 := SFadd f64_prec f64_emax.

(** The literals [1e6] and [1e9], and [1.0]. *)
Definition f64_1e6 : float64 := f64_of_int 1000000.
Definition f64_1e9 : float64 := f64_of_int 1000000000.
Definition f64_one : float64 := SFone f64_prec f64_emax.

(** [time.Second] in nanoseconds, and [Duration.Seconds]:
    whole seconds plus the fraction, both converted separately. *)
Definition Second : Z := 1000000000.
Definition Seconds (d : Z) : float64 :=
  let sec := Z.quot d Second in
  let nsec := Z.rem d Second in
  f64_add (f64_of_int sec) (f64_div (f64_of_int nsec) f64_1e9).

(** [TotalOps] is an [int] (64 bits on the platforms the benchmark runs
    on), [ElapsedTime] a [time.Duration] in nanoseconds. *)
Record BenchmarkResults := {
  TotalOps : Z;
  ElapsedTime : Z;
  OpsPerSecond : float64;
  LatencyMs : float64
}.

(** Lines 374-385 of [executeBenchmark]: from the final counters and the
    elapsed time to the results, or the error of an empty run. *)
Definition aggregate (finalOps finalLatency actualElapsed : Z)
  : option BenchmarkResults * option error :=
  if finalOps =? 0 then (None, Some (Errorf "no operations completed"))
  else
    (Some {| TotalOps := finalOps;
             ElapsedTime := actualElapsed;
             OpsPerSecond := f64_div (f64_of_int finalOps) (Seconds actualElapsed);
             LatencyMs :=
               f64_div (f64_div (f64_of_int finalLatency) (f64_of_int finalOps))
                       f64_1e6 |},
     None).

(* ===================================================================== *)
(** ** The benchmark harness as a transition system *)
(* ===================================================================== *)

(** [Time.Sub]: the difference of two clock readings in nanoseconds,
    saturating at the ends of [Duration]'s range. *)
Definition time_Sub (t u : Z) : Z :=
  Z.max (- 2 ^ 63) (Z.min (2 ^ 63 - 1) (t - u)).

(** [atomic.AddInt64]. *)
Definition atomic_AddInt64 (x delta : Z) : Z := to_int64 (x + delta).

(** What the harness prints while it runs. *)
Inductive output :=
| Out_progress (currentOps : Z) (now : Z)
| Out_worker_error (workerID : Z) (itemID : string) (err : error).

Definition newline : string := String (ascii_of_nat 10) EmptyString.

(** The line of [Out_worker_error]:
    ["Worker %d: Error reading item %s: %v\n"]. *)
Definition worker_error_line (workerID : Z) (itemID : string) (err : error) : string :=
  "Worker " ++ fmt_d workerID ++ ": Error reading item " ++ itemID ++ ": "
  ++ Error err ++ newline.

(** Where a worker goroutine stands in [workerBenchmark]. *)
Inductive wpc :=
| W_select                                   (* at the [select], line 393 *)
| W_default                                  (* [default] chosen, line 398 *)
| W_reading (itemID partitionKey : string) (opStart : Z)
                                             (* inside [ReadItem], line 407 *)
| W_add_latency (opLatency : Z)              (* between lines 419 and 420 *)
| W_exited.                                  (* returned, [wg.Done()] run *)

(** Where [executeBenchmark] stands. *)
Inductive mpc :=
| M_spawn (i : Z)                            (* loop of line 331 *)
| M_wait_ctx                                 (* [<-benchCtx.Done()], line 362 *)
| M_close_stop                               (* [close(stopChan)], line 365 *)
| M_wg_wait                                  (* [wg.Wait()], line 368 *)
| M_loads                                    (* lines 370-372 *)
| M_return (r : option BenchmarkResults * option error).

Record Bench := {
  world : World;            (* calls across the cgo boundary *)
  ctx_done : bool;          (* [benchCtx.Done()] is closed *)
  stop_closed : bool;       (* [stopChan] is closed *)
  totalOps : Z;
  totalLatency : Z;
  wg : Z;                   (* counter of the [sync.WaitGroup] *)
  workers : list wpc;       (* worker [i] is goroutine [workerID = i] *)
  main : mpc;
  stdout : list output;
  panicked : bool           (* a goroutine panicked: the process is gone *)
}.

Definition with_world (w : World) (s : Bench) : Bench :=
  {| world := w; ctx_done := ctx_done s; stop_closed := stop_closed s;
     totalOps := totalOps s; totalLatency := totalLatency s; wg := wg s;
     workers := workers s; main := main s; stdout := stdout s;
     panicked := panicked s |}.
Definition with_ctx_done (b : bool) (s : Bench) : Bench :=
  {| world := world s; ctx_done := b; stop_closed := stop_closed s;
     totalOps := totalOps s; totalLatency := totalLatency s; wg := wg s;
     workers := workers s; main := main s; stdout := stdout s;
     panicked := panicked s |}.
Definition with_stop_closed (b : bool) (s : Bench) : Bench :=
  {| world := world s; ctx_done := ctx_done s; stop_closed := b;
     totalOps := totalOps s; totalLatency := totalLatency s; wg := wg s;
     workers := workers s; main := main s; stdout := stdout s;
     panicked := panicked s |}.
Definition with_totalOps (n : Z) (s : Bench) : Bench :=
  {| world := world s; ctx_done := ctx_done s; stop_closed := stop_closed s;
     totalOps := n; totalLatency := totalLatency s; wg := wg s;
     workers := workers s; main := main s; stdout := stdout s;
     panicked := panicked s |}.
Definition with_totalLatency (n : Z) (s : Bench) : Bench :=
  {| world := world s; ctx_done := ctx_done s; stop_closed := stop_closed s;
     totalOps := totalOps s; totalLatency := n; wg := wg s;
     workers := workers s; main := main s; stdout := stdout s;
     panicked := panicked s |}.
Definition with_wg (n : Z) (s : Bench) : Bench :=
  {| world := world s; ctx_done := ctx_done s; stop_closed := stop_closed s;
     totalOps := totalOps s; totalLatency := totalLatency s; wg := n;
     workers := workers s; main := main s; stdout := stdout s;
     panicked := panicked s |}.
Definition with_workers (l : list wpc) (s : Bench) : Bench :=
  {| world := world s; ctx_done := ctx_done s; stop_closed := stop_closed s;
     totalOps := totalOps s; totalLatency := totalLatency s; wg := wg s;
     workers := l; main := main s; stdout := stdout s;
     panicked := panicked s |}.
Definition with_main (m : mpc) (s : Bench) : Bench :=
  {| world := world s; ctx_done := ctx_done s; stop_closed := stop_closed s;
     totalOps := totalOps s; totalLatency := totalLatency s; wg := wg s;
     workers := workers s; main := m; stdout := stdout s;
     panicked := panicked s |}.
Definition print (o : output) (s : Bench) : Bench :=
  {| world := world s; ctx_done := ctx_done s; stop_closed := stop_closed s;
     totalOps := totalOps s; totalLatency := totalLatency s; wg := wg s;
     workers := workers s; main := main s; stdout := stdout s ++ [o];
     panicked := panicked s |}.
Definition panic (s : Bench) : Bench :=
  {| world := world s; ctx_done := ctx_done s; stop_closed := stop_closed s;
     totalOps := totalOps s; totalLatency := totalLatency s; wg := wg s;
     workers := workers s; main := main s; stdout := stdout s;
     panicked := true |}.

(** What the scheduler and the environment decide: which goroutine moves,
    with the clock reading [now] and the raw random draw [v] it may
    consume; or the deadline of [benchCtx] passes (or its parent is
    cancelled); or the progress ticker fires. *)
Inductive label :=
| L_main (now : Z)
| L_worker (i : nat) (v now : Z)
| L_deadline
| L_ticker (now : Z).

Section Harness.

Variable F : Foreign.
Variable container_client : ContainerClient.
Variables itemCount partitionCount nworkers : Z.
Variables startTime duration : Z.

(** One move of worker [workerID] standing at [pc]: the new position and
    the shared state. *)
Definition worker_step (workerID : nat) (v now : Z) (pc : wpc) (s : Bench)
  : option (wpc * Bench) :=
  match pc with
  | W_select =>
      if ctx_done s || stop_closed s
      then Some (W_exited, with_wg (wg s - 1) s)
      else Some (W_default, s)
  | W_default =>
      match Intn itemCount v with
      | None => Some (W_default, panic s)
      | Some itemIndex =>
          match worker_keys itemIndex partitionCount with
          | None => Some (W_default, panic s)
          | Some (itemID, partitionKey) =>
              Some (W_reading itemID partitionKey now, s)
          end
      end
  | W_reading itemID partitionKey opStart =>
      let '(_, err, w) :=
        ReadItem F container_client itemID partitionKey (world s) in
      let opLatency := time_Sub now opStart in
      match err with
      | Some e =>
          Some (W_select,
                print (Out_worker_error (Z.of_nat workerID) itemID e)
                      (with_world w s))
      | None =>
          Some (W_add_latency opLatency,
                with_totalOps (atomic_AddInt64 (totalOps s) 1) (with_world w s))
      end
  | W_add_latency opLatency =>
      Some (W_select,
            with_totalLatency (atomic_AddInt64 (totalLatency s) opLatency) s)
  | W_exited => None
  end.

(** One move of [executeBenchmark]; [None] while it is blocked. *)
Definition main_step (now : Z) (s : Bench) : option Bench :=
  match main s with
  | M_spawn i =>
      if i <? nworkers
      then Some (with_main (M_spawn (i + 1))
                   (with_workers (workers s ++ [W_select])
                      (with_wg (wg s + 1) s)))
      else Some (with_main M_wait_ctx s)
  | M_wait_ctx =>
      if ctx_done s then Some (with_main M_close_stop s) else None
  | M_close_stop =>
      Some (with_main M_wg_wait (with_stop_closed true s))
  | M_wg_wait =>
      if wg s =? 0 then Some (with_main M_loads s) else None
  | M_loads =>
      let actualElapsed := time_Sub now startTime in
      Some (with_main
              (M_return (aggregate (totalOps s) (totalLatency s) actualElapsed))
              s)
  | M_return _ => None
  end.

(** The progress goroutine, started after the spawn loop, serves a tick:
    it loads the operation counter and prints it if time remains.  (Its
    [select] may serve a tick even when the context is done; its own
    return changes nothing in the state.) *)
Definition ticker_step (now : Z) (s : Bench) : option Bench :=
  match main s with
  | M_spawn _ => None
  | _ =>
      let remaining := time_Sub (startTime + duration) now in
      if 0 <? remaining
      then Some (print (Out_progress (totalOps s) now) s)
      else Some s
  end.

Definition step (l : label) (s : Bench) : option Bench :=
  if panicked s then None
  else
    match l with
    | L_main now => main_step now s
    | L_worker i v now =>
        match workers s !! i with
        | None => None
        | Some pc =>
            match worker_step i v now pc s with
            | None => None
            | Some (pc', s') => Some (with_workers (<[i := pc']> (workers s')) s')
            end
        end
    | L_deadline => Some (with_ctx_done true s)
    | L_ticker now => ticker_step now s
    end.

Fixpoint run (ls : list label) (s : Bench) : option Bench :=
  match ls with
  | [] => Some s
  | l :: ls' =>
      match step l s with
      | None => None
      | Some s' => run ls' s'
      end
  end.

(** [executeBenchmark] is entered. *)
Definition init (w : World) : Bench :=
  {| world := w; ctx_done := false; stop_closed := false;
     totalOps := 0; totalLatency := 0; wg := 0;
     workers := []; main := M_spawn 0; stdout := []; panicked := false |}.

Definition reachable (w : World) (s : Bench) : Prop :=
  exists ls, run ls (init w) = Some s.

End Harness.

(** *** A small run: one worker, 10000 items in 10 partitions *)

Definition demo_double : Foreign :=
  constant_double 0 4242 (Some {| addr := 9000; bytes := "{}" |}) no_error.

Definition demo_container : ContainerClient :=
  {| container := 4242; container_finalizer := true |}.

Definition demo_step : label -> Bench -> option Bench :=
  step demo_double demo_container 10000 10 1 0 60000000000.

Definition demo_run : list label -> Bench -> option Bench :=
  run demo_double demo_container 10000 10 1 0 60000000000.


(** The worker reads once and is then stopped by the deadline. *)
Definition demo_schedule : list label :=
  [ L_main 0;                    (* spawn worker 0 *)
    L_main 1;                    (* leave the spawn loop *)
    L_worker 0 0 2;              (* select: default *)
    L_worker 0 12345 10;         (* index 2345, the read starts at 10 *)
    L_worker 0 0 1000010;        (* the read returns at 1000010 *)
    L_worker 0 0 1000011;        (* add the latency *)
    L_deadline;
    L_worker 0 0 1000012;        (* select: done, return *)
    L_main 1000013;              (* <-benchCtx.Done() *)
    L_main 1000014;              (* close(stopChan) *)
    L_main 1000015;              (* wg.Wait() *)
    L_main 2000000 ].            (* loads and results *)

(** The deadline passes between a worker's select and its read. *)
Definition late_schedule : list label :=
  [ L_main 0;                    (* spawn worker 0 *)
    L_worker 0 0 1;              (* select: neither signal, default *)
    L_deadline ].                (* the context is done *)

(** A library whose every call fails with code 7, and a state in which
    worker 0 of one is inside [ReadItem]. *)
Definition failing_double : Foreign :=
  constant_double 7 0 None
    {| code := 7; message := Some {| addr := 500; bytes := "boom" |} |}.

Definition reading_state : Bench :=
  {| world := empty_world; ctx_done := false; stop_closed := false;
     totalOps := 0; totalLatency := 0; wg := 1;
     workers := [W_reading "item2345" "partition5" 10];
     main := M_wait_ctx; stdout := []; panicked := false |}.


(** The state after [late_schedule]: worker 0 has passed its check and the
    context is done. *)
Definition late_state : Bench :=
  {| world := empty_world; ctx_done := true; stop_closed := false;
     totalOps := 0; totalLatency := 0; wg := 1;
     workers := [W_default]; main := M_spawn 1; stdout := [];
     panicked := false |}.


(** *** What holds in every state the harness can reach *)

Definition is_exited (pc : wpc) : bool :=
  match pc with W_exited => true | _ => false end.

(** The number of worker goroutines that have not returned. *)
Fixpoint live (l : list wpc) : Z :=
  match l with
  | [] => 0
  | pc :: l' => (if is_exited pc then 0 else 1) + live l'
  end.

(** [executeBenchmark] is past [wg.Wait()]. *)
Definition past_wait (m : mpc) : bool :=
  match m with M_loads | M_return _ => true | _ => false end.

Definition harness_inv (nworkers : Z) (s : Bench) : Prop :=
  wg s = live (workers s) /\
  (past_wait (main s) = true -> wg s = 0) /\
  match main s with
  | M_spawn i =>
      0 <= i <= Z.max 0 nworkers /\ Z.of_nat (length (workers s)) = i
  | _ => Z.of_nat (length (workers s)) = Z.max 0 nworkers
  end /\
  match main s with
  | M_spawn _ | M_wait_ctx => True
  | M_close_stop => ctx_done s = true
  | _ => ctx_done s = true /\ stop_closed s = true
  end /\
  (forall r, main s = M_return r ->
     exists elapsed, r = aggregate (totalOps s) (totalLatency s) elapsed).

(* ===================================================================== *)
(** ** The data loader's random documents *)
(* ===================================================================== *)

(** The global source of [math/rand]: the raw draws it will produce and
    how many have been consumed. *)
Record Rand := { draws : nat -> Z; consumed : nat }.

Definition rand_Intn (n : Z) (r : Rand) : option (Z * Rand) :=
  match Intn n (draws r (consumed r)) with
  | None => None
  | Some x => Some (x, {| draws := draws r; consumed := S (consumed r) |})
  end.

(** [generateRandomInt]: [min + rand.Intn(max-min+1)] in [int]
    arithmetic; [None] when [rand.Intn] panics. *)
Definition generateRandomInt (min max : Z) (r : Rand) : option (Z * Rand) :=
  match rand_Intn (to_int64 (to_int64 (max - min) + 1)) r with
  | None => None
  | Some (x, r') => Some (to_int64 (min + x), r')
  end.

Definition letters : string :=
  "abcdefghijklmnopqrstuvwxyzABCDEFGHIJKLMNOPQRSTUVWXYZ0123456789".

(** [s[i]] on a Go string; out of range panics. *)
Definition string_index (s : string) (i : Z) : option ascii :=
  if i <? 0 then None else String.get (Z.to_nat i) s.

(** The loop of [generateRandomString] over the [n] bytes still to fill. *)
Fixpoint fill_random (n : nat) (r : Rand) : option (string * Rand) :=
  match n with
  | O => Some (EmptyString, r)
  | S n' =>
      match generateRandomInt 0 (Z.of_nat (String.length letters) - 1) r with
      | None => None
      | Some (i, r1) =>
          match string_index letters i with
          | None => None
          | Some c =>
              match fill_random n' r1 with
              | None => None
              | Some (rest, r2) => Some (String c rest, r2)
              end
          end
      end
  end.

(** [generateRandomString]: [make([]byte, size)] panics on a negative
    size. *)
Definition generateRandomString (size : Z) (r : Rand) : option (string * Rand) :=
  if size <? 0 then None else fill_random (Z.to_nat size) r.

(** [createRandomDocsItem] with its own random draws: the fields are
    evaluated in the order they are written, so [%] panics before any
    draw. *)
Definition createRandomDocsItem_drawn (index partitionCount : Z) (r : Rand)
  : option (RandomDocsItem * Rand) :=
  match go_rem index partitionCount with
  | None => None
  | Some _ =>
      match generateRandomString 1024 r with
      | None => None
      | Some (data, r1) =>
          match generateRandomInt 0 10000 r1 with
          | None => None
          | Some (n, r2) =>
              match createRandomDocsItem index partitionCount data n with
              | None => None
              | Some doc => Some (doc, r2)
              end
          end
      end
  end.

Definition in_letters (c : ascii) : Prop :=
  exists i, String.get i letters = Some c.

Fixpoint all_chars (P : ascii -> Prop) (s : string) : Prop :=
  match s with
  | EmptyString => True
  | String c s' => P c /\ all_chars P s'
  end.


(** A source of draws to run the loader's functions on. *)
Definition demo_rand : Rand :=
  {| draws := fun n => Z.of_nat (7 * n + 3); consumed := 0 |}.


(** *** Measures on runs of the harness *)

(** How many moves a worker at [pc] can still make once a signal has
    fired: finish the iteration it is in, then return at the check. *)
Definition moves_left (pc : wpc) : nat :=
  match pc with
  | W_exited => 0
  | W_select => 1
  | W_add_latency _ => 2
  | W_reading _ _ _ => 3
  | W_default => 4
  end.

(** The moves of worker [i] in a schedule. *)
Definition is_move_of (i : nat) (l : label) : bool :=
  match l with
  | L_worker j _ _ => Nat.eqb i j
  | _ => false
  end.

Definition moves_of (i : nat) (ls : list label) : nat :=
  length (List.filter (is_move_of i) ls).

(** The native reads in a trace. *)
Definition is_read (e : event) : bool :=
  match e with
  | E_cosmos_container_read_item _ _ _ => true
  | _ => false
  end.


(** Until [executeBenchmark] has executed [close(stopChan)] the channel is
    open. *)
Definition stop_inv (s : Bench) : Prop :=
  match main s with
  | M_spawn _ | M_wait_ctx | M_close_stop => stop_closed s = false
  | _ => True
  end.

(** A schedule that continues [late_schedule]: worker 0, past its check
    when the deadline passed, finishes its iteration and returns. *)
Definition overshoot_schedule : list label :=
  [ L_worker 0 12345 5;          (* the read starts *)
    L_worker 0 0 1000005;        (* the read returns *)
    L_worker 0 0 1000006;        (* add the latency *)
    L_worker 0 0 1000007 ].      (* select: done, return *)


(** No read has succeeded so far: both counters are zero and no worker
    stands between its two atomic adds. *)
Definition is_adding (pc : wpc) : bool :=
  match pc with W_add_latency _ => true | _ => false end.

Definition no_success_yet (s : Bench) : Prop :=
  totalOps s = 0 /\ totalLatency s = 0 /\
  Forall (fun pc => is_adding pc = false) (workers s).

(** The worker has not got as far as calling [ReadItem]. *)
Definition before_read (pc : wpc) : bool :=
  match pc with W_select | W_default | W_exited => true | _ => false end.


(** A run in which the one read fails, and a run without workers. *)
Definition error_schedule : list label :=
  [ L_main 0;                    (* spawn worker 0 *)
    L_main 1;                    (* leave the spawn loop *)
    L_worker 0 0 2;              (* select: default *)
    L_worker 0 12345 10;         (* the read starts *)
    L_worker 0 0 20;             (* the read returns an error *)
    L_deadline;
    L_worker 0 0 21;             (* select: done, return *)
    L_main 22; L_main 23; L_main 24; L_main 100 ].

Definition idle_schedule : list label :=
  [ L_main 0;                    (* no worker to spawn *)
    L_deadline;
    L_main 1; L_main 2; L_main 3; L_main 5 ].

Definition closed_container : ContainerClient :=
  {| container := NULL; container_finalizer := false |}.


(* ===================================================================== *)
(** ** The [pointRead] command *)
(* ===================================================================== *)

(** The flags of a [cobra.Command], as the lookups [cmd.Flags().GetInt],
    [GetDuration] (nanoseconds) and [GetString] answer: a value and an
    error. *)
Record Command := {
  GetInt : string -> Z * option error;
  GetDuration : string -> Z * option error;
  GetString : string -> string * option error
}.

(** Errors as [runPointReadBenchmark] returns them: an error of the
    wrapper or of a flag lookup, or [fmt.Errorf] with [%w] around one; the
    wrapping error carries its whole text. *)
Inductive go_error :=
| Plain (e : error)
| Wrapped (text : string) (inner : go_error).

Definition error_text (e : go_error) : string :=
  match e with
  | Plain e => Error e
  | Wrapped text _ => text
  end.

(** [fmt.Errorf(prefix + "%w", err)]. *)
Definition Errorf_w (prefix : string) (err : go_error) : go_error :=
  Wrapped (prefix ++ error_text err) err.

(** How a call ends: it returns, leaving the world in some state, or a
    panic takes the process down. *)
Inductive outcome (A : Type) :=
| Returned (a : A) (w : World)
| Panicked.
Arguments Returned {A} a w.
Arguments Panicked {A}.

(** Deferred [Close] calls; the receiver may be a nil pointer, on which
    [Close] panics. *)
Definition deferred_client_Close (c : option CosmosClient) (w : World) : option World :=
  match c with
  | None => None
  | Some c => Some (snd (Client.Close c w))
  end.

Definition deferred_database_Close (d : option DatabaseClient) (w : World) : option World :=
  match d with
  | None => None
  | Some d => Some (snd (Database.Close d w))
  end.

Definition deferred_container_Close (k : option ContainerClient) (w : World) : option World :=
  match k with
  | None => None
  | Some k => Some (snd (Container.Close k w))
  end.

(** Return [res] through the deferred calls, last registered first. *)
Fixpoint return_through {A} (defers : list (World -> option World)) (res : A) (w : World)
  : outcome A :=
  match defers with
  | [] => Returned res w
  | d :: rest =>
      match d w with
      | None => Panicked
      | Some w' => return_through rest res w'
      end
  end.

Section PointRead.

Variable F : Foreign.

(** [createCosmosClient] of the wrapper benchmark's root command. *)
Definition createCosmosClient (cmd : Command) (w : World)
  : option CosmosClient * option error * World :=
  let '(endpoint, err) := GetString cmd "endpoint" in
  match err with
  | Some e => (None, Some e, w)
  | None =>
      let '(key, err) := GetString cmd "key" in
      match err with
      | Some e => (None, Some e, w)
      | None => NewCosmosClientWithKey F endpoint key w
      end
  end.

(** [getTestDbClient]; calling [DatabaseClient] on a nil client panics. *)
Definition getTestDbClient (cmd : Command) (client : option CosmosClient) (w : World)
  : outcome (option DatabaseClient * option error) :=
  let '(databaseName, err) := GetString cmd "database" in
  match err with
  | Some e => Returned (None, Some e) w
  | None =>
      match client with
      | None => Panicked
      | Some c =>
          let '(d, e, w') := CosmosClient_DatabaseClient F c databaseName w in
          Returned (d, e) w'
      end
  end.

(** [runPointReadBenchmark].  [executeBenchmark] runs under the schedule
    [ls], entered at clock reading [startTime]; a schedule that does not
    take it to its return is no run ([None]).  What the command prints is
    not recorded. *)
Definition runPointReadBenchmark (cmd : Command) (startTime : Z) (ls : list label)
    (w : World) : option (outcome (option go_error)) :=
  let '(itemCount, err) := GetInt cmd "item-count" in
  match err with
  | Some e => Some (Returned (Some (Errorf_w "failed to get item-count: " (Plain e))) w)
  | None =>
  let '(duration, err) := GetDuration cmd "duration" in
  match err with
  | Some e => Some (Returned (Some (Errorf_w "failed to get duration: " (Plain e))) w)
  | None =>
  let '(partitionCount, err) := GetInt cmd "partition-count" in
  match err with
  | Some e => Some (Returned (Some (Errorf_w "failed to get partition-count: " (Plain e))) w)
  | None =>
  let '(nworkers, err) := GetInt cmd "workers" in
  match err with
  | Some e => Some (Returned (Some (Errorf_w "failed to get workers: " (Plain e))) w)
  | None =>
  let '(containerName, err) := GetString cmd "container" in
  match err with
  | Some e => Some (Returned (Some (Errorf_w "failed to get container: " (Plain e))) w)
  | None =>
  let '(client, err, w) := createCosmosClient cmd w in
  match err with
  | Some e =>
      Some (Returned (Some (Errorf_w "failed to create Cosmos client: " (Plain e))) w)
  | None =>
  let defers := [deferred_client_Close client] in
  match getTestDbClient cmd client w with
  | Panicked => Some Panicked
  | Returned (dbClient, err) w =>
  match err with
  | Some e =>
      Some (return_through defers
              (Some (Errorf_w "failed to get database client: " (Plain e))) w)
  | None =>
  let defers := deferred_database_Close dbClient :: defers in
  match dbClient with
  | None => Some Panicked
  | Some d =>
  let '(containerClient, err, w) := DatabaseClient_ContainerClient F d containerName w in
  match err with
  | Some e =>
      Some (return_through defers
              (Some (Errorf_w "failed to get container client: " (Plain e))) w)
  | None =>
  let defers := deferred_container_Close containerClient :: defers in
  match containerClient with
  | None => Some Panicked
  | Some k =>
  match run F k itemCount partitionCount nworkers startTime duration ls (init w) with
  | None => None
  | Some s =>
      if panicked s then Some Panicked
      else
        match main s with
        | M_return (_, Some e) =>
            Some (return_through defers
                    (Some (Errorf_w "benchmark failed: " (Plain e))) (world s))
        | M_return (_, None) =>
            Some (return_through defers None (world s))
        | _ => None
        end
  end end end end end end end end end end end end.

End PointRead.

(** A library that opens every handle it is asked for. *)
Definition opens (F : Foreign) (hc hd hk : ptr) : Prop :=
  (forall t endpoint key,
     exists e, cosmos_client_create_with_key F t endpoint key
               = (COSMOS_ERROR_CODE_SUCCESS, hc, e)) /\
  (forall t h id,
     exists e, cosmos_client_database_client F t h id
               = (COSMOS_ERROR_CODE_SUCCESS, hd, e)) /\
  (forall t h id,
     exists e, cosmos_database_container_client F t h id
               = (COSMOS_ERROR_CODE_SUCCESS, hk, e)).

(** The flags the command reads are all defined. *)
Definition flags_ok (cmd : Command) : Prop :=
  snd (GetInt cmd "item-count") = None /\
  snd (GetDuration cmd "duration") = None /\
  snd (GetInt cmd "partition-count") = None /\
  snd (GetInt cmd "workers") = None /\
  snd (GetString cmd "container") = None /\
  snd (GetString cmd "endpoint") = None /\
  snd (GetString cmd "key") = None /\
  snd (GetString cmd "database") = None.

(** The flags of a small run: one worker against the emulator. *)
Definition demo_flags : Command :=
  {| GetInt := fun name =>
       if String.eqb name "item-count" then (10000, None)
       else if String.eqb name "partition-count" then (10, None)
       else if String.eqb name "workers" then (1, None)
       else (0, Some (Errorf ("flag accessed but not defined: " ++ name)));
     GetDuration := fun name =>
       if String.eqb name "duration" then (60000000000, None)
       else (0, Some (Errorf ("flag accessed but not defined: " ++ name)));
     GetString := fun name =>
       if String.eqb name "endpoint" then ("https://localhost:8080", None)
       else if String.eqb name "key" then ("key", None)
       else if String.eqb name "database" then ("sdk-bench-db", None)
       else if String.eqb name "container" then ("RandomDocs", None)
       else ("", Some (Errorf ("flag accessed but not defined: " ++ name))) |}.


(** A library that opens a client and then fails to open the database. *)
Definition boom : cosmos_error :=
  {| code := 7; message := Some {| addr := 500; bytes := "boom" |} |}.

Definition database_failing_double : Foreign :=
  {| cosmos_client_create_with_key := fun _ _ _ => (0, 11, no_error);
     cosmos_client_database_client := fun _ _ _ => (7, 0, boom);
     cosmos_database_container_client := fun _ _ _ => (0, 13, no_error);
     cosmos_container_read_item := fun _ _ _ _ => (0, None, no_error) |}.


(* ===================================================================== *)
(** ** The data loader: [insertSampleDocuments] as a transition system *)
(* ===================================================================== *)

(** Where an inserting goroutine stands. *)
Inductive lwpc :=
| LW_range                       (* at [for j := range jobs] *)
| LW_got (j : Z)                 (* holds job [j], before [createRandomDocsItem] *)
| LW_send (r : option error)     (* at [results <- err] *)
| LW_exited.                     (* the range ended, [wg.Done()] run *)

(** Where [insertSampleDocuments] stands. *)
Inductive lmpc :=
| LM_make                        (* the two [make(chan ..., itemCount)] *)
| LM_spawn (w : Z)               (* the loop over [concurrency] *)
| LM_send (i : Z)                (* [jobs <- i] *)
| LM_close                       (* [close(jobs)] *)
| LM_wait                        (* [wg.Wait()] *)
| LM_collect                     (* [close(results)] and the range over it *)
| LM_return (r : option (list error)).   (* nil, or [errors.Join(errs...)] *)

Record Loader := {
  jobs : list Z;                 (* buffered channel, oldest first *)
  jobs_closed : bool;
  results : list (option error); (* buffered channel of [error] values *)
  lwg : Z;
  lworkers : list lwpc;
  lmain : lmpc;
  rng : Rand;                    (* the global source of [math/rand] *)
  created : list (string * RandomDocsItem);
                                 (* the [CreateItem] calls: partition key, document *)
  lpanicked : bool
}.

Definition concurrency : Z := 32.

(** The scheduler picks [insertSampleDocuments] or a goroutine; for a
    goroutine the environment supplies what [json.Marshal] and
    [CreateItem] would answer. *)
Inductive llabel :=
| LL_main
| LL_worker (i : nat) (marshalErr createErr : option error).

Section Loader.

Variables itemCount partitionCount : Z.

Definition loader_main_step (s : Loader) : option Loader :=
  match lmain s with
  | LM_make =>
      if itemCount <? 0
      then Some {| jobs := jobs s; jobs_closed := jobs_closed s; results := results s;
                   lwg := lwg s; lworkers := lworkers s; lmain := LM_make;
                   rng := rng s; created := created s; lpanicked := true |}
      else Some {| jobs := jobs s; jobs_closed := jobs_closed s; results := results s;
                   lwg := lwg s; lworkers := lworkers s; lmain := LM_spawn 0;
                   rng := rng s; created := created s; lpanicked := lpanicked s |}
  | LM_spawn w =>
      if w <? concurrency
      then Some {| jobs := jobs s; jobs_closed := jobs_closed s; results := results s;
                   lwg := lwg s + 1; lworkers := lworkers s ++ [LW_range];
                   lmain := LM_spawn (w + 1);
                   rng := rng s; created := created s; lpanicked := lpanicked s |}
      else Some {| jobs := jobs s; jobs_closed := jobs_closed s; results := results s;
                   lwg := lwg s; lworkers := lworkers s; lmain := LM_send 0;
                   rng := rng s; created := created s; lpanicked := lpanicked s |}
  | LM_send i =>
      if i <? itemCount
      then
        if Z.of_nat (length (jobs s)) <? itemCount
        then Some {| jobs := jobs s ++ [i]; jobs_closed := jobs_closed s;
                     results := results s; lwg := lwg s; lworkers := lworkers s;
                     lmain := LM_send (i + 1);
                     rng := rng s; created := created s; lpanicked := lpanicked s |}
        else None
      else Some {| jobs := jobs s; jobs_closed := jobs_closed s; results := results s;
                   lwg := lwg s; lworkers := lworkers s; lmain := LM_close;
                   rng := rng s; created := created s; lpanicked := lpanicked s |}
  | LM_close =>
      Some {| jobs := jobs s; jobs_closed := true; results := results s;
              lwg := lwg s; lworkers := lworkers s; lmain := LM_wait;
              rng := rng s; created := created s; lpanicked := lpanicked s |}
  | LM_wait =>
      if lwg s =? 0
      then Some {| jobs := jobs s; jobs_closed := jobs_closed s; results := results s;
                   lwg := lwg s; lworkers := lworkers s; lmain := LM_collect;
                   rng := rng s; created := created s; lpanicked := lpanicked s |}
      else None
  | LM_collect =>
      let errs := omap id (results s) in
      Some {| jobs := jobs s; jobs_closed := jobs_closed s; results := [];
              lwg := lwg s; lworkers := lworkers s;
              lmain := LM_return (match errs with [] => None | _ => Some errs end);
              rng := rng s; created := created s; lpanicked := lpanicked s |}
  | LM_return _ => None
  end.

(** One move of a goroutine at [pc]: its new position and the state. *)
Definition loader_worker_step (marshalErr createErr : option error)
    (pc : lwpc) (s : Loader) : option (lwpc * Loader) :=
  match pc with
  | LW_range =>
      match jobs s with
      | j :: rest =>
          Some (LW_got j,
                {| jobs := rest; jobs_closed := jobs_closed s; results := results s;
                   lwg := lwg s; lworkers := lworkers s; lmain := lmain s;
                   rng := rng s; created := created s; lpanicked := lpanicked s |})
      | [] =>
          if jobs_closed s
          then Some (LW_exited,
                     {| jobs := []; jobs_closed := jobs_closed s; results := results s;
                        lwg := lwg s - 1; lworkers := lworkers s; lmain := lmain s;
                        rng := rng s; created := created s; lpanicked := lpanicked s |})
          else None
      end
  | LW_got j =>
      match createRandomDocsItem_drawn j partitionCount (rng s) with
      | None =>
          Some (LW_got j,
                {| jobs := jobs s; jobs_closed := jobs_closed s; results := results s;
                   lwg := lwg s; lworkers := lworkers s; lmain := lmain s;
                   rng := rng s; created := created s; lpanicked := true |})
      | Some (item, rng') =>
          match marshalErr with
          | Some e =>
              Some (LW_send (Some e),
                    {| jobs := jobs s; jobs_closed := jobs_closed s;
                       results := results s; lwg := lwg s; lworkers := lworkers s;
                       lmain := lmain s; rng := rng'; created := created s;
                       lpanicked := lpanicked s |})
          | None =>
              Some (LW_send createErr,
                    {| jobs := jobs s; jobs_closed := jobs_closed s;
                       results := results s; lwg := lwg s; lworkers := lworkers s;
                       lmain := lmain s; rng := rng';
                       created := created s ++ [(PartitionKey item, item)];
                       lpanicked := lpanicked s |})
          end
      end
  | LW_send r =>
      if Z.of_nat (length (results s)) <? itemCount
      then Some (LW_range,
                 {| jobs := jobs s; jobs_closed := jobs_closed s;
                    results := results s ++ [r]; lwg := lwg s; lworkers := lworkers s;
                    lmain := lmain s; rng := rng s; created := created s;
                    lpanicked := lpanicked s |})
      else None
  | LW_exited => None
  end.

Definition loader_step (l : llabel) (s : Loader) : option Loader :=
  if lpanicked s then None
  else
    match l with
    | LL_main => loader_main_step s
    | LL_worker i marshalErr createErr =>
        match lworkers s !! i with
        | None => None
        | Some pc =>
            match loader_worker_step marshalErr createErr pc s with
            | None => None
            | Some (pc', s') =>
                Some {| jobs := jobs s'; jobs_closed := jobs_closed s';
                        results := results s'; lwg := lwg s';
                        lworkers := <[i := pc']> (lworkers s'); lmain := lmain s';
                        rng := rng s'; created := created s';
                        lpanicked := lpanicked s' |}
            end
        end
    end.

Fixpoint loader_run (ls : list llabel) (s : Loader) : option Loader :=
  match ls with
  | [] => Some s
  | l :: ls' =>
      match loader_step l s with
      | None => None
      | Some s' => loader_run ls' s'
      end
  end.

Definition loader_init (r : Rand) : Loader :=
  {| jobs := []; jobs_closed := false; results := []; lwg := 0; lworkers := [];
     lmain := LM_make; rng := r; created := []; lpanicked := false |}.

Definition loader_reachable (r : Rand) (s : Loader) : Prop :=
  exists ls, loader_run ls (loader_init r) = Some s.

End Loader.


(** *** What holds in every state the loader can reach *)

(** A sum over the goroutines. *)
Fixpoint sum_over (f : lwpc -> Z) (l : list lwpc) : Z :=
  match l with
  | [] => 0
  | pc :: l' => f pc + sum_over f l'
  end.

Definition lw_live (pc : lwpc) : Z :=
  match pc with LW_exited => 0 | _ => 1 end.

(** Holding a job whose result is not yet in [results]. *)
Definition lw_busy (pc : lwpc) : Z :=
  match pc with LW_got _ | LW_send _ => 1 | _ => 0 end.

(** About to send a nil error. *)
Definition lw_sending_nil (pc : lwpc) : Z :=
  match pc with LW_send None => 1 | _ => 0 end.

Definition lw_holds (pc : lwpc) : list Z :=
  match pc with LW_got j => [j] | _ => [] end.

(** The jobs received and not yet turned into a document. *)
Fixpoint inflight (l : list lwpc) : list Z :=
  match l with
  | [] => []
  | pc :: l' => lw_holds pc ++ inflight l'
  end.

Definition nil_results (l : list (option error)) : Z :=
  Z.of_nat (length (List.filter (fun r => match r with None => true | Some _ => false end) l)).

(** How many jobs have been sent. *)
Definition sent (itemCount : Z) (m : lmpc) : Z :=
  match m with
  | LM_make | LM_spawn _ => 0
  | LM_send i => i
  | _ => itemCount
  end.

Definition loader_counts (itemCount : Z) (s : Loader) : Prop :=
  (* the wait group and the goroutines *)
  lwg s = sum_over lw_live (lworkers s) /\
  match lmain s with
  | LM_make => lworkers s = []
  | LM_spawn w => 0 <= w <= concurrency /\ Z.of_nat (length (lworkers s)) = w
  | _ => Z.of_nat (length (lworkers s)) = concurrency
  end /\
  match lmain s with
  | LM_collect | LM_return _ => lwg s = 0
  | _ => True
  end /\
  (* the channels *)
  match lmain s with
  | LM_make => True
  | _ => 0 <= sent itemCount (lmain s) <= itemCount
  end /\
  match lmain s with
  | LM_return _ => True
  | _ => Z.of_nat (length (jobs s)) + sum_over lw_busy (lworkers s)
         + Z.of_nat (length (results s)) = sent itemCount (lmain s)
  end /\
  match lmain s with
  | LM_wait | LM_collect | LM_return _ => jobs_closed s = true
  | _ => jobs_closed s = false /\ sum_over lw_live (lworkers s)
                                  = Z.of_nat (length (lworkers s))
  end /\
  (sum_over lw_live (lworkers s) < Z.of_nat (length (lworkers s)) -> jobs s = []).

(** The document the loader makes of index [j]. *)
Definition doc_of (partitionCount : Z) (j : Z) (c : string * RandomDocsItem) : Prop :=
  ID (snd c) = "item" ++ fmt_d j /\
  PartitionKey (snd c) = "partition" ++ fmt_d (Z.rem j partitionCount) /\
  fst c = PartitionKey (snd c).

Definition loader_tracks (itemCount partitionCount : Z) (s : Loader) : Prop :=
  exists js : list Z,
    Forall2 (doc_of partitionCount) js (created s) /\
    NoDup (jobs s ++ inflight (lworkers s) ++ js) /\
    Forall (fun j => 0 <= j < sent itemCount (lmain s))
           (jobs s ++ inflight (lworkers s) ++ js) /\
    match lmain s with
    | LM_return r => r = None -> itemCount <= Z.of_nat (length js)
    | _ => nil_results (results s) + sum_over lw_sending_nil (lworkers s)
           <= Z.of_nat (length js)
    end.


(** A run of the loader for two items in ten partitions: goroutine 0
    inserts item 0, goroutine 1 item 1. *)
Definition loader_prefix : list llabel :=
  (repeat LL_main 34               (* make, 32 spawns, leave the loop *)
   ++ [LL_main; LL_main;           (* jobs <- 0, jobs <- 1 *)
       LL_main; LL_main]           (* leave the loop, close(jobs) *)
   ++ [LL_worker 0 None None;      (* receives job 0 *)
       LL_worker 0 None None])%list.   (* creates item 0 *)

Definition loader_schedule : list llabel :=
  (loader_prefix
   ++ [LL_worker 0 None None;      (* results <- nil *)
       LL_worker 1 None None;      (* receives job 1 *)
       LL_worker 1 None None;      (* creates item 1 *)
       LL_worker 1 None None]      (* results <- nil *)
   ++ map (fun i => LL_worker i None None) (seq 0 32)
                                   (* every goroutine finds [jobs] closed *)
   ++ [LL_main; LL_main])%list.    (* wg.Wait(), collect *)



(** *** States from which a run goes on *)

(** Nothing has panicked and the invariant of the harness holds. *)
Definition sound (nworkers : Z) (s : Bench) : Prop :=
  panicked s = false /\ harness_inv nworkers s.



(** *** Measures on runs of the loader *)

(** Nothing has panicked and the counts of the loader hold. *)
Definition lsound (itemCount : Z) (s : Loader) : Prop :=
  lpanicked s = false /\ loader_counts itemCount s.

(** The moves a goroutine at [pc] makes before it is next at the head of
    its range loop and finds no job. *)
Definition lw_moves (pc : lwpc) : nat :=
  match pc with
  | LW_exited => 0
  | LW_range => 1
  | LW_send _ => 2
  | LW_got _ => 3
  end.

(** The moves [insertSampleDocuments] still has to make. *)
Definition lmain_rank (itemCount : Z) (m : lmpc) : nat :=
  match m with
  | LM_make => Z.to_nat concurrency + Z.to_nat itemCount + 6
  | LM_spawn w => Z.to_nat (concurrency - w) + Z.to_nat itemCount + 5
  | LM_send i => Z.to_nat (itemCount - i) + 4
  | LM_close => 3
  | LM_wait => 2
  | LM_collect => 1
  | LM_return _ => 0
  end.


(* ===================================================================== *)
(** * Properties *)
(* ===================================================================== *)

(** ** Traces *)

Lemma events_since_emit (w : World) (e : event) :
  events_since w (emit e w) = [e].
Proof. unfold events_since, emit. simpl. apply drop_app_length. Qed.

(** Normalise the trace of a world built by [emit], [C_CString] and
    [C_free] on top of [w], and read off what was added. *)
Ltac events_since_tac :=
  unfold events_since, C_free, emit, C_CString;
  cbn [trace brk fst snd];
  rewrite <- ?app_assoc; cbn [app];
  rewrite ?drop_app_length.

(** ** Error translation *)

Lemma to_int32_id (z : Z) : - 2 ^ 31 <= z < 2 ^ 31 -> to_int32 z = z.
Proof.
  intros H. unfold to_int32.
  rewrite Z.mod_small by lia. lia.
Qed.

Lemma to_int64_id (z : Z) : int64_range z -> to_int64 z = z.
Proof.
  unfold int64_range, to_int64. intros H.
  rewrite Z.mod_small by lia. lia.
Qed.

Lemma to_int32_zero (z : Z) : - 2 ^ 31 <= z < 2 ^ 32 -> to_int32 z = 0 -> z = 0.
Proof.
  unfold to_int32. intros H E.
  destruct (Z_lt_ge_dec z (2 ^ 31)) as [L | G].
  - rewrite Z.mod_small in E by lia. lia.
  - replace (z + 2 ^ 31) with ((z - 2 ^ 31) + 1 * 2 ^ 32) in E by lia.
    rewrite Z.mod_add, Z.mod_small in E by lia. lia.
Qed.

(** C4: the error translator returns no error for code 0 whatever the
    message; for a non-zero code it returns a [CosmosError] with exactly
    that code and the text of the message, the empty string when the
    message pointer is null; an error with code 0 is never built. *)
Theorem newCosmosError_translates (c : Z) (msg : char_ptr)
    (Hc : - 2 ^ 31 <= c < 2 ^ 31) :
  let r := newCosmosError {| code := c; message := msg |} in
  (c = 0 -> r = None) /\
  (c <> 0 ->
   r = Some (CosmosError c (match msg with Some b => bytes b | None => "" end))) /\
  (forall m, r <> Some (CosmosError 0 m)).
Proof.
  unfold newCosmosError, COSMOS_ERROR_CODE_SUCCESS, C_GoString; simpl.
  rewrite (to_int32_id c Hc).
  destruct (Z.eqb_spec c 0) as [-> | Hne]; (split; [| split]).
  - reflexivity.
  - congruence.
  - discriminate.
  - congruence.
  - intros _. destruct msg; reflexivity.
  - intros m E. injection E. congruence.
Qed.

Lemma newCosmosError_translates_witness :
  newCosmosError {| code := 404; message := Some {| addr := 4096; bytes := "NotFound" |} |}
  = Some (CosmosError 404 "NotFound").
Proof.
  apply (proj1 (proj2 (newCosmosError_translates 404
           (Some {| addr := 4096; bytes := "NotFound" |}) ltac:(lia)))).
  discriminate.
Defined.

(** Whatever the width of the C field, a success code yields no error and
    the translator never produces a string error. *)
Lemma newCosmosError_success (msg : char_ptr) :
  newCosmosError {| code := COSMOS_ERROR_CODE_SUCCESS; message := msg |} = None.
Proof. reflexivity. Qed.

Lemma newCosmosError_nonzero_32bit (cerr : cosmos_error) (c : Z) (m : string) :
  - 2 ^ 31 <= code cerr < 2 ^ 32 ->
  newCosmosError cerr = Some (CosmosError c m) -> c <> 0.
Proof.
  unfold newCosmosError, COSMOS_ERROR_CODE_SUCCESS. intros Hr.
  destruct (Z.eqb_spec (code cerr) 0) as [E | Hne]; [discriminate |].
  intros H. injection H as Hc _. subst c.
  intros Z0. apply Hne. now apply to_int32_zero.
Qed.

(** ** Handle wrappers *)

(** C2: on a wrapper whose pointer is nil, each domain operation returns
    the closed-handle error at once and leaves the world as it was: no
    call crosses the boundary. *)
Theorem closed_wrapper_operations (F : Foreign) (w : World)
    (c : CosmosClient) (d : DatabaseClient) (k : ContainerClient)
    (databaseID containerID itemID partitionKey : string)
    (Hc : client c = NULL) (Hd : database d = NULL) (Hk : container k = NULL) :
  CosmosClient_DatabaseClient F c databaseID w
    = (None, Some (Errorf "client is closed"), w) /\
  DatabaseClient_ContainerClient F d containerID w
    = (None, Some (Errorf "database client is closed"), w) /\
  ReadItem F k itemID partitionKey w
    = ("", Some (Errorf "container client is closed"), w) /\
  ClosedHandleError (Errorf "client is closed") /\
  ClosedHandleError (Errorf "database client is closed") /\
  ClosedHandleError (Errorf "container client is closed").
Proof.
  unfold CosmosClient_DatabaseClient, DatabaseClient_ContainerClient, ReadItem,
    ClosedHandleError.
  rewrite Hc, Hd, Hk. simpl.
  repeat split; auto.
Qed.

Lemma closed_wrapper_operations_witness :
  let F := constant_double 0 4242 (Some {| addr := 77; bytes := "{}" |}) no_error in
  CosmosClient_DatabaseClient F {| client := 0; client_finalizer := false |}
      "sdk-bench-db" empty_world
    = (None, Some (Errorf "client is closed"), empty_world) /\
  ReadItem F {| container := 0; container_finalizer := false |}
      "item1" "partition1" empty_world
    = ("", Some (Errorf "container client is closed"), empty_world).
Proof.
  intros F.
  pose proof (closed_wrapper_operations F empty_world
    {| client := 0; client_finalizer := false |}
    {| database := 0; database_finalizer := false |}
    {| container := 0; container_finalizer := false |}
    "sdk-bench-db" "RandomDocs" "item1" "partition1"
    eq_refl eq_refl eq_refl) as (H1 & _ & H3 & _).
  split; [exact H1 | exact H3].
Defined.

(** C3: on an open container, when the native read returns the success
    code and leaves the payload pointer null, [ReadItem] returns the empty
    string together with the null-response error; the two input copies are
    still freed and no string is released to the library. *)
Theorem ReadItem_null_payload (F : Foreign) (k : ContainerClient)
    (itemID partitionKey : string) (w : World) (cerr : cosmos_error)
    (Hopen : container k <> NULL)
    (Hcall : cosmos_container_read_item F
               (trace w ++ [E_CString (Z.pos (brk w)) itemID;
                            E_CString (Z.pos (Pos.succ (brk w))) partitionKey])
               (container k) partitionKey itemID
             = (COSMOS_ERROR_CODE_SUCCESS, None, cerr)) :
  exists w',
    ReadItem F k itemID partitionKey w = ("", Some NullResponseError, w') /\
    events_since w w' =
      [E_CString (Z.pos (brk w)) itemID;
       E_CString (Z.pos (Pos.succ (brk w))) partitionKey;
       E_cosmos_container_read_item (container k)
         (Z.pos (Pos.succ (brk w))) (Z.pos (brk w));
       E_free (Z.pos (Pos.succ (brk w)));
       E_free (Z.pos (brk w))].
Proof.
  unfold ReadItem. apply Z.eqb_neq in Hopen. rewrite Hopen.
  cbn [C_CString emit C_free trace brk].
  rewrite <- (app_assoc (trace w)). cbn [app].
  rewrite Hcall. cbn.
  eexists. split; [reflexivity |].
  now events_since_tac.
Qed.

Lemma ReadItem_null_payload_witness :
  exists w',
    ReadItem (constant_double 0 0 None no_error)
      {| container := 4242; container_finalizer := true |}
      "item7" "partition7" empty_world
    = ("", Some NullResponseError, w') /\
    events_since empty_world w' =
      [E_CString 1 "item7"; E_CString 2 "partition7";
       E_cosmos_container_read_item 4242 2 1; E_free 2; E_free 1].
Proof.
  apply (ReadItem_null_payload (constant_double 0 0 None no_error)
           {| container := 4242; container_finalizer := true |}
           "item7" "partition7" empty_world no_error).
  - discriminate.
  - reflexivity.
Defined.

(** *** Close, finalize and the collector *)

Lemma Client_Close_eq (c : CosmosClient) (w : World) :
  Client.Close c w =
    ({| client := NULL; client_finalizer := false |},
     if client c =? NULL then w else emit (E_cosmos_client_free (client c)) w).
Proof.
  unfold Client.Close, Client.finalize; simpl.
  destruct (Z.eqb_spec (client c) NULL) as [E | E]; simpl; [rewrite E |]; reflexivity.
Qed.

Lemma Database_Close_eq (d : DatabaseClient) (w : World) :
  Database.Close d w =
    ({| database := NULL; database_finalizer := false |},
     if database d =? NULL then w else emit (E_cosmos_database_free (database d)) w).
Proof.
  unfold Database.Close, Database.finalize; simpl.
  destruct (Z.eqb_spec (database d) NULL) as [E | E]; simpl; [rewrite E |]; reflexivity.
Qed.

Lemma Container_Close_eq (c : ContainerClient) (w : World) :
  Container.Close c w =
    ({| container := NULL; container_finalizer := false |},
     if container c =? NULL then w else emit (E_cosmos_container_free (container c)) w).
Proof.
  unfold Container.Close, Container.finalize; simpl.
  destruct (Z.eqb_spec (container c) NULL) as [E | E]; simpl; [rewrite E |]; reflexivity.
Qed.

(** Once the pointer is nil, nothing that can happen to the wrapper
    reaches the world or brings the pointer back. *)
Lemma client_ops_nil (ops : list lifecycle) (c : CosmosClient) (w : World) :
  client c = NULL ->
  snd (run_ops client_op ops (c, w)) = w /\
  client (fst (run_ops client_op ops (c, w))) = NULL.
Proof.
  revert c. unfold run_ops.
  induction ops as [| o ops IH]; intros [p b] Hc; simpl in *; [auto |].
  subst p.
  destruct o; [| | destruct b]; apply IH; reflexivity.
Qed.

Lemma database_ops_nil (ops : list lifecycle) (d : DatabaseClient) (w : World) :
  database d = NULL ->
  snd (run_ops database_op ops (d, w)) = w /\
  database (fst (run_ops database_op ops (d, w))) = NULL.
Proof.
  revert d. unfold run_ops.
  induction ops as [| o ops IH]; intros [p b] Hd; simpl in *; [auto |].
  subst p.
  destruct o; [| | destruct b]; apply IH; reflexivity.
Qed.

Lemma container_ops_nil (ops : list lifecycle) (c : ContainerClient) (w : World) :
  container c = NULL ->
  snd (run_ops container_op ops (c, w)) = w /\
  container (fst (run_ops container_op ops (c, w))) = NULL.
Proof.
  revert c. unfold run_ops.
  induction ops as [| o ops IH]; intros [p b] Hc; simpl in *; [auto |].
  subst p.
  destruct o; [| | destruct b]; apply IH; reflexivity.
Qed.

(** One event either leaves the world alone or is the one destructor call
    that sets the pointer to nil. *)
Lemma client_op_cases (o : lifecycle) (c : CosmosClient) (w : World) :
  snd (client_op o (c, w)) = w \/
  (client (fst (client_op o (c, w))) = NULL /\
   snd (client_op o (c, w)) = emit (E_cosmos_client_free (client c)) w).
Proof.
  destruct c as [p b].
  destruct o; simpl;
    unfold Client.Close, Client.collect, Client.finalize; simpl;
    try destruct b; simpl; destruct (p =? NULL); simpl; auto.
Qed.

Lemma database_op_cases (o : lifecycle) (d : DatabaseClient) (w : World) :
  snd (database_op o (d, w)) = w \/
  (database (fst (database_op o (d, w))) = NULL /\
   snd (database_op o (d, w)) = emit (E_cosmos_database_free (database d)) w).
Proof.
  destruct d as [p b].
  destruct o; simpl;
    unfold Database.Close, Database.collect, Database.finalize; simpl;
    try destruct b; simpl; destruct (p =? NULL); simpl; auto.
Qed.

Lemma container_op_cases (o : lifecycle) (c : ContainerClient) (w : World) :
  snd (container_op o (c, w)) = w \/
  (container (fst (container_op o (c, w))) = NULL /\
   snd (container_op o (c, w)) = emit (E_cosmos_container_free (container c)) w).
Proof.
  destruct c as [p b].
  destruct o; simpl;
    unfold Container.Close, Container.collect, Container.finalize; simpl;
    try destruct b; simpl; destruct (p =? NULL); simpl; auto.
Qed.

(** The step shared by the three "at most one destructor call" proofs:
    [Hcases] is the case lemma of the wrapper, [Hnil] its nil lemma. *)
Ltac at_most_one_destructor Hcases Hnil :=
  let ops := fresh "ops" in
  let o := fresh "o" in
  let IH := fresh "IH" in
  let c := fresh "c" in
  let w := fresh "w" in
  let c' := fresh "c'" in
  let w' := fresh "w'" in
  let Hsame := fresh "Hsame" in
  let Hn := fresh "Hn" in
  let Hemit := fresh "Hemit" in
  intros ops; induction ops as [| o ops IH]; intros c w;
  [ exists []; split; [simpl; now rewrite app_nil_r | unfold count_if; simpl; lia]
  | unfold run_ops in *; cbn [fold_left];
    destruct (Hcases o c w) as [Hsame | [Hn Hemit]];
    match goal with
    | |- context [fold_left _ _ ?x] => destruct x as [c' w']
    end;
    simpl in *; subst w';
    [ apply IH
    | eexists [_]; split;
      [ let H := fresh "H" in
        match goal with
        | |- context [fold_left _ _ (c', ?x)] =>
            pose proof (proj1 (Hnil ops c' x Hn)) as H
        end;
        unfold run_ops in H; rewrite H; reflexivity
      | unfold count_if; simpl; lia ] ] ].

Lemma client_destructor_once (ops : list lifecycle) :
  forall (c : CosmosClient) (w : World),
  exists added,
    trace (snd (run_ops client_op ops (c, w))) = (trace w ++ added)%list /\
    (count_if is_destructor added <= 1)%nat.
Proof. revert ops. at_most_one_destructor client_op_cases client_ops_nil. Qed.

Lemma database_destructor_once (ops : list lifecycle) :
  forall (d : DatabaseClient) (w : World),
  exists added,
    trace (snd (run_ops database_op ops (d, w))) = (trace w ++ added)%list /\
    (count_if is_destructor added <= 1)%nat.
Proof. revert ops. at_most_one_destructor database_op_cases database_ops_nil. Qed.

Lemma container_destructor_once (ops : list lifecycle) :
  forall (c : ContainerClient) (w : World),
  exists added,
    trace (snd (run_ops container_op ops (c, w))) = (trace w ++ added)%list /\
    (count_if is_destructor added <= 1)%nat.
Proof. revert ops. at_most_one_destructor container_op_cases container_ops_nil. Qed.

(** After [Close] the wrapper is inert: pointer nil, no finalizer. *)
Lemma client_ops_closed (ops : list lifecycle) (w : World) :
  run_ops client_op ops ({| client := NULL; client_finalizer := false |}, w)
  = ({| client := NULL; client_finalizer := false |}, w).
Proof.
  unfold run_ops. induction ops as [| [] ops IH]; simpl; auto.
Qed.

Lemma database_ops_closed (ops : list lifecycle) (w : World) :
  run_ops database_op ops ({| database := NULL; database_finalizer := false |}, w)
  = ({| database := NULL; database_finalizer := false |}, w).
Proof.
  unfold run_ops. induction ops as [| [] ops IH]; simpl; auto.
Qed.

Lemma container_ops_closed (ops : list lifecycle) (w : World) :
  run_ops container_op ops ({| container := NULL; container_finalizer := false |}, w)
  = ({| container := NULL; container_finalizer := false |}, w).
Proof.
  unfold run_ops. induction ops as [| [] ops IH]; simpl; auto.
Qed.

Lemma events_since_app (w w' : World) (added : list event) :
  trace w' = (trace w ++ added)%list -> events_since w w' = added.
Proof. unfold events_since. intros ->. apply drop_app_length. Qed.

(** C1: for each of the three wrappers, [Close] called any number of
    times (at least once) leaves the wrapper and the world exactly as one
    [Close] does; so does [Close] followed by any further [Close],
    [finalize] or collection; and over any sequence of such events the
    destructor is called at most once. *)
Theorem Close_idempotent :
  (forall (c : CosmosClient) (w : World),
     (forall n, run_ops client_op (repeat Op_Close (S n)) (c, w) = Client.Close c w) /\
     (forall ops, run_ops client_op (Op_Close :: ops) (c, w) = Client.Close c w) /\
     (forall ops,
        (count_if is_destructor
           (events_since w (snd (run_ops client_op ops (c, w)))) <= 1)%nat)) /\
  (forall (d : DatabaseClient) (w : World),
     (forall n, run_ops database_op (repeat Op_Close (S n)) (d, w) = Database.Close d w) /\
     (forall ops, run_ops database_op (Op_Close :: ops) (d, w) = Database.Close d w) /\
     (forall ops,
        (count_if is_destructor
           (events_since w (snd (run_ops database_op ops (d, w)))) <= 1)%nat)) /\
  (forall (c : ContainerClient) (w : World),
     (forall n, run_ops container_op (repeat Op_Close (S n)) (c, w) = Container.Close c w) /\
     (forall ops, run_ops container_op (Op_Close :: ops) (c, w) = Container.Close c w) /\
     (forall ops,
        (count_if is_destructor
           (events_since w (snd (run_ops container_op ops (c, w)))) <= 1)%nat)).
Proof.
  assert (Hc : forall c w ops,
             run_ops client_op (Op_Close :: ops) (c, w) = Client.Close c w).
  { intros c w ops. change (run_ops client_op (Op_Close :: ops) (c, w))
      with (run_ops client_op ops (Client.Close c w)).
    rewrite Client_Close_eq. apply client_ops_closed. }
  assert (Hd : forall d w ops,
             run_ops database_op (Op_Close :: ops) (d, w) = Database.Close d w).
  { intros d w ops. change (run_ops database_op (Op_Close :: ops) (d, w))
      with (run_ops database_op ops (Database.Close d w)).
    rewrite Database_Close_eq. apply database_ops_closed. }
  assert (Hk : forall c w ops,
             run_ops container_op (Op_Close :: ops) (c, w) = Container.Close c w).
  { intros c w ops. change (run_ops container_op (Op_Close :: ops) (c, w))
      with (run_ops container_op ops (Container.Close c w)).
    rewrite Container_Close_eq. apply container_ops_closed. }
  split; [| split]; intros x w; (split; [| split]).
  - intros n. apply (Hc x w (repeat Op_Close n)).
  - apply Hc.
  - intros ops. destruct (client_destructor_once ops x w) as (added & Ht & Hn).
    now rewrite (events_since_app _ _ _ Ht).
  - intros n. apply (Hd x w (repeat Op_Close n)).
  - apply Hd.
  - intros ops. destruct (database_destructor_once ops x w) as (added & Ht & Hn).
    now rewrite (events_since_app _ _ _ Ht).
  - intros n. apply (Hk x w (repeat Op_Close n)).
  - apply Hk.
  - intros ops. destruct (container_destructor_once ops x w) as (added & Ht & Hn).
    now rewrite (events_since_app _ _ _ Ht).
Qed.

(** An open wrapper's first [Close] does call the destructor, once. *)
Lemma Close_open_calls_destructor (c : CosmosClient) (w : World) :
  client c <> NULL ->
  events_since w (snd (Client.Close c w)) = [E_cosmos_client_free (client c)].
Proof.
  intros H. rewrite Client_Close_eq. apply Z.eqb_neq in H. rewrite H. simpl.
  apply events_since_emit.
Qed.

(** *** Constructors that get a null handle with the success code *)

Lemma NewCosmosClientWithKey_null_handle (F : Foreign) (endpoint key : string)
    (w : World) (cerr : cosmos_error) :
  cosmos_client_create_with_key F
    (trace w ++ [E_CString (Z.pos (brk w)) endpoint;
                 E_CString (Z.pos (Pos.succ (brk w))) key])
    endpoint key = (COSMOS_ERROR_CODE_SUCCESS, NULL, cerr) ->
  exists w',
    NewCosmosClientWithKey F endpoint key w
    = (Some {| client := NULL; client_finalizer := true |}, None, w').
Proof.
  intros Hcall. unfold NewCosmosClientWithKey.
  cbn [C_CString emit C_free trace brk].
  rewrite <- (app_assoc (trace w)). cbn [app].
  rewrite Hcall. cbn. eexists. reflexivity.
Qed.

Lemma DatabaseClient_null_handle (F : Foreign) (c : CosmosClient)
    (databaseID : string) (w : World) (cerr : cosmos_error) :
  client c <> NULL ->
  cosmos_client_database_client F
    (trace w ++ [E_CString (Z.pos (brk w)) databaseID])
    (client c) databaseID = (COSMOS_ERROR_CODE_SUCCESS, NULL, cerr) ->
  exists w',
    CosmosClient_DatabaseClient F c databaseID w
    = (Some {| database := NULL; database_finalizer := true |}, None, w').
Proof.
  intros Hopen Hcall. unfold CosmosClient_DatabaseClient.
  apply Z.eqb_neq in Hopen. rewrite Hopen.
  cbn [C_CString emit C_free trace brk].
  rewrite Hcall. cbn. eexists. reflexivity.
Qed.

Lemma ContainerClient_null_handle (F : Foreign) (d : DatabaseClient)
    (containerID : string) (w : World) (cerr : cosmos_error) :
  database d <> NULL ->
  cosmos_database_container_client F
    (trace w ++ [E_CString (Z.pos (brk w)) containerID])
    (database d) containerID = (COSMOS_ERROR_CODE_SUCCESS, NULL, cerr) ->
  exists w',
    DatabaseClient_ContainerClient F d containerID w
    = (Some {| container := NULL; container_finalizer := true |}, None, w').
Proof.
  intros Hopen Hcall. unfold DatabaseClient_ContainerClient.
  apply Z.eqb_neq in Hopen. rewrite Hopen.
  cbn [C_CString emit C_free trace brk].
  rewrite Hcall. cbn. eexists. reflexivity.
Qed.

(** C10: when a constructor's native call returns the success code and
    leaves the handle null, the constructor returns a wrapper and no
    error; on that wrapper every domain operation returns the
    closed-handle error without touching the world, and no [Close],
    [finalize] or collection makes any call: the destructor is never
    invoked. *)
Theorem null_handle_wrapper_is_closed (F : Foreign) (w : World) (cerr : cosmos_error) :
  (forall endpoint key,
     cosmos_client_create_with_key F
       (trace w ++ [E_CString (Z.pos (brk w)) endpoint;
                    E_CString (Z.pos (Pos.succ (brk w))) key])
       endpoint key = (COSMOS_ERROR_CODE_SUCCESS, NULL, cerr) ->
     exists c w',
       NewCosmosClientWithKey F endpoint key w = (Some c, None, w') /\
       (forall id w2,
          CosmosClient_DatabaseClient F c id w2
          = (None, Some (Errorf "client is closed"), w2)) /\
       (forall ops w2, snd (run_ops client_op ops (c, w2)) = w2)) /\
  (forall (c : CosmosClient) databaseID,
     client c <> NULL ->
     cosmos_client_database_client F
       (trace w ++ [E_CString (Z.pos (brk w)) databaseID])
       (client c) databaseID = (COSMOS_ERROR_CODE_SUCCESS, NULL, cerr) ->
     exists d w',
       CosmosClient_DatabaseClient F c databaseID w = (Some d, None, w') /\
       (forall id w2,
          DatabaseClient_ContainerClient F d id w2
          = (None, Some (Errorf "database client is closed"), w2)) /\
       (forall ops w2, snd (run_ops database_op ops (d, w2)) = w2)) /\
  (forall (d : DatabaseClient) containerID,
     database d <> NULL ->
     cosmos_database_container_client F
       (trace w ++ [E_CString (Z.pos (brk w)) containerID])
       (database d) containerID = (COSMOS_ERROR_CODE_SUCCESS, NULL, cerr) ->
     exists k w',
       DatabaseClient_ContainerClient F d containerID w = (Some k, None, w') /\
       (forall itemID partitionKey w2,
          ReadItem F k itemID partitionKey w2
          = ("", Some (Errorf "container client is closed"), w2)) /\
       (forall ops w2, snd (run_ops container_op ops (k, w2)) = w2)).
Proof.
  split; [| split].
  - intros endpoint key Hcall.
    destruct (NewCosmosClientWithKey_null_handle F endpoint key w cerr Hcall) as [w' E].
    eexists _, w'. split; [exact E |]. split.
    + reflexivity.
    + intros ops w2. now apply client_ops_nil.
  - intros c databaseID Hopen Hcall.
    destruct (DatabaseClient_null_handle F c databaseID w cerr Hopen Hcall) as [w' E].
    eexists _, w'. split; [exact E |]. split.
    + reflexivity.
    + intros ops w2. now apply database_ops_nil.
  - intros d containerID Hopen Hcall.
    destruct (ContainerClient_null_handle F d containerID w cerr Hopen Hcall) as [w' E].
    eexists _, w'. split; [exact E |]. split.
    + reflexivity.
    + intros ops w2. now apply container_ops_nil.
Qed.

Lemma null_handle_wrapper_is_closed_witness :
  let F := constant_double 0 0 None no_error in
  (exists c w',
     NewCosmosClientWithKey F "https://localhost:8080" "key" empty_world
     = (Some c, None, w') /\
     (forall id w2,
        CosmosClient_DatabaseClient F c id w2
        = (None, Some (Errorf "client is closed"), w2)) /\
     (forall ops w2, snd (run_ops client_op ops (c, w2)) = w2)) /\
  (exists d w',
     CosmosClient_DatabaseClient F {| client := 11; client_finalizer := true |}
       "sdk-bench-db" empty_world
     = (Some d, None, w') /\
     (forall id w2,
        DatabaseClient_ContainerClient F d id w2
        = (None, Some (Errorf "database client is closed"), w2)) /\
     (forall ops w2, snd (run_ops database_op ops (d, w2)) = w2)) /\
  (exists k w',
     DatabaseClient_ContainerClient F {| database := 12; database_finalizer := true |}
       "RandomDocs" empty_world
     = (Some k, None, w') /\
     (forall itemID partitionKey w2,
        ReadItem F k itemID partitionKey w2
        = ("", Some (Errorf "container client is closed"), w2)) /\
     (forall ops w2, snd (run_ops container_op ops (k, w2)) = w2)).
Proof.
  intros F.
  destruct (null_handle_wrapper_is_closed F empty_world no_error) as (H1 & H2 & H3).
  split; [| split].
  - apply H1. reflexivity.
  - apply (H2 {| client := 11; client_finalizer := true |}
              "sdk-bench-db"); [discriminate | reflexivity].
  - apply (H3 {| database := 12; database_finalizer := true |}
              "RandomDocs"); [discriminate | reflexivity].
Defined.

(** ** String marshaling *)

Lemma occurrences_app (e : event) (l k : list event) :
  occurrences e (l ++ k) = (occurrences e l + occurrences e k)%nat.
Proof. unfold occurrences. rewrite List.filter_app, length_app. reflexivity. Qed.

Lemma occurrences_free_cosmos (p : ptr) (mid : list event) :
  (forall e, In e mid -> is_cosmos_call e = true) ->
  occurrences (E_free p) mid = 0%nat.
Proof.
  unfold occurrences.
  induction mid as [| e mid IH]; intros H; simpl; [reflexivity |].
  assert (He : is_cosmos_call e = true) by (apply H; now left).
  destruct e; simpl in He; try discriminate; simpl; apply IH;
    intros; apply H; now right.
Qed.

Lemma In_cosmos_not_libc (mid : list event) (e : event) :
  (forall x, In x mid -> is_cosmos_call x = true) ->
  In e mid -> is_cosmos_call e = false -> False.
Proof. intros H Hin E. rewrite (H e Hin) in E. discriminate. Qed.

Lemma copies_released_once_1 (p : ptr) (s : string) (mid : list event) :
  (forall e, In e mid -> is_cosmos_call e = true) ->
  copies_released_once ([E_CString p s] ++ mid ++ [E_free p]).
Proof.
  intros Hmid. split.
  - intros q t Hin.
    assert (q = p) as ->.
    { simpl in Hin. destruct Hin as [E | Hin]; [congruence |].
      apply in_app_or in Hin. destruct Hin as [Hin | [E | []]]; [| discriminate].
      exfalso. exact (In_cosmos_not_libc mid _ Hmid Hin eq_refl). }
    rewrite !occurrences_app, (occurrences_free_cosmos p mid Hmid).
    unfold occurrences. simpl. now rewrite Z.eqb_refl.
  - intros q Hin. exists s.
    simpl in Hin. destruct Hin as [E | Hin]; [discriminate |].
    apply in_app_or in Hin. destruct Hin as [Hin | [E | []]].
    + exfalso. exact (In_cosmos_not_libc mid _ Hmid Hin eq_refl).
    + injection E as <-. now left.
Qed.

Lemma copies_released_once_2 (p1 p2 : ptr) (s1 s2 : string) (mid : list event) :
  p1 <> p2 ->
  (forall e, In e mid -> is_cosmos_call e = true) ->
  copies_released_once
    ([E_CString p1 s1; E_CString p2 s2] ++ mid ++ [E_free p2; E_free p1]).
Proof.
  intros Hne Hmid.
  assert (E12 : (p1 =? p2) = false) by now apply Z.eqb_neq.
  assert (E21 : (p2 =? p1) = false) by (apply Z.eqb_neq; congruence).
  split.
  - intros q t Hin.
    assert (q = p1 \/ q = p2) as Hq.
    { simpl in Hin. destruct Hin as [E | [E | Hin]]; [left | right |]; try congruence.
      apply in_app_or in Hin. destruct Hin as [Hin | [E | [E | []]]]; try discriminate.
      exfalso. exact (In_cosmos_not_libc mid _ Hmid Hin eq_refl). }
    rewrite !occurrences_app, (occurrences_free_cosmos q mid Hmid).
    unfold occurrences. simpl.
    destruct Hq as [-> | ->]; rewrite Z.eqb_refl, ?E12, ?E21; reflexivity.
  - intros q Hin.
    simpl in Hin. destruct Hin as [E | [E | Hin]]; try discriminate.
    apply in_app_or in Hin. destruct Hin as [Hin | [E | [E | []]]].
    + exfalso. exact (In_cosmos_not_libc mid _ Hmid Hin eq_refl).
    + injection E as <-. exists s2. right. now left.
    + injection E as <-. exists s1. now left.
Qed.

Lemma fresh_addresses_differ (b : positive) : Z.pos b <> Z.pos (Pos.succ b).
Proof. lia. Qed.

(** C8: each operation that passes text to the library copies every input
    string with [C.CString] before the call and frees each copy exactly
    once after it, whatever the call returns; a successful read copies the
    payload into the result and then hands the buffer to
    [cosmos_string_free]; [C.free] is applied to the input copies only. *)
Theorem input_copies_released_once (F : Foreign) (w : World) :
  let p1 := Z.pos (brk w) in
  let p2 := Z.pos (Pos.succ (brk w)) in
  (forall endpoint key,
     let evs := events_since w (snd (NewCosmosClientWithKey F endpoint key w)) in
     evs = [E_CString p1 endpoint; E_CString p2 key;
            E_cosmos_client_create_with_key p1 p2;
            E_free p2; E_free p1] /\
     copies_released_once evs) /\
  (forall (c : CosmosClient) databaseID,
     client c <> NULL ->
     let evs := events_since w (snd (CosmosClient_DatabaseClient F c databaseID w)) in
     evs = [E_CString p1 databaseID;
            E_cosmos_client_database_client (client c) p1;
            E_free p1] /\
     copies_released_once evs) /\
  (forall (d : DatabaseClient) containerID,
     database d <> NULL ->
     let evs := events_since w (snd (DatabaseClient_ContainerClient F d containerID w)) in
     evs = [E_CString p1 containerID;
            E_cosmos_database_container_client (database d) p1;
            E_free p1] /\
     copies_released_once evs) /\
  (forall (k : ContainerClient) itemID partitionKey rc outJson cerr,
     container k <> NULL ->
     cosmos_container_read_item F
       (trace w ++ [E_CString p1 itemID; E_CString p2 partitionKey])
       (container k) partitionKey itemID = (rc, outJson, cerr) ->
     let r := ReadItem F k itemID partitionKey w in
     let evs := events_since w (snd r) in
     evs = ([E_CString p1 itemID; E_CString p2 partitionKey;
             E_cosmos_container_read_item (container k) p2 p1]
            ++ (if rc =? COSMOS_ERROR_CODE_SUCCESS
                then match outJson with
                     | Some b => [E_cosmos_string_free (addr b)]
                     | None => []
                     end
                else [])
            ++ [E_free p2; E_free p1])%list /\
     copies_released_once evs /\
     (forall b, rc = COSMOS_ERROR_CODE_SUCCESS -> outJson = Some b ->
        fst r = (bytes b, None) /\
        occurrences (E_cosmos_string_free (addr b)) evs = 1%nat)).
Proof.
  intros p1 p2.
  assert (Hne : p1 <> p2) by apply fresh_addresses_differ.
  split; [| split; [| split]].
  - intros endpoint key evs.
    assert (E : evs = [E_CString p1 endpoint; E_CString p2 key;
                       E_cosmos_client_create_with_key p1 p2;
                       E_free p2; E_free p1]).
    { subst evs. unfold NewCosmosClientWithKey. cbn [C_CString].
      destruct (cosmos_client_create_with_key F _ endpoint key) as [[rc h] cerr].
      cbn [snd]. now events_since_tac. }
    split; [exact E |]. rewrite E.
    apply (copies_released_once_2 p1 p2 endpoint key [_] Hne).
    intros e [<- | []]. reflexivity.
  - intros c databaseID Hopen evs.
    assert (E : evs = [E_CString p1 databaseID;
                       E_cosmos_client_database_client (client c) p1;
                       E_free p1]).
    { subst evs. unfold CosmosClient_DatabaseClient.
      apply Z.eqb_neq in Hopen. rewrite Hopen. cbn [C_CString].
      destruct (cosmos_client_database_client F _ (client c) databaseID) as [[rc h] cerr].
      cbn [snd]. now events_since_tac. }
    split; [exact E |]. rewrite E.
    apply (copies_released_once_1 p1 databaseID [_]).
    intros e [<- | []]. reflexivity.
  - intros d containerID Hopen evs.
    assert (E : evs = [E_CString p1 containerID;
                       E_cosmos_database_container_client (database d) p1;
                       E_free p1]).
    { subst evs. unfold DatabaseClient_ContainerClient.
      apply Z.eqb_neq in Hopen. rewrite Hopen. cbn [C_CString].
      destruct (cosmos_database_container_client F _ (database d) containerID)
        as [[rc h] cerr].
      cbn [snd]. now events_since_tac. }
    split; [exact E |]. rewrite E.
    apply (copies_released_once_1 p1 containerID [_]).
    intros e [<- | []]. reflexivity.
  - intros k itemID partitionKey rc outJson cerr Hopen Hcall r evs.
    assert (Hr : r = ReadItem F k itemID partitionKey w) by reflexivity.
    unfold ReadItem in Hr.
    apply Z.eqb_neq in Hopen. rewrite Hopen in Hr.
    cbn [C_CString emit trace brk] in Hr.
    rewrite <- (app_assoc (trace w)) in Hr. cbn [app] in Hr.
    fold p1 p2 in Hr. rewrite Hcall in Hr.
    destruct (Z.eqb_spec rc COSMOS_ERROR_CODE_SUCCESS) as [Hrc | Hrc];
      [destruct outJson as [b |] |]; cbn in Hr.
    + assert (E : evs = [E_CString p1 itemID; E_CString p2 partitionKey;
                         E_cosmos_container_read_item (container k) p2 p1;
                         E_cosmos_string_free (addr b);
                         E_free p2; E_free p1]).
      { subst evs. rewrite Hr. cbn [snd]. now events_since_tac. }
      split; [exact E |]. rewrite E. split.
      * apply (copies_released_once_2 p1 p2 itemID partitionKey [_; _] Hne).
        intros e [<- | [<- | []]]; reflexivity.
      * intros b' _ Hb. injection Hb as <-. rewrite Hr. split; [reflexivity |].
        unfold occurrences. simpl. now rewrite Z.eqb_refl.
    + assert (E : evs = [E_CString p1 itemID; E_CString p2 partitionKey;
                         E_cosmos_container_read_item (container k) p2 p1;
                         E_free p2; E_free p1]).
      { subst evs. rewrite Hr. cbn [snd]. now events_since_tac. }
      split; [exact E |]. rewrite E. split.
      * apply (copies_released_once_2 p1 p2 itemID partitionKey [_] Hne).
        intros e [<- | []]; reflexivity.
      * intros b' _ Hb. discriminate.
    + assert (E : evs = [E_CString p1 itemID; E_CString p2 partitionKey;
                         E_cosmos_container_read_item (container k) p2 p1;
                         E_free p2; E_free p1]).
      { subst evs. rewrite Hr. cbn [snd]. now events_since_tac. }
      split; [exact E |]. rewrite E. split.
      * apply (copies_released_once_2 p1 p2 itemID partitionKey [_] Hne).
        intros e [<- | []]; reflexivity.
      * intros b' Hz. contradiction.
Qed.

Lemma input_copies_released_once_witness :
  let F := constant_double 0 4242 (Some {| addr := 9000; bytes := "{}" |}) no_error in
  let k := {| container := 4242; container_finalizer := true |} in
  let r := ReadItem F k "item7" "partition7" empty_world in
  (events_since empty_world (snd r) =
     [E_CString 1 "item7"; E_CString 2 "partition7";
      E_cosmos_container_read_item 4242 2 1;
      E_cosmos_string_free 9000;
      E_free 2; E_free 1] /\
   copies_released_once (events_since empty_world (snd r)) /\
   fst r = ("{}", None)) /\
  (let evs := events_since empty_world
                (snd (CosmosClient_DatabaseClient F
                        {| client := 11; client_finalizer := true |}
                        "sdk-bench-db" empty_world)) in
   evs = [E_CString 1 "sdk-bench-db"; E_cosmos_client_database_client 11 1; E_free 1]
   /\ copies_released_once evs) /\
  (let evs := events_since empty_world
                (snd (DatabaseClient_ContainerClient F
                        {| database := 12; database_finalizer := true |}
                        "RandomDocs" empty_world)) in
   evs = [E_CString 1 "RandomDocs"; E_cosmos_database_container_client 12 1; E_free 1]
   /\ copies_released_once evs).
Proof.
  intros F k r.
  destruct (input_copies_released_once F empty_world) as (_ & H2 & H3 & H4).
  split; [| split].
  - destruct (H4 k "item7" "partition7" 0 (Some {| addr := 9000; bytes := "{}" |})
                no_error ltac:(discriminate) eq_refl) as (E & Hrel & Hres).
    split; [exact E |]. split; [exact Hrel |].
    exact (proj1 (Hres _ eq_refl eq_refl)).
  - apply (H2 {| client := 11; client_finalizer := true |} "sdk-bench-db").
    discriminate.
  - apply (H3 {| database := 12; database_finalizer := true |} "RandomDocs").
    discriminate.
Defined.

(** ** Key scheme *)

Example fmt_d_examples :
  fmt_d 0 = "0" /\ fmt_d 2345 = "2345" /\ fmt_d (-17) = "-17".
Proof. repeat split. Qed.

Lemma go_rem_nonneg (a b : Z) :
  0 <= a -> 0 < b -> go_rem a b = Some (a mod b).
Proof.
  intros Ha Hb. unfold go_rem.
  destruct (Z.eqb_spec b 0) as [E | _]; [lia |].
  now rewrite Z.rem_mod_nonneg by lia.
Qed.



(** ** Results *)

Example f64_one_bits : f64_one = S754_finite false 4503599627370496 (-52).
Proof. reflexivity. Qed.

Example f64_of_int_one : f64_of_int 1 = f64_one.
Proof. reflexivity. Qed.

(** C6: with a zero success counter the aggregation returns the error
    "no operations completed" and no results; otherwise it returns
    [float64(totalOps) / elapsed.Seconds()] as operations per second and
    [float64(cumulativeLatencyNs) / float64(totalOps) / 1e6] as mean
    latency in milliseconds; 100 operations with 100_000_000 ns of
    cumulative latency give a mean latency of exactly 1.0. *)
Theorem aggregate_results (finalOps finalLatency actualElapsed : Z) :
  (finalOps = 0 ->
   aggregate finalOps finalLatency actualElapsed
   = (None, Some NoOperationsCompletedError)) /\
  (finalOps <> 0 ->
   aggregate finalOps finalLatency actualElapsed
   = (Some {| TotalOps := finalOps;
              ElapsedTime := actualElapsed;
              OpsPerSecond :=
                f64_div (f64_of_int finalOps) (Seconds actualElapsed);
              LatencyMs :=
                f64_div (f64_div (f64_of_int finalLatency) (f64_of_int finalOps))
                        f64_1e6 |},
      None)) /\
  option_map LatencyMs (fst (aggregate 100 100000000 actualElapsed)) = Some f64_one.
Proof.
  unfold aggregate. split; [| split].
  - intros ->. reflexivity.
  - intros H. apply Z.eqb_neq in H. now rewrite H.
  - reflexivity.
Qed.

Lemma aggregate_results_witness :
  aggregate 0 0 60000000000 = (None, Some NoOperationsCompletedError) /\
  option_map OpsPerSecond (fst (aggregate 100 100000000 60000000000))
  = Some (S754_finite false 7505999378950827 (-52)).
Proof.
  split.
  - apply (proj1 (aggregate_results 0 0 60000000000)). reflexivity.
  - rewrite (proj1 (proj2 (aggregate_results 100 100000000 60000000000)))
      by discriminate.
    reflexivity.
Defined.

(** ** The harness *)

Lemma live_nonneg (l : list wpc) : 0 <= live l.
Proof. induction l as [| pc l IH]; simpl; [lia |]. destruct (is_exited pc); lia. Qed.

Lemma live_app (l k : list wpc) : live (l ++ k) = live l + live k.
Proof. induction l as [| pc l IH]; simpl; [reflexivity |]. rewrite IH. lia. Qed.

Lemma live_insert (l : list wpc) (i : nat) (pc pc' : wpc) :
  l !! i = Some pc ->
  live (<[i := pc']> l)
  = live l - (if is_exited pc then 0 else 1) + (if is_exited pc' then 0 else 1).
Proof.
  revert i. induction l as [| x l IH]; intros [| i] H; simpl in *; try discriminate.
  - injection H as ->. lia.
  - rewrite (IH i H). lia.
Qed.

Lemma live_zero_exited (l : list wpc) (i : nat) (pc : wpc) :
  live l = 0 -> l !! i = Some pc -> pc = W_exited.
Proof.
  revert i. induction l as [| x l IH]; intros [| i] H0 H; simpl in *; try discriminate.
  - injection H as ->. pose proof (live_nonneg l).
    destruct pc; simpl in H0; try lia. reflexivity.
  - pose proof (live_nonneg l). apply (IH i); [| exact H].
    destruct (is_exited x); lia.
Qed.

(** Open the five parts of [harness_inv] in the goal. *)
Ltac inv_split :=
  unfold harness_inv; simpl; split; [| split; [| split; [| split]]].

Section HarnessProperties.

Variable F : Foreign.
Variable container_client : ContainerClient.
Variables itemCount partitionCount nworkers : Z.
Variables startTime duration : Z.

Local Abbreviation worker_step' :=
  (worker_step F container_client itemCount partitionCount).
Local Abbreviation main_step' := (main_step nworkers startTime).
Local Abbreviation step' :=
  (step F container_client itemCount partitionCount nworkers startTime duration).
Local Abbreviation run' :=
  (run F container_client itemCount partitionCount nworkers startTime duration).
Local Abbreviation reachable' :=
  (reachable F container_client itemCount partitionCount nworkers startTime duration).

(** What a worker's move leaves alone: the position of
    [executeBenchmark], the two signals, the list of workers; and the
    wait group drops by one exactly when the worker returns. *)
Lemma worker_step_frame (i : nat) (v now : Z) (pc pc' : wpc) (s s1 : Bench) :
  worker_step' i v now pc s = Some (pc', s1) ->
  main s1 = main s /\ workers s1 = workers s /\
  ctx_done s1 = ctx_done s /\ stop_closed s1 = stop_closed s /\
  is_exited pc = false /\
  wg s1 = wg s - (if is_exited pc' then 1 else 0).
Proof.
  unfold worker_step. destruct pc; intros H.
  - destruct (ctx_done s || stop_closed s); injection H as <- <-; simpl;
      repeat split; lia.
  - destruct (Intn itemCount v) as [idx |];
      [destruct (worker_keys idx partitionCount) as [[id pk] |] |];
      injection H as <- <-; simpl; repeat split; lia.
  - destruct (ReadItem F container_client itemID partitionKey (world s))
      as [[res [e |]] w]; injection H as <- <-; simpl; repeat split; lia.
  - injection H as <- <-; simpl; repeat split; lia.
  - discriminate.
Qed.

Lemma step_preserves_inv (l : label) (s s' : Bench) :
  harness_inv nworkers s -> step' l s = Some s' -> harness_inv nworkers s'.
Proof.
  intros (Iwg & Ipast & Ilen & Isig & Iret) H.
  unfold step in H. destruct (panicked s) eqn:P; [discriminate |].
  destruct l as [now | i v now | | now].
  - (* executeBenchmark moves *)
    unfold main_step in H.
    destruct (main s) eqn:M.
    + destruct (Z.ltb_spec i nworkers); injection H as <-; inv_split.
      * rewrite live_app. simpl. lia.
      * discriminate.
      * rewrite length_app. simpl. lia.
      * exact I.
      * discriminate.
      * exact Iwg.
      * discriminate.
      * lia.
      * exact I.
      * discriminate.
    + destruct (ctx_done s) eqn:C; [| discriminate]. injection H as <-; inv_split.
      * exact Iwg.
      * discriminate.
      * exact Ilen.
      * exact C.
      * discriminate.
    + injection H as <-; inv_split.
      * exact Iwg.
      * discriminate.
      * exact Ilen.
      * split; [exact Isig | reflexivity].
      * discriminate.
    + destruct (Z.eqb_spec (wg s) 0) as [W0 |]; [| discriminate].
      injection H as <-; inv_split.
      * exact Iwg.
      * intros _. exact W0.
      * exact Ilen.
      * exact Isig.
      * discriminate.
    + injection H as <-; inv_split.
      * exact Iwg.
      * intros _. apply Ipast. reflexivity.
      * exact Ilen.
      * exact Isig.
      * intros r0 E. injection E as <-. eexists. reflexivity.
    + discriminate.
  - (* a worker moves *)
    destruct (workers s !! i) as [pc |] eqn:Hpc; [| discriminate].
    destruct (worker_step' i v now pc s) as [[pc' s1] |] eqn:Hw; [| discriminate].
    injection H as <-.
    destruct (worker_step_frame _ _ _ _ _ _ _ Hw)
      as (Em & Ew & Ec & Es & Hlive & Ewg).
    assert (Hnot : past_wait (main s) = false).
    { destruct (past_wait (main s)) eqn:Pw; [| reflexivity].
      specialize (Ipast eq_refl). rewrite Ipast in Iwg. symmetry in Iwg.
      rewrite (live_zero_exited _ _ _ Iwg Hpc) in Hlive. discriminate. }
    unfold harness_inv. simpl. rewrite Em, Ew, Ec, Es.
    rewrite (live_insert _ _ _ pc' Hpc), Hlive, length_insert.
    repeat split.
    + rewrite Ewg, Iwg. destruct (is_exited pc'); lia.
    + rewrite Hnot. discriminate.
    + exact Ilen.
    + exact Isig.
    + intros r E. rewrite E in Hnot. discriminate.
  - (* the context is done *)
    injection H as <-. unfold harness_inv. simpl.
    repeat split; auto.
    destruct (main s); tauto.
  - (* the progress ticker *)
    unfold ticker_step in H.
    destruct (main s) eqn:M; [discriminate | | | | |];
      destruct (0 <? _); injection H as <-; inv_split;
      rewrite ?M; auto; discriminate.
Qed.

Lemma init_inv (w : World) : harness_inv nworkers (init w).
Proof.
  unfold harness_inv, init. simpl.
  repeat split; try lia; try discriminate.
Qed.

Lemma run_preserves_inv (ls : list label) (s s' : Bench) :
  harness_inv nworkers s -> run' ls s = Some s' -> harness_inv nworkers s'.
Proof.
  revert s. induction ls as [| l ls IH]; intros s I H; simpl in H.
  - injection H as <-. exact I.
  - destruct (step' l s) as [s1 |] eqn:E; [| discriminate].
    apply (IH s1); [| exact H]. exact (step_preserves_inv l s s1 I E).
Qed.

Lemma reachable_inv (w : World) (s : Bench) :
  reachable' w s -> harness_inv nworkers s.
Proof. intros [ls H]. exact (run_preserves_inv ls _ _ (init_inv w) H). Qed.

End HarnessProperties.

(** *** Workers and their counters *)

Lemma atomic_AddInt64_exact (x delta : Z) :
  int64_range (x + delta) -> atomic_AddInt64 x delta = x + delta.
Proof. apply to_int64_id. Qed.

(** C7: when [ReadItem] returns an error the worker prints it and goes
    back to the head of its loop: both counters, the wait group, the
    signals, the position of [executeBenchmark] and the other workers stay
    as they were and nothing panics.  When it returns no error the worker
    adds 1 to the operation counter with one atomic add and then the
    nanoseconds between its two clock readings to the latency counter
    with another. *)
Theorem worker_counts_successes_only
    (F : Foreign) (k : ContainerClient)
    (itemCount partitionCount nworkers startTime duration : Z)
    (s : Bench) (i : nat) (itemID partitionKey : string) (opStart v now : Z)
    (Halive : panicked s = false)
    (Hpc : workers s !! i = Some (W_reading itemID partitionKey opStart)) :
  let stp := step F k itemCount partitionCount nworkers startTime duration in
  let r := ReadItem F k itemID partitionKey (world s) in
  exists s',
    stp (L_worker i v now) s = Some s' /\
    match snd (fst r) with
    | Some e =>
        totalOps s' = totalOps s /\
        totalLatency s' = totalLatency s /\
        stdout s' = (stdout s ++ [Out_worker_error (Z.of_nat i) itemID e])%list /\
        workers s' = <[i := W_select]> (workers s) /\
        workers s' !! i = Some W_select /\
        panicked s' = false /\ main s' = main s /\ wg s' = wg s /\
        ctx_done s' = ctx_done s /\ stop_closed s' = stop_closed s
    | None =>
        totalOps s' = atomic_AddInt64 (totalOps s) 1 /\
        (int64_range (totalOps s + 1) -> totalOps s' = totalOps s + 1) /\
        totalLatency s' = totalLatency s /\
        stdout s' = stdout s /\
        workers s' !! i = Some (W_add_latency (time_Sub now opStart)) /\
        forall t v' now',
          panicked t = false ->
          workers t !! i = Some (W_add_latency (time_Sub now opStart)) ->
          exists t',
            stp (L_worker i v' now') t = Some t' /\
            totalLatency t'
              = atomic_AddInt64 (totalLatency t) (time_Sub now opStart) /\
            (int64_range (totalLatency t + time_Sub now opStart) ->
             totalLatency t' = totalLatency t + time_Sub now opStart) /\
            totalOps t' = totalOps t /\
            workers t' !! i = Some W_select
    end.
Proof.
  intros stp r. subst stp. unfold step. rewrite Halive, Hpc.
  assert (Hi : (i < length (workers s))%nat) by (eapply lookup_lt_Some; eauto).
  unfold worker_step. fold r.
  destruct r as [[res [e |]] w']; cbn [fst snd].
  - eexists. split; [reflexivity |]. simpl.
    rewrite list_lookup_insert_eq by exact Hi.
    repeat split; auto.
  - eexists. split; [reflexivity |]. simpl.
    rewrite list_lookup_insert_eq by exact Hi.
    split; [reflexivity |]. split; [apply atomic_AddInt64_exact |].
    repeat (split; [reflexivity |]).
    intros t v' now' Ht Hpct.
    assert (Hit : (i < length (workers t))%nat) by (eapply lookup_lt_Some; eauto).
    rewrite Ht, Hpct. eexists. split; [reflexivity |]. simpl.
    rewrite list_lookup_insert_eq by exact Hit.
    split; [reflexivity |]. split; [apply atomic_AddInt64_exact |].
    split; reflexivity.
Qed.

Lemma worker_counts_successes_only_witness :
  (exists s',
     step failing_double demo_container 10000 10 1 0 60000000000
       (L_worker 0 0 20) reading_state = Some s' /\
     totalOps s' = 0 /\ totalLatency s' = 0 /\
     stdout s' = [Out_worker_error 0 "item2345" (CosmosError 7 "boom")] /\
     workers s' = [W_select] /\ panicked s' = false) /\
  (exists s',
     demo_step (L_worker 0 0 1000010) reading_state = Some s' /\
     totalOps s' = 1 /\ totalLatency s' = 0 /\
     workers s' = [W_add_latency 1000000]).
Proof.
  split.
  - destruct (worker_counts_successes_only failing_double demo_container
                10000 10 1 0 60000000000 reading_state 0%nat
                "item2345" "partition5" 10 0 20 eq_refl eq_refl)
      as (s' & Hstep & H).
    cbn in H. destruct H as (H1 & H2 & H3 & H4 & _ & H6 & _).
    exists s'. repeat split; assumption.
  - destruct (worker_counts_successes_only demo_double demo_container
                10000 10 1 0 60000000000 reading_state 0%nat
                "item2345" "partition5" 10 0 1000010 eq_refl eq_refl)
      as (s' & Hstep & H).
    cbn in H. destruct H as (H1 & _ & H3 & _ & H5 & _).
    exists s'. unfold demo_step. rewrite Hstep in *.
    split; [reflexivity |].
    cbn in Hstep. injection Hstep as <-. repeat split.
Defined.

(** *** Cancellation *)

Section Cancellation.

Variable F : Foreign.
Variable container_client : ContainerClient.
Variables itemCount partitionCount nworkers : Z.
Variables startTime duration : Z.

Local Abbreviation step' :=
  (step F container_client itemCount partitionCount nworkers startTime duration).
Local Abbreviation reachable' :=
  (reachable F container_client itemCount partitionCount nworkers startTime duration).

(** Where one move takes a worker. *)
Lemma worker_moves (s s' : Bench) (i : nat) (v now : Z) (pc : wpc) :
  workers s !! i = Some pc ->
  step' (L_worker i v now) s = Some s' ->
  match pc with
  | W_select =>
      workers s' !! i
      = Some (if ctx_done s || stop_closed s then W_exited else W_default)
  | W_default =>
      (workers s' !! i = Some W_default /\ panicked s' = true) \/
      (exists itemID partitionKey,
         workers s' !! i = Some (W_reading itemID partitionKey now) /\
         panicked s' = false)
  | W_reading _ _ opStart =>
      workers s' !! i = Some W_select \/
      workers s' !! i = Some (W_add_latency (time_Sub now opStart))
  | W_add_latency _ => workers s' !! i = Some W_select
  | W_exited => False
  end.
Proof.
  intros Hpc H.
  assert (Hi : (i < length (workers s))%nat) by (eapply lookup_lt_Some; eauto).
  unfold step in H. destruct (panicked s) eqn:P; [discriminate |].
  rewrite Hpc in H. unfold worker_step in H. destruct pc.
  - destruct (ctx_done s || stop_closed s); injection H as <-; simpl;
      now rewrite list_lookup_insert_eq.
  - destruct (Intn itemCount v) as [idx |];
      [destruct (worker_keys idx partitionCount) as [[id pk] |] |];
      injection H as <-; simpl; rewrite list_lookup_insert_eq by exact Hi.
    + right. exists id, pk. split; [reflexivity | exact P].
    + left. split; reflexivity.
    + left. split; reflexivity.
  - destruct (ReadItem F container_client itemID partitionKey (world s))
      as [[res [e |]] w]; injection H as <-; simpl;
      rewrite list_lookup_insert_eq by exact Hi; [left | right]; reflexivity.
  - injection H as <-; simpl. now rewrite list_lookup_insert_eq.
  - discriminate.
Qed.

(** Nobody else moves a worker: not another worker, not
    [executeBenchmark], not the deadline, not the ticker. *)
Lemma others_do_not_move (l : label) (s s' : Bench) (i : nat) (pc : wpc) :
  step' l s = Some s' ->
  (forall v now, l <> L_worker i v now) ->
  workers s !! i = Some pc ->
  workers s' !! i = Some pc.
Proof.
  intros H Hl Hpc.
  unfold step in H. destruct (panicked s); [discriminate |].
  destruct l as [now | j v now | | now].
  - unfold main_step in H. destruct (main s).
    + destruct (i0 <? nworkers); injection H as <-; simpl; [| exact Hpc].
      now apply lookup_app_l_Some.
    + destruct (ctx_done s); [| discriminate]. injection H as <-. exact Hpc.
    + injection H as <-. exact Hpc.
    + destruct (wg s =? 0); [| discriminate]. injection H as <-. exact Hpc.
    + injection H as <-. exact Hpc.
    + discriminate.
  - assert (j <> i) by (intros ->; now apply (Hl v now)).
    destruct (workers s !! j) as [pcj |] eqn:Hj; [| discriminate].
    destruct (worker_step _ _ _ _ j v now pcj s) as [[pc' s1] |] eqn:Hw;
      [| discriminate].
    injection H as <-. simpl.
    destruct (worker_step_frame _ _ _ _ _ _ _ _ _ _ _ Hw) as (_ & -> & _).
    now rewrite list_lookup_insert_ne.
  - injection H as <-. exact Hpc.
  - unfold ticker_step in H. destruct (main s); [discriminate | | | | |];
      destruct (0 <? _); injection H as <-; exact Hpc.
Qed.

(** A read in flight completes whatever the signals say. *)
Lemma read_in_flight_completes (s : Bench) (i : nat) (v now : Z)
    (itemID partitionKey : string) (opStart : Z) :
  panicked s = false ->
  workers s !! i = Some (W_reading itemID partitionKey opStart) ->
  exists s', step' (L_worker i v now) s = Some s'.
Proof.
  intros P Hpc. unfold step. rewrite P, Hpc. unfold worker_step.
  destruct (ReadItem F container_client itemID partitionKey (world s))
    as [[res [e |]] w]; eexists; reflexivity.
Qed.


End Cancellation.






(* ===================================================================== *)
(** * Further properties of the code *)
(* ===================================================================== *)

(** ** Keys *)

Lemma to_int_proper (z : Z) :
  Z.to_int z <> Decimal.Pos Decimal.Nil /\ Z.to_int z <> Decimal.Neg Decimal.Nil.
Proof.
  destruct z as [| p | p]; simpl; split; try discriminate;
    intros E; injection E as E; exact (DecimalPos.Unsigned.to_uint_nonnil p E).
Qed.

(** [%d] prints different integers differently. *)
Lemma fmt_d_inj (a b : Z) : fmt_d a = fmt_d b -> a = b.
Proof.
  unfold fmt_d. intros E.
  apply DecimalZ.to_int_inj.
  destruct (to_int_proper a) as [Ha1 Ha2], (to_int_proper b) as [Hb1 Hb2].
  pose proof (NilZero.isi _ Ha1 Ha2) as Pa.
  pose proof (NilZero.isi _ Hb1 Hb2) as Pb.
  rewrite E in Pa. rewrite Pa in Pb. now injection Pb.
Qed.

Lemma append_inj_r (p s t : string) : p ++ s = p ++ t -> s = t.
Proof.
  induction p as [| c p IH]; simpl; intros E; [exact E |].
  injection E as E. now apply IH.
Qed.

(** X1: item ids identify the index: when the worker (or the loader)
    builds keys for two different indices, the two item ids differ,
    whatever the partition counts. *)
Theorem item_id_identifies_index (i j p q : Z) (idi pki idj pkj : string)
    (Hi : worker_keys i p = Some (idi, pki))
    (Hj : worker_keys j q = Some (idj, pkj))
    (Hne : i <> j) :
  idi <> idj.
Proof.
  unfold worker_keys in *.
  destruct (go_rem i p); [| discriminate].
  destruct (go_rem j q); [| discriminate].
  injection Hi as <- _. injection Hj as <- _.
  intros Hid. apply Hne.
  apply fmt_d_inj. exact (append_inj_r "item" _ _ Hid).
Qed.

Lemma item_id_identifies_index_witness : "item2345" <> "item12345".
Proof.
  apply (item_id_identifies_index 2345 12345 10 7 "item2345" "partition5"
           "item12345" "partition4" eq_refl eq_refl).
  lia.
Defined.

(** X2: for non-negative indices and a positive partition count, two
    items get the same partition key exactly when their indices are
    congruent modulo the partition count, and the partition number lies in
    [0, partitionCount). *)
Theorem partition_key_congruence (i j partitionCount : Z)
    (Hi : 0 <= i) (Hj : 0 <= j) (Hp : 0 < partitionCount) :
  exists idi pki idj pkj,
    worker_keys i partitionCount = Some (idi, pki) /\
    worker_keys j partitionCount = Some (idj, pkj) /\
    (pki = pkj <-> i mod partitionCount = j mod partitionCount) /\
    pki = "partition" ++ fmt_d (i mod partitionCount) /\
    0 <= i mod partitionCount < partitionCount.
Proof.
  unfold worker_keys.
  rewrite !go_rem_nonneg by lia.
  do 4 eexists. split; [reflexivity |]. split; [reflexivity |].
  split; [| split; [reflexivity | apply Z.mod_pos_bound; lia]].
  split.
  - intros E. apply fmt_d_inj. exact (append_inj_r "partition" _ _ E).
  - intros ->. reflexivity.
Qed.

Lemma partition_key_congruence_witness :
  exists idi pki idj pkj,
    worker_keys 2345 10 = Some (idi, pki) /\
    worker_keys 15 10 = Some (idj, pkj) /\
    (pki = pkj <-> 2345 mod 10 = 15 mod 10) /\
    pki = "partition" ++ fmt_d (2345 mod 10) /\
    0 <= 2345 mod 10 < 10.
Proof.
  apply (partition_key_congruence 2345 15 10); lia.
Defined.

(** ** Random documents *)

Lemma to_int64_range (z : Z) : int64_range (to_int64 z).
Proof.
  unfold int64_range, to_int64.
  pose proof (Z.mod_pos_bound (z + 2 ^ 63) (2 ^ 64) ltac:(lia)). lia.
Qed.

Lemma string_get_lt (s : string) (n : nat) :
  (n < String.length s)%nat -> exists c, String.get n s = Some c.
Proof.
  revert n. induction s as [| a s IH]; intros n H; simpl in *; [lia |].
  destruct n as [| n]; [eauto |]. apply IH. lia.
Qed.

(** A draw between two bounds in order. *)
Lemma generateRandomInt_in_range (min max : Z) (r : Rand) :
  int64_range min -> int64_range max ->
  min <= max -> max - min < 2 ^ 63 - 1 ->
  exists x,
    generateRandomInt min max r
    = Some (x, {| draws := draws r; consumed := S (consumed r) |}) /\
    min <= x <= max.
Proof.
  unfold int64_range. intros Hmin Hmax Hle Hw.
  unfold generateRandomInt, rand_Intn, Intn.
  rewrite (to_int64_id (max - min)) by (unfold int64_range; lia).
  rewrite (to_int64_id (max - min + 1)) by (unfold int64_range; lia).
  destruct (Z.leb_spec (max - min + 1) 0); [lia |].
  pose proof (Z.mod_pos_bound (draws r (consumed r)) (max - min + 1) ltac:(lia)).
  eexists. split; [reflexivity |].
  rewrite to_int64_id by (unfold int64_range; lia). lia.
Qed.

(** One wrap of [int] arithmetic, either way. *)
Lemma to_int64_wrap_down (z : Z) :
  2 ^ 63 <= z < 2 ^ 63 + 2 ^ 64 -> to_int64 z = z - 2 ^ 64.
Proof.
  intros H. unfold to_int64.
  replace (z + 2 ^ 63) with ((z + 2 ^ 63 - 2 ^ 64) + 1 * 2 ^ 64) by lia.
  rewrite Z_mod_plus_full, Z.mod_small by lia. lia.
Qed.

Lemma to_int64_wrap_up (z : Z) :
  - 2 ^ 63 - 2 ^ 64 <= z < - 2 ^ 63 -> to_int64 z = z + 2 ^ 64.
Proof.
  intros H. unfold to_int64.
  replace (z + 2 ^ 63) with ((z + 2 ^ 63 + 2 ^ 64) + (-1) * 2 ^ 64) by lia.
  rewrite Z_mod_plus_full, Z.mod_small by lia. lia.
Qed.

(** X3: [generateRandomInt(min, max)] on [int] arguments, in all four
    cases of the span [max - min + 1] that it passes to [rand.Intn].
    With [min <= max] and a span that fits in [int]
    ([max - min < 2^63 - 1]) it consumes one draw and returns a value in
    [min, max], both ends included.  With [max < min] and no wrap
    ([- 2^63 - 1 <= max - min]) the span is not positive and [rand.Intn]
    panics.  At the edges the wrap of [int] arithmetic decides: with
    [min <= max] and [2^63 - 1 <= max - min] the span wraps to a
    non-positive number and the call panics (so
    [generateRandomInt(0, MaxInt64)] panics); with [max < min] and
    [max - min < - 2^63 - 1] the span wraps to a positive number and the
    call returns after one draw (so
    [generateRandomInt(MaxInt64, MinInt64)] returns). *)
Theorem generateRandomInt_bounds (min max : Z) (r : Rand)
    (Hmin : int64_range min) (Hmax : int64_range max) :
  (min <= max -> max - min < 2 ^ 63 - 1 ->
   exists x,
     generateRandomInt min max r
     = Some (x, {| draws := draws r; consumed := S (consumed r) |}) /\
     min <= x <= max) /\
  (max < min -> - 2 ^ 63 - 1 <= max - min ->
   generateRandomInt min max r = None) /\
  (min <= max -> 2 ^ 63 - 1 <= max - min ->
   generateRandomInt min max r = None) /\
  (max < min -> max - min < - 2 ^ 63 - 1 ->
   generateRandomInt min max r
   = Some (to_int64 (min + draws r (consumed r) mod (max - min + 2 ^ 64 + 1)),
           {| draws := draws r; consumed := S (consumed r) |}) /\
   0 < max - min + 2 ^ 64 + 1).
Proof.
  split; [| split; [| split]].
  - intros Hle Hw. now apply generateRandomInt_in_range.
  - intros Hlt Hw. unfold int64_range in *.
    unfold generateRandomInt, rand_Intn, Intn.
    destruct (Z.eq_dec (max - min) (- 2 ^ 63 - 1)) as [E | E].
    + rewrite (to_int64_wrap_up (max - min)) by lia.
      rewrite (to_int64_wrap_down (max - min + 2 ^ 64 + 1)) by lia.
      destruct (Z.leb_spec (max - min + 2 ^ 64 + 1 - 2 ^ 64) 0); [reflexivity | lia].
    + rewrite (to_int64_id (max - min)) by (unfold int64_range; lia).
      rewrite (to_int64_id (max - min + 1)) by (unfold int64_range; lia).
      destruct (Z.leb_spec (max - min + 1) 0); [reflexivity | lia].
  - intros Hle Hw. unfold int64_range in *.
    unfold generateRandomInt, rand_Intn, Intn.
    destruct (Z.eq_dec (max - min) (2 ^ 63 - 1)) as [E | E].
    + rewrite (to_int64_id (max - min)) by (unfold int64_range; lia).
      rewrite (to_int64_wrap_down (max - min + 1)) by lia.
      destruct (Z.leb_spec (max - min + 1 - 2 ^ 64) 0); [reflexivity | lia].
    + rewrite (to_int64_wrap_down (max - min)) by lia.
      rewrite (to_int64_id (max - min - 2 ^ 64 + 1)) by (unfold int64_range; lia).
      destruct (Z.leb_spec (max - min - 2 ^ 64 + 1) 0); [reflexivity | lia].
  - intros Hlt Hw. unfold int64_range in *.
    unfold generateRandomInt, rand_Intn, Intn.
    rewrite (to_int64_wrap_up (max - min)) by lia.
    rewrite (to_int64_id (max - min + 2 ^ 64 + 1)) by (unfold int64_range; lia).
    destruct (Z.leb_spec (max - min + 2 ^ 64 + 1) 0); [lia |].
    split; [reflexivity | lia].
Qed.

(** A draw in [0, 10000]; bounds in the wrong order; the whole
    non-negative range; and the two ends of [int] in the wrong order. *)
Lemma generateRandomInt_bounds_witness :
  (exists x,
     generateRandomInt 0 10000 demo_rand
     = Some (x, {| draws := draws demo_rand; consumed := 1 |}) /\
     0 <= x <= 10000) /\
  generateRandomInt 5 4 demo_rand = None /\
  generateRandomInt 0 (2 ^ 63 - 1) demo_rand = None /\
  generateRandomInt (2 ^ 63 - 1) (- 2 ^ 63) demo_rand
  = Some (to_int64 (2 ^ 63 - 1 + draws demo_rand 0 mod 2),
          {| draws := draws demo_rand; consumed := 1 |}).
Proof.
  split; [| split; [| split]].
  - apply (proj1 (generateRandomInt_bounds 0 10000 demo_rand
                    ltac:(unfold int64_range; lia) ltac:(unfold int64_range; lia)));
      lia.
  - apply (proj1 (proj2 (generateRandomInt_bounds 5 4 demo_rand
                    ltac:(unfold int64_range; lia) ltac:(unfold int64_range; lia))));
      lia.
  - apply (proj1 (proj2 (proj2 (generateRandomInt_bounds 0 (2 ^ 63 - 1) demo_rand
                    ltac:(unfold int64_range; lia) ltac:(unfold int64_range; lia)))));
      lia.
  - apply (proj1 (proj2 (proj2 (proj2
             (generateRandomInt_bounds (2 ^ 63 - 1) (- 2 ^ 63) demo_rand
                ltac:(unfold int64_range; lia) ltac:(unfold int64_range; lia))))
             ltac:(lia) ltac:(lia))).
Defined.

Lemma fill_random_spec (n : nat) (r : Rand) :
  exists s,
    fill_random n r
    = Some (s, {| draws := draws r; consumed := (consumed r + n)%nat |}) /\
    String.length s = n /\ all_chars in_letters s.
Proof.
  revert r. induction n as [| n IH]; intros r.
  - exists EmptyString. simpl. rewrite Nat.add_0_r. destruct r; simpl. auto.
  - cbn [fill_random].
    change (Z.of_nat (String.length letters) - 1) with 61.
    destruct (generateRandomInt_in_range 0 61 r
                ltac:(unfold int64_range; lia) ltac:(unfold int64_range; lia)
                ltac:(lia) ltac:(lia)) as (x & -> & Hx).
    unfold string_index. destruct (Z.ltb_spec x 0); [lia |].
    destruct (string_get_lt letters (Z.to_nat x)) as [c Hc].
    { change (String.length letters) with 62%nat. lia. }
    rewrite Hc.
    destruct (IH {| draws := draws r; consumed := S (consumed r) |})
      as (s & -> & Hlen & Hall).
    exists (String c s). cbn [draws consumed]. split.
    + replace (S (consumed r) + n)%nat with (consumed r + S n)%nat by lia.
      reflexivity.
    + split; [simpl; now rewrite Hlen |]. split; [now exists (Z.to_nat x) | exact Hall].
Qed.

Lemma generateRandomString_spec (size : Z) (r : Rand) :
  0 <= size ->
  exists s,
    generateRandomString size r
    = Some (s, {| draws := draws r; consumed := (consumed r + Z.to_nat size)%nat |}) /\
    Z.of_nat (String.length s) = size /\
    all_chars in_letters s.
Proof.
  intros H. unfold generateRandomString.
  destruct (Z.ltb_spec size 0); [lia |].
  destruct (fill_random_spec (Z.to_nat size) r) as (s & E & Hlen & Hall).
  exists s. split; [exact E |]. split; [lia | exact Hall].
Qed.

(** X4: [generateRandomString(size)] with [size >= 0] returns exactly
    [size] characters, every one of them from the 62-letter alphabet,
    after [size] draws; its index into the alphabet is never out of range;
    a negative size panics. *)
Theorem generateRandomString_alphabet (size : Z) (r : Rand) :
  (0 <= size ->
   exists s,
     generateRandomString size r
     = Some (s, {| draws := draws r; consumed := (consumed r + Z.to_nat size)%nat |}) /\
     Z.of_nat (String.length s) = size /\
     all_chars in_letters s) /\
  (size < 0 -> generateRandomString size r = None).
Proof.
  split; intros H.
  - now apply generateRandomString_spec.
  - unfold generateRandomString.
    destruct (Z.ltb_spec size 0); [reflexivity | lia].
Qed.

Lemma generateRandomString_alphabet_witness :
  (exists s,
     generateRandomString 3 demo_rand
     = Some (s, {| draws := draws demo_rand; consumed := 3 |}) /\
     Z.of_nat (String.length s) = 3 /\ all_chars in_letters s) /\
  generateRandomString (-1) demo_rand = None.
Proof.
  split.
  - apply (proj1 (generateRandomString_alphabet 3 demo_rand)). lia.
  - apply (proj2 (generateRandomString_alphabet (-1) demo_rand)). lia.
Defined.

(** With a non-zero partition count [createRandomDocsItem] returns. *)
Lemma createRandomDocsItem_drawn_returns (index partitionCount : Z) (r : Rand) :
  partitionCount <> 0 ->
  exists doc,
    createRandomDocsItem_drawn index partitionCount r
    = Some (doc, {| draws := draws r; consumed := (consumed r + 1025)%nat |}) /\
    ID doc = "item" ++ fmt_d index /\
    PartitionKey doc = "partition" ++ fmt_d (Z.rem index partitionCount) /\
    String.length (Data doc) = 1024%nat /\
    all_chars in_letters (Data doc) /\
    0 <= RandomNumber doc <= 10000.
Proof.
  unfold createRandomDocsItem_drawn, createRandomDocsItem, go_rem.
  intros Hp. apply Z.eqb_neq in Hp. rewrite Hp.
  destruct (generateRandomString_spec 1024 r ltac:(lia))
    as (s & -> & Hlen & Hall).
  destruct (generateRandomInt_in_range 0 10000
              {| draws := draws r;
                 consumed := (consumed r + Z.to_nat 1024)%nat |}
              ltac:(unfold int64_range; lia) ltac:(unfold int64_range; lia)
              ltac:(lia) ltac:(lia)) as (x & -> & Hx).
  eexists. cbn [draws consumed]. split.
  - replace (S (consumed r + Z.to_nat 1024))%nat
      with (consumed r + 1025)%nat by lia.
    reflexivity.
  - cbn [ID PartitionKey Data RandomNumber].
    split; [reflexivity |]. split; [reflexivity |].
    split; [lia |]. split; [exact Hall | exact Hx].
Qed.

(** X5: a document of the loader: with a non-zero partition count
    [createRandomDocsItem] draws 1025 random numbers and returns the id and
    partition key of the index, 1024 characters of data from the alphabet
    and a random number in [0, 10000]; with partition count 0 it panics
    before drawing anything. *)
Theorem createRandomDocsItem_drawn_shape (index partitionCount : Z) (r : Rand) :
  (partitionCount <> 0 ->
   exists doc,
     createRandomDocsItem_drawn index partitionCount r
     = Some (doc, {| draws := draws r; consumed := (consumed r + 1025)%nat |}) /\
     ID doc = "item" ++ fmt_d index /\
     PartitionKey doc = "partition" ++ fmt_d (Z.rem index partitionCount) /\
     String.length (Data doc) = 1024%nat /\
     all_chars in_letters (Data doc) /\
     0 <= RandomNumber doc <= 10000) /\
  (partitionCount = 0 ->
   createRandomDocsItem_drawn index partitionCount r = None).
Proof.
  split.
  - apply createRandomDocsItem_drawn_returns.
  - intros ->. reflexivity.
Qed.

Lemma createRandomDocsItem_drawn_shape_witness :
  exists doc,
    createRandomDocsItem_drawn 2345 10 demo_rand
    = Some (doc, {| draws := draws demo_rand; consumed := 1025 |}) /\
    ID doc = "item2345" /\ PartitionKey doc = "partition5" /\
    String.length (Data doc) = 1024%nat /\
    0 <= RandomNumber doc <= 10000.
Proof.
  destruct (proj1 (createRandomDocsItem_drawn_shape 2345 10 demo_rand) ltac:(lia))
    as (doc & E & H1 & H2 & H3 & _ & H5).
  exists doc.
  split; [exact E |]. split; [exact H1 |]. split; [exact H2 |].
  split; [exact H3 | exact H5].
Defined.

(** ** Wrappers: failure paths and release *)

(** The result of [ReadItem] on an open container, by what the library
    answered; the world is given by its calls. *)
Lemma ReadItem_open (F : Foreign) (k : ContainerClient)
    (itemID partitionKey : string) (w : World)
    (rc : Z) (outJson : char_ptr) (cerr : cosmos_error) :
  container k <> NULL ->
  cosmos_container_read_item F
    (trace w ++ [E_CString (Z.pos (brk w)) itemID;
                 E_CString (Z.pos (Pos.succ (brk w))) partitionKey])
    (container k) partitionKey itemID = (rc, outJson, cerr) ->
  fst (ReadItem F k itemID partitionKey w)
  = (if negb (rc =? COSMOS_ERROR_CODE_SUCCESS) then ("", newCosmosError cerr)
     else match outJson with
          | None => ("", Some (Errorf "received null JSON response"))
          | Some b => (bytes b, None)
          end) /\
  events_since w (snd (ReadItem F k itemID partitionKey w))
  = ([E_CString (Z.pos (brk w)) itemID;
      E_CString (Z.pos (Pos.succ (brk w))) partitionKey;
      E_cosmos_container_read_item (container k)
        (Z.pos (Pos.succ (brk w))) (Z.pos (brk w))]
     ++ (if negb (rc =? COSMOS_ERROR_CODE_SUCCESS) then []
         else match outJson with
              | None => []
              | Some b => [E_cosmos_string_free (addr b)]
              end)
     ++ [E_free (Z.pos (Pos.succ (brk w))); E_free (Z.pos (brk w))])%list.
Proof.
  intros Hopen Hcall. unfold ReadItem.
  apply Z.eqb_neq in Hopen. rewrite Hopen.
  cbn [C_CString emit trace brk].
  rewrite <- (app_assoc (trace w)). cbn [app]. rewrite Hcall.
  destruct (negb (rc =? COSMOS_ERROR_CODE_SUCCESS)); [| destruct outJson as [b |]];
    cbn [fst snd C_GoString]; (split; [reflexivity | now events_since_tac]).
Qed.

(** X6: when a native call returns a failure code but leaves code 0 in the
    error struct, the constructors return neither a wrapper nor an error,
    and [ReadItem] returns the empty string with no error, which a caller
    cannot tell from a successful read of an empty document. *)
Theorem failure_code_without_error_struct (F : Foreign) (w : World)
    (rc h : Z) (out : char_ptr) (msg : char_ptr)
    (Hrc : rc <> COSMOS_ERROR_CODE_SUCCESS) :
  let cerr := {| code := COSMOS_ERROR_CODE_SUCCESS; message := msg |} in
  (forall endpoint key,
     cosmos_client_create_with_key F
       (trace w ++ [E_CString (Z.pos (brk w)) endpoint;
                    E_CString (Z.pos (Pos.succ (brk w))) key])
       endpoint key = (rc, h, cerr) ->
     fst (NewCosmosClientWithKey F endpoint key w) = (None, None)) /\
  (forall (c : CosmosClient) databaseID,
     client c <> NULL ->
     cosmos_client_database_client F
       (trace w ++ [E_CString (Z.pos (brk w)) databaseID])
       (client c) databaseID = (rc, h, cerr) ->
     fst (CosmosClient_DatabaseClient F c databaseID w) = (None, None)) /\
  (forall (d : DatabaseClient) containerID,
     database d <> NULL ->
     cosmos_database_container_client F
       (trace w ++ [E_CString (Z.pos (brk w)) containerID])
       (database d) containerID = (rc, h, cerr) ->
     fst (DatabaseClient_ContainerClient F d containerID w) = (None, None)) /\
  (forall (k : ContainerClient) itemID partitionKey,
     container k <> NULL ->
     cosmos_container_read_item F
       (trace w ++ [E_CString (Z.pos (brk w)) itemID;
                    E_CString (Z.pos (Pos.succ (brk w))) partitionKey])
       (container k) partitionKey itemID = (rc, out, cerr) ->
     fst (ReadItem F k itemID partitionKey w) = ("", None)).
Proof.
  intros cerr. apply Z.eqb_neq in Hrc.
  split; [| split; [| split]].
  - intros endpoint key Hcall. unfold NewCosmosClientWithKey.
    cbn [C_CString emit C_free trace brk].
    rewrite <- (app_assoc (trace w)). cbn [app].
    rewrite Hcall, Hrc. reflexivity.
  - intros c databaseID Hopen Hcall. unfold CosmosClient_DatabaseClient.
    apply Z.eqb_neq in Hopen. rewrite Hopen.
    cbn [C_CString emit C_free trace brk].
    rewrite Hcall, Hrc. reflexivity.
  - intros d containerID Hopen Hcall. unfold DatabaseClient_ContainerClient.
    apply Z.eqb_neq in Hopen. rewrite Hopen.
    cbn [C_CString emit C_free trace brk].
    rewrite Hcall, Hrc. reflexivity.
  - intros k itemID partitionKey Hopen Hcall.
    rewrite (proj1 (ReadItem_open F k itemID partitionKey w rc out cerr Hopen Hcall)).
    rewrite Hrc. reflexivity.
Qed.

Lemma failure_code_without_error_struct_witness :
  let F := constant_double 5 0 None no_error in
  fst (NewCosmosClientWithKey F "https://localhost:8080" "key" empty_world)
  = (None, None) /\
  fst (ReadItem F demo_container "item7" "partition7" empty_world) = ("", None).
Proof.
  intros F.
  destruct (failure_code_without_error_struct F empty_world 5 0 None None
              ltac:(discriminate)) as (H1 & _ & _ & H4).
  split.
  - apply H1. reflexivity.
  - apply H4; [discriminate | reflexivity].
Defined.

(** X7: when the native read fails with a non-zero code in the error
    struct, [ReadItem] returns the empty string and a [CosmosError] with
    that code and message, whose text is "Cosmos error <code>: <message>";
    a payload buffer the library may have left behind is not released:
    the only calls are the two copies, the read and the two frees. *)
Theorem ReadItem_failure (F : Foreign) (k : ContainerClient)
    (itemID partitionKey : string) (w : World)
    (rc c : Z) (out : char_ptr) (m : cbuf)
    (Hopen : container k <> NULL)
    (Hrc : rc <> COSMOS_ERROR_CODE_SUCCESS)
    (Hc : c <> 0) (Hrange : - 2 ^ 31 <= c < 2 ^ 31)
    (Hcall : cosmos_container_read_item F
               (trace w ++ [E_CString (Z.pos (brk w)) itemID;
                            E_CString (Z.pos (Pos.succ (brk w))) partitionKey])
               (container k) partitionKey itemID
             = (rc, out, {| code := c; message := Some m |})) :
  let r := ReadItem F k itemID partitionKey w in
  fst r = ("", Some (CosmosError c (bytes m))) /\
  Error (CosmosError c (bytes m)) = "Cosmos error " ++ fmt_d c ++ ": " ++ bytes m /\
  events_since w (snd r)
  = [E_CString (Z.pos (brk w)) itemID;
     E_CString (Z.pos (Pos.succ (brk w))) partitionKey;
     E_cosmos_container_read_item (container k)
       (Z.pos (Pos.succ (brk w))) (Z.pos (brk w));
     E_free (Z.pos (Pos.succ (brk w))); E_free (Z.pos (brk w))].
Proof.
  intros r. subst r.
  destruct (ReadItem_open F k itemID partitionKey w rc out _ Hopen Hcall) as [E1 E2].
  apply Z.eqb_neq in Hrc. rewrite Hrc in E1, E2. cbn [negb] in E1, E2.
  rewrite E1, E2. unfold newCosmosError. cbn [code message C_GoString].
  apply Z.eqb_neq in Hc. unfold COSMOS_ERROR_CODE_SUCCESS. rewrite Hc.
  rewrite (to_int32_id c Hrange).
  split; [reflexivity |]. split; reflexivity.
Qed.

Lemma ReadItem_failure_witness :
  let F := constant_double 7 0 (Some {| addr := 9000; bytes := "{}" |})
             {| code := 7; message := Some {| addr := 500; bytes := "boom" |} |} in
  let r := ReadItem F demo_container "item7" "partition7" empty_world in
  fst r = ("", Some (CosmosError 7 "boom")) /\
  Error (CosmosError 7 "boom") = "Cosmos error 7: boom" /\
  events_since empty_world (snd r)
  = [E_CString 1 "item7"; E_CString 2 "partition7";
     E_cosmos_container_read_item 4242 2 1; E_free 2; E_free 1].
Proof.
  intros F.
  apply (ReadItem_failure F demo_container "item7" "partition7"
           empty_world 7 7 (Some {| addr := 9000; bytes := "{}" |})
           {| addr := 500; bytes := "boom" |});
    try discriminate; try lia; reflexivity.
Defined.

(** X8: [Close] on an open wrapper makes exactly one call, the destructor
    of its kind on its handle, and leaves a wrapper on which the domain
    operation reports the closed error without any call. *)
Theorem Close_then_use (F : Foreign) (w : World)
    (c : CosmosClient) (d : DatabaseClient) (k : ContainerClient)
    (databaseID containerID itemID partitionKey : string)
    (Hc : client c <> NULL) (Hd : database d <> NULL) (Hk : container k <> NULL) :
  (let cw := Client.Close c w in
   events_since w (snd cw) = [E_cosmos_client_free (client c)] /\
   CosmosClient_DatabaseClient F (fst cw) databaseID (snd cw)
   = (None, Some (Errorf "client is closed"), snd cw)) /\
  (let dw := Database.Close d w in
   events_since w (snd dw) = [E_cosmos_database_free (database d)] /\
   DatabaseClient_ContainerClient F (fst dw) containerID (snd dw)
   = (None, Some (Errorf "database client is closed"), snd dw)) /\
  (let kw := Container.Close k w in
   events_since w (snd kw) = [E_cosmos_container_free (container k)] /\
   ReadItem F (fst kw) itemID partitionKey (snd kw)
   = ("", Some (Errorf "container client is closed"), snd kw)).
Proof.
  apply Z.eqb_neq in Hc, Hd, Hk.
  rewrite Client_Close_eq, Database_Close_eq, Container_Close_eq.
  rewrite Hc, Hd, Hk. cbn [fst snd].
  repeat split; apply events_since_emit.
Qed.

Lemma Close_then_use_witness :
  let kw := Container.Close demo_container empty_world in
  events_since empty_world (snd kw) = [E_cosmos_container_free 4242] /\
  ReadItem demo_double (fst kw) "item7" "partition7" (snd kw)
  = ("", Some (Errorf "container client is closed"), snd kw).
Proof.
  exact (proj2 (proj2 (Close_then_use demo_double empty_world
                         {| client := 11; client_finalizer := true |}
                         {| database := 12; database_finalizer := true |}
                         demo_container "db" "RandomDocs" "item7" "partition7"
                         ltac:(discriminate) ltac:(discriminate) ltac:(discriminate)))).
Defined.

Lemma Client_collect_registered (c : CosmosClient) (w : World) :
  client_finalizer c = true -> Client.collect c w = Client.Close c w.
Proof. unfold Client.collect, Client.Close. intros ->. reflexivity. Qed.

Lemma Database_collect_registered (d : DatabaseClient) (w : World) :
  database_finalizer d = true -> Database.collect d w = Database.Close d w.
Proof. unfold Database.collect, Database.Close. intros ->. reflexivity. Qed.

Lemma Container_collect_registered (c : ContainerClient) (w : World) :
  container_finalizer c = true -> Container.collect c w = Container.Close c w.
Proof. unfold Container.collect, Container.Close. intros ->. reflexivity. Qed.

(** X9: every wrapper a constructor returns has its finalizer registered,
    so when the collector reclaims a wrapper that was never closed it
    calls the destructor of its kind once on the handle (if the handle is
    not nil) and leaves nothing for a later [Close] to release. *)
Theorem finalizer_safety_net (F : Foreign) (w w2 : World) :
  (forall endpoint key c e w',
     NewCosmosClientWithKey F endpoint key w = (Some c, e, w') ->
     client_finalizer c = true /\
     (client c <> NULL ->
      events_since w2 (snd (Client.collect c w2)) = [E_cosmos_client_free (client c)]) /\
     forall ops, run_ops client_op ops (Client.collect c w2) = Client.collect c w2) /\
  (forall p databaseID d e w',
     CosmosClient_DatabaseClient F p databaseID w = (Some d, e, w') ->
     database_finalizer d = true /\
     (database d <> NULL ->
      events_since w2 (snd (Database.collect d w2))
      = [E_cosmos_database_free (database d)]) /\
     forall ops, run_ops database_op ops (Database.collect d w2) = Database.collect d w2) /\
  (forall p containerID k e w',
     DatabaseClient_ContainerClient F p containerID w = (Some k, e, w') ->
     container_finalizer k = true /\
     (container k <> NULL ->
      events_since w2 (snd (Container.collect k w2))
      = [E_cosmos_container_free (container k)]) /\
     forall ops, run_ops container_op ops (Container.collect k w2) = Container.collect k w2).
Proof.
  split; [| split].
  - intros endpoint key c e w' H. unfold NewCosmosClientWithKey in H.
    cbn [C_CString] in H.
    destruct (cosmos_client_create_with_key F _ endpoint key) as [[rc h] cerr].
    destruct (negb (rc =? COSMOS_ERROR_CODE_SUCCESS)); [discriminate |].
    injection H as <- _ _. cbn [client client_finalizer].
    split; [reflexivity |].
    rewrite Client_collect_registered by reflexivity.
    rewrite Client_Close_eq. cbn [client fst snd]. split.
    + intros Hh. apply Z.eqb_neq in Hh. rewrite Hh. apply events_since_emit.
    + intros ops. apply client_ops_closed.
  - intros p databaseID d e w' H. unfold CosmosClient_DatabaseClient in H.
    destruct (client p =? NULL); [discriminate |]. cbn [C_CString] in H.
    destruct (cosmos_client_database_client F _ (client p) databaseID)
      as [[rc h] cerr].
    destruct (negb (rc =? COSMOS_ERROR_CODE_SUCCESS)); [discriminate |].
    injection H as <- _ _. cbn [database database_finalizer].
    split; [reflexivity |].
    rewrite Database_collect_registered by reflexivity.
    rewrite Database_Close_eq. cbn [database fst snd]. split.
    + intros Hh. apply Z.eqb_neq in Hh. rewrite Hh. apply events_since_emit.
    + intros ops. apply database_ops_closed.
  - intros p containerID k e w' H. unfold DatabaseClient_ContainerClient in H.
    destruct (database p =? NULL); [discriminate |]. cbn [C_CString] in H.
    destruct (cosmos_database_container_client F _ (database p) containerID)
      as [[rc h] cerr].
    destruct (negb (rc =? COSMOS_ERROR_CODE_SUCCESS)); [discriminate |].
    injection H as <- _ _. cbn [container container_finalizer].
    split; [reflexivity |].
    rewrite Container_collect_registered by reflexivity.
    rewrite Container_Close_eq. cbn [container fst snd]. split.
    + intros Hh. apply Z.eqb_neq in Hh. rewrite Hh. apply events_since_emit.
    + intros ops. apply container_ops_closed.
Qed.

Lemma finalizer_safety_net_witness :
  events_since empty_world
    (snd (Client.collect {| client := 4242; client_finalizer := true |} empty_world))
  = [E_cosmos_client_free 4242].
Proof.
  destruct (proj1 (finalizer_safety_net demo_double empty_world empty_world)
              "https://localhost:8080" "key"
              {| client := 4242; client_finalizer := true |} None
              (snd (NewCosmosClientWithKey demo_double
                      "https://localhost:8080" "key" empty_world))
              eq_refl) as (_ & H & _).
  apply H. discriminate.
Defined.

(** ** The harness: what every run keeps *)

Lemma live_le_length (l : list wpc) : live l <= Z.of_nat (length l).
Proof.
  induction l as [| pc l IH]; simpl length; cbn [live]; [lia |].
  destruct (is_exited pc); lia.
Qed.

(** X10: in every state a run of [executeBenchmark] can reach, the
    [WaitGroup] counter is the number of workers that have not returned;
    it is never negative, and never more than [workers] goroutines (none
    when [workers <= 0]) have been started. *)
Theorem wait_group_counts_live_workers
    (F : Foreign) (k : ContainerClient)
    (itemCount partitionCount nworkers startTime duration : Z)
    (w : World) (s : Bench)
    (Hreach : reachable F k itemCount partitionCount nworkers startTime duration w s) :
  wg s = live (workers s) /\
  0 <= wg s <= Z.of_nat (length (workers s)) /\
  Z.of_nat (length (workers s)) <= Z.max 0 nworkers.
Proof.
  destruct (reachable_inv _ _ _ _ _ _ _ _ _ Hreach) as (Iwg & _ & Ilen & _).
  split; [exact Iwg |]. rewrite Iwg.
  pose proof (live_nonneg (workers s)). pose proof (live_le_length (workers s)).
  split; [lia |].
  destruct (main s); lia.
Qed.

Lemma wait_group_counts_live_workers_witness :
  exists s,
    demo_run demo_schedule (init empty_world) = Some s /\
    wg s = live (workers s) /\
    0 <= wg s <= Z.of_nat (length (workers s)) /\
    Z.of_nat (length (workers s)) <= Z.max 0 1.
Proof.
  eexists. split; [vm_compute; reflexivity |].
  apply (wait_group_counts_live_workers demo_double demo_container
           10000 10 1 0 60000000000 empty_world).
  exists demo_schedule. vm_compute. reflexivity.
Defined.

Section Signals.

Variable F : Foreign.
Variable container_client : ContainerClient.
Variables itemCount partitionCount nworkers : Z.
Variables startTime duration : Z.

Local Abbreviation step' :=
  (step F container_client itemCount partitionCount nworkers startTime duration).
Local Abbreviation run' :=
  (run F container_client itemCount partitionCount nworkers startTime duration).
Local Abbreviation reachable' :=
  (reachable F container_client itemCount partitionCount nworkers startTime duration).

Lemma step_signals (l : label) (s s' : Bench) :
  step' l s = Some s' ->
  (ctx_done s = true -> ctx_done s' = true) /\
  (stop_closed s = true -> stop_closed s' = true) /\
  (stop_inv s -> stop_inv s').
Proof.
  intros H. unfold step in H. destruct (panicked s); [discriminate |].
  unfold stop_inv.
  destruct l as [now | i v now | | now].
  - unfold main_step in H. destruct (main s) eqn:M.
    + destruct (i <? nworkers); injection H as <-; cbn; auto.
    + destruct (ctx_done s) eqn:C; [| discriminate].
      injection H as <-; cbn; rewrite ?C; auto.
    + injection H as <-; cbn; auto.
    + destruct (wg s =? 0); [| discriminate]. injection H as <-; cbn; auto.
    + injection H as <-; cbn; auto.
    + discriminate.
  - destruct (workers s !! i) as [pc |]; [| discriminate].
    destruct (worker_step _ _ _ _ i v now pc s) as [[pc' s1] |] eqn:Hw;
      [| discriminate].
    injection H as <-. cbn.
    destruct (worker_step_frame _ _ _ _ _ _ _ _ _ _ _ Hw) as (-> & _ & -> & -> & _).
    auto.
  - injection H as <-. cbn. auto.
  - unfold ticker_step in H. destruct (main s) eqn:M; [discriminate | | | | |];
      destruct (0 <? _); injection H as <-; cbn; rewrite ?M; auto.
Qed.

Lemma run_stop_inv (ls : list label) (s s' : Bench) :
  stop_inv s -> run' ls s = Some s' -> stop_inv s'.
Proof.
  revert s. induction ls as [| l ls IH]; intros s I H; simpl in H.
  - injection H as <-. exact I.
  - destruct (step' l s) as [s1 |] eqn:E; [| discriminate].
    apply (IH s1); [| exact H]. exact (proj2 (proj2 (step_signals l s s1 E)) I).
Qed.

(** X11: the two signals only ever go from unfired to fired, and the stop
    channel is closed only after the context is done: in every reachable
    state a closed stop channel implies a done context, so a worker that
    returns at its check always does so with the context done. *)
Theorem stop_follows_context (w : World) (s : Bench) (Hreach : reachable' w s) :
  (stop_closed s = true -> ctx_done s = true) /\
  (forall l s',
     step' l s = Some s' ->
     (ctx_done s = true -> ctx_done s' = true) /\
     (stop_closed s = true -> stop_closed s' = true)) /\
  (forall i v now s',
     workers s !! i = Some W_select ->
     step' (L_worker i v now) s = Some s' ->
     workers s' !! i = Some W_exited ->
     ctx_done s = true).
Proof.
  pose proof (reachable_inv _ _ _ _ _ _ _ _ _ Hreach) as (_ & _ & _ & Isig & _).
  assert (Istop : stop_inv s).
  { destruct Hreach as [ls Hrun].
    apply (run_stop_inv ls (init w)); [reflexivity | exact Hrun]. }
  assert (Hsc : stop_closed s = true -> ctx_done s = true).
  { intros Hs. unfold stop_inv in Istop.
    destruct (main s); try (rewrite Hs in Istop; discriminate); tauto. }
  split; [exact Hsc |]. split.
  - intros l s' H. destruct (step_signals l s s' H) as (H1 & H2 & _). auto.
  - intros i v now s' Hpc H Hex.
    pose proof (worker_moves _ _ _ _ _ _ _ _ _ _ _ _ _ Hpc H) as M. cbn in M.
    rewrite M in Hex.
    destruct (ctx_done s) eqn:C; [reflexivity |].
    destruct (stop_closed s) eqn:S; [now apply Hsc | discriminate].
Qed.

(** One move of a worker after a signal brings it closer to its return,
    unless it panics. *)
Lemma worker_move_decreases (s s' : Bench) (i : nat) (v now : Z) (pc : wpc) :
  ctx_done s || stop_closed s = true ->
  workers s !! i = Some pc ->
  step' (L_worker i v now) s = Some s' ->
  (1 <= moves_left pc)%nat /\
  (panicked s' = true \/
   exists pc', workers s' !! i = Some pc' /\ (moves_left pc' < moves_left pc)%nat).
Proof.
  intros Hsig Hpc H.
  pose proof (worker_moves _ _ _ _ _ _ _ _ _ _ _ _ _ Hpc H) as M.
  destruct pc; cbn [moves_left]; try contradiction.
  - rewrite Hsig in M. split; [lia |]. right. exists W_exited. cbn. split; [exact M | lia].
  - split; [lia |].
    destruct M as [[_ P] | (id & pk & E & _)]; [now left |].
    right. eexists. split; [exact E |]. cbn. lia.
  - split; [lia |]. right.
    destruct M as [E | E]; eexists; (split; [exact E | cbn; lia]).
  - split; [lia |]. right. exists W_select. cbn. split; [exact M | lia].
Qed.

Lemma run_after_panic (ls : list label) (s s' : Bench) :
  panicked s = true -> run' ls s = Some s' -> ls = [].
Proof.
  intros P H. destruct ls as [| l ls]; [reflexivity |].
  simpl in H. unfold step in H. rewrite P in H. discriminate.
Qed.

(** X12: bounded overshoot.  From a state in which either signal has
    fired, whatever the schedule, a worker makes at most as many further
    moves as it takes to finish the iteration it is in and return at its
    next check: one move from the check, four at most. *)
Theorem bounded_overshoot (ls : list label) (s s' : Bench) (i : nat) (pc : wpc)
    (Hsig : ctx_done s || stop_closed s = true)
    (Hpc : workers s !! i = Some pc)
    (Hrun : run' ls s = Some s') :
  (moves_of i ls <= moves_left pc)%nat /\ (moves_left pc <= 4)%nat.
Proof.
  split; [| destruct pc; cbn; lia].
  revert s pc Hsig Hpc Hrun.
  induction ls as [| l ls IH]; intros s pc Hsig Hpc Hrun.
  - unfold moves_of. simpl. lia.
  - simpl in Hrun. destruct (step' l s) as [s1 |] eqn:E; [| discriminate].
    assert (Hsig1 : ctx_done s1 || stop_closed s1 = true).
    { destruct (step_signals l s s1 E) as (H1 & H2 & _).
      apply orb_true_iff in Hsig. apply orb_true_iff. tauto. }
    unfold moves_of. cbn [List.filter].
    destruct (is_move_of i l) eqn:Hm.
    + destruct l as [| j v now | |]; try discriminate.
      cbn in Hm. apply Nat.eqb_eq in Hm. subst j.
      destruct (worker_move_decreases s s1 i v now pc Hsig Hpc E)
        as [Hpos [P | (pc' & Hpc' & Hlt)]].
      * rewrite (run_after_panic ls s1 s' P Hrun). simpl. lia.
      * specialize (IH s1 pc' Hsig1 Hpc' Hrun). unfold moves_of in IH.
        simpl. lia.
    + assert (Hpc1 : workers s1 !! i = Some pc).
      { apply (others_do_not_move _ _ _ _ _ _ _ l s s1 i pc E); [| exact Hpc].
        intros v now ->. cbn in Hm. rewrite Nat.eqb_refl in Hm. discriminate. }
      exact (IH s1 pc Hsig1 Hpc1 Hrun).
Qed.

End Signals.

Lemma stop_follows_context_witness :
  exists s,
    demo_run demo_schedule (init empty_world) = Some s /\
    (stop_closed s = true -> ctx_done s = true).
Proof.
  eexists. split; [vm_compute; reflexivity |].
  apply (stop_follows_context demo_double demo_container
           10000 10 1 0 60000000000 empty_world).
  exists demo_schedule. vm_compute. reflexivity.
Defined.

Lemma bounded_overshoot_witness :
  (moves_of 0 overshoot_schedule <= moves_left W_default)%nat /\
  (moves_left W_default <= 4)%nat.
Proof.
  assert (H : exists s', demo_run overshoot_schedule late_state = Some s')
    by (vm_compute; eexists; reflexivity).
  destruct H as [s' H].
  exact (bounded_overshoot demo_double demo_container 10000 10 1 0 60000000000
           overshoot_schedule late_state s' 0%nat W_default eq_refl eq_refl H).
Defined.

(** ** The harness: counters and calls *)

(** What one [ReadItem] adds to the trace: no destructor, at most one
    native read, and exactly one whenever it returns no error; nothing at
    all on a closed container. *)
Lemma ReadItem_adds (F : Foreign) (k : ContainerClient)
    (itemID partitionKey : string) (w : World) :
  exists added,
    trace (snd (ReadItem F k itemID partitionKey w)) = (trace w ++ added)%list /\
    count_if is_destructor added = 0%nat /\
    (count_if is_read added <= 1)%nat /\
    (snd (fst (ReadItem F k itemID partitionKey w)) = None ->
     count_if is_read added = 1%nat) /\
    (container k = NULL -> snd (ReadItem F k itemID partitionKey w) = w).
Proof.
  unfold ReadItem.
  destruct (Z.eqb_spec (container k) NULL) as [E | E].
  - exists []. cbn [fst snd]. rewrite app_nil_r.
    repeat split; try reflexivity; try (unfold count_if; simpl; lia).
    discriminate.
  - cbn [C_CString emit C_free trace brk].
    destruct (cosmos_container_read_item F _ (container k) partitionKey itemID)
      as [[rc out] cerr].
    destruct (negb (rc =? COSMOS_ERROR_CODE_SUCCESS)); [| destruct out as [b |]];
      cbn [fst snd trace emit C_free C_GoString];
      rewrite <- ?app_assoc; cbn [app]; eexists;
      (split; [reflexivity |]); unfold count_if; simpl;
      repeat split; try lia; try reflexivity; try contradiction.
Qed.

Lemma to_int64_succ (k : Z) : to_int64 (to_int64 k + 1) = to_int64 (k + 1).
Proof.
  unfold to_int64.
  replace ((k + 2 ^ 63) mod 2 ^ 64 - 2 ^ 63 + 1 + 2 ^ 63)
    with ((k + 2 ^ 63) mod 2 ^ 64 + 1) by lia.
  replace (k + 1 + 2 ^ 63) with ((k + 2 ^ 63) + 1) by lia.
  now rewrite Zplus_mod_idemp_l.
Qed.

Section Runs.

Variable F : Foreign.
Variable container_client : ContainerClient.
Variables itemCount partitionCount nworkers : Z.
Variables startTime duration : Z.

Local Abbreviation step' :=
  (step F container_client itemCount partitionCount nworkers startTime duration).
Local Abbreviation run' :=
  (run F container_client itemCount partitionCount nworkers startTime duration).
Local Abbreviation reachable' :=
  (reachable F container_client itemCount partitionCount nworkers startTime duration).

Lemma run_app (ls ls' : list label) (s : Bench) :
  run' (ls ++ ls') s
  = match run' ls s with Some s1 => run' ls' s1 | None => None end.
Proof.
  revert s. induction ls as [| l ls IH]; intros s; simpl; [reflexivity |].
  destruct (step' l s); [apply IH | reflexivity].
Qed.

(** Induction over the reachable states. *)
Lemma reachable_induction (w : World) (P : Bench -> Prop) :
  P (init w) ->
  (forall l s s', reachable' w s -> P s -> step' l s = Some s' -> P s') ->
  forall s, reachable' w s -> P s.
Proof.
  intros H0 Hstep s [ls Hrun]. revert s Hrun.
  induction ls as [| l ls IH] using rev_ind; intros s Hrun.
  - simpl in Hrun. injection Hrun as <-. exact H0.
  - rewrite run_app in Hrun.
    destruct (run' ls (init w)) as [s1 |] eqn:E; [| discriminate].
    simpl in Hrun. destruct (step' l s1) as [s2 |] eqn:E2; [| discriminate].
    injection Hrun as <-.
    apply (Hstep l s1 s2); [now exists ls | now apply IH | exact E2].
Qed.

End Runs.

Section Counters.

Variable F : Foreign.
Variable container_client : ContainerClient.
Variables itemCount partitionCount nworkers : Z.
Variables startTime duration : Z.

Local Abbreviation step' :=
  (step F container_client itemCount partitionCount nworkers startTime duration).
Local Abbreviation reachable' :=
  (reachable F container_client itemCount partitionCount nworkers startTime duration).

(** As long as the reads that complete return errors, nothing is
    counted. *)
Lemma step_no_success (l : label) (s s' : Bench) :
  no_success_yet s ->
  (forall i itemID partitionKey opStart,
     workers s !! i = Some (W_reading itemID partitionKey opStart) ->
     snd (fst (ReadItem F container_client itemID partitionKey (world s))) <> None) ->
  step' l s = Some s' ->
  no_success_yet s'.
Proof.
  intros (Hops & Hlat & Hall) Hfail H.
  unfold step in H. destruct (panicked s); [discriminate |].
  unfold no_success_yet.
  destruct l as [now | i v now | | now].
  - unfold main_step in H. destruct (main s).
    + destruct (i <? nworkers); injection H as <-; cbn; repeat split; auto.
      apply Forall_app. split; [exact Hall |]. now constructor.
    + destruct (ctx_done s); [| discriminate]. injection H as <-; cbn; auto.
    + injection H as <-; cbn; auto.
    + destruct (wg s =? 0); [| discriminate]. injection H as <-; cbn; auto.
    + injection H as <-; cbn; auto.
    + discriminate.
  - destruct (workers s !! i) as [pc |] eqn:Hpc; [| discriminate].
    unfold worker_step in H. destruct pc.
    + destruct (ctx_done s || stop_closed s); injection H as <-; cbn;
        repeat split; auto; now apply Forall_insert.
    + destruct (Intn itemCount v) as [idx |];
        [destruct (worker_keys idx partitionCount) as [[id pk] |] |];
        injection H as <-; cbn; repeat split; auto; now apply Forall_insert.
    + specialize (Hfail i _ _ _ Hpc).
      destruct (ReadItem F container_client itemID partitionKey (world s))
        as [[res [e |]] w1]; [| now contradiction Hfail].
      injection H as <-; cbn. repeat split; auto. now apply Forall_insert.
    + exfalso. rewrite Forall_forall in Hall.
      assert (Hin : W_add_latency opLatency ∈ workers s)
        by (eapply list_elem_of_lookup_2; eauto).
      specialize (Hall _ Hin). discriminate.
    + discriminate.
  - injection H as <-; cbn; auto.
  - unfold ticker_step in H. destruct (main s); [discriminate | | | | |];
      destruct (0 <? _); injection H as <-; cbn; auto.
Qed.

Lemma init_no_success (w : World) : no_success_yet (init w).
Proof. unfold no_success_yet, init. cbn. auto. Qed.

Lemma no_success_result (s : Bench) (r : option BenchmarkResults * option error) :
  harness_inv nworkers s -> no_success_yet s -> main s = M_return r ->
  r = (None, Some NoOperationsCompletedError).
Proof.
  intros (_ & _ & _ & _ & Iret) (Hops & Hlat & _) M.
  destruct (Iret r M) as [e ->]. rewrite Hops. reflexivity.
Qed.

(** X13: a run in which every read returns an error counts nothing: both
    counters stay zero in every reachable state, and when
    [executeBenchmark] returns it returns the error "no operations
    completed" and no results. *)
Theorem failing_reads_complete_nothing (w : World) (s : Bench)
    (Hfail : forall itemID partitionKey w1,
        snd (fst (ReadItem F container_client itemID partitionKey w1)) <> None)
    (Hreach : reachable' w s) :
  totalOps s = 0 /\ totalLatency s = 0 /\
  forall r, main s = M_return r -> r = (None, Some NoOperationsCompletedError).
Proof.
  assert (Z0 : no_success_yet s).
  { revert s Hreach. apply reachable_induction; [apply init_no_success |].
    intros l s s' _ Hs H. apply (step_no_success l s s' Hs); [| exact H].
    intros. apply Hfail. }
  split; [apply Z0 |]. split; [apply Z0 |].
  intros r M. apply (no_success_result s r); auto.
  exact (reachable_inv _ _ _ _ _ _ _ _ _ Hreach).
Qed.

(** X14: a benchmark started on a closed container never crosses the cgo
    boundary: the world stays as it was, nothing is counted, and the run
    can only end in "no operations completed". *)
Theorem closed_container_run (w : World) (s : Bench)
    (Hclosed : container container_client = NULL)
    (Hreach : reachable' w s) :
  world s = w /\ totalOps s = 0 /\ totalLatency s = 0 /\
  forall r, main s = M_return r -> r = (None, Some NoOperationsCompletedError).
Proof.
  assert (Hfail : forall itemID partitionKey w1,
             snd (fst (ReadItem F container_client itemID partitionKey w1)) <> None).
  { intros. unfold ReadItem. rewrite Hclosed. cbn. discriminate. }
  assert (Z0 : world s = w /\ no_success_yet s).
  { revert s Hreach. apply reachable_induction; [split; [reflexivity | apply init_no_success] |].
    intros l s s' _ [Hw Hs] H. split.
    - clear Hs. unfold step in H. destruct (panicked s); [discriminate |].
      destruct l as [now | i v now | | now].
      + unfold main_step in H. destruct (main s); try discriminate;
          try (injection H as <-; exact Hw).
        * destruct (i <? nworkers); injection H as <-; exact Hw.
        * destruct (ctx_done s); [| discriminate]. injection H as <-; exact Hw.
        * destruct (wg s =? 0); [| discriminate]. injection H as <-; exact Hw.
      + destruct (workers s !! i) as [pc |]; [| discriminate].
        unfold worker_step in H. destruct pc; try discriminate.
        * destruct (ctx_done s || stop_closed s); injection H as <-; exact Hw.
        * destruct (Intn itemCount v) as [idx |];
            [destruct (worker_keys idx partitionCount) as [[id pk] |] |];
            injection H as <-; exact Hw.
        * pose proof (ReadItem_adds F container_client itemID partitionKey (world s))
            as (_ & _ & _ & _ & _ & Hsame).
          specialize (Hsame Hclosed).
          destruct (ReadItem F container_client itemID partitionKey (world s))
            as [[res [e |]] w1]; cbn in Hsame; subst w1;
            injection H as <-; exact Hw.
        * injection H as <-; exact Hw.
      + injection H as <-; exact Hw.
      + unfold ticker_step in H. destruct (main s); [discriminate | | | | |];
          destruct (0 <? _); injection H as <-; exact Hw.
    - apply (step_no_success l s s' Hs); [| exact H]. intros. apply Hfail. }
  destruct Z0 as [Hw Z0].
  split; [exact Hw |]. split; [apply Z0 |]. split; [apply Z0 |].
  intros r M. apply (no_success_result s r); auto.
  exact (reachable_inv _ _ _ _ _ _ _ _ _ Hreach).
Qed.

(** X15: with [workers <= 0] no goroutine is started, nothing is counted,
    and once the context is done [executeBenchmark] can only return the
    error "no operations completed". *)
Theorem no_workers_run (w : World) (s : Bench)
    (Hnone : nworkers <= 0)
    (Hreach : reachable' w s) :
  workers s = [] /\ world s = w /\ totalOps s = 0 /\
  forall r, main s = M_return r -> r = (None, Some NoOperationsCompletedError).
Proof.
  assert (Hempty : forall t, reachable' w t -> workers t = []).
  { intros t Ht.
    destruct (reachable_inv _ _ _ _ _ _ _ _ _ Ht) as (_ & _ & Ilen & _).
    apply length_zero_iff_nil. destruct (main t); lia. }
  assert (Z0 : world s = w /\ no_success_yet s).
  { revert s Hreach. apply reachable_induction; [split; [reflexivity | apply init_no_success] |].
    intros l s s' Hs [Hw Z0] H. split.
    - pose proof (Hempty s Hs) as He.
      unfold step in H. destruct (panicked s); [discriminate |].
      destruct l as [now | i v now | | now].
      + unfold main_step in H. destruct (main s); try discriminate;
          try (injection H as <-; exact Hw).
        * destruct (i <? nworkers); injection H as <-; exact Hw.
        * destruct (ctx_done s); [| discriminate]. injection H as <-; exact Hw.
        * destruct (wg s =? 0); [| discriminate]. injection H as <-; exact Hw.
      + rewrite He in H. discriminate.
      + injection H as <-; exact Hw.
      + unfold ticker_step in H. destruct (main s); [discriminate | | | | |];
          destruct (0 <? _); injection H as <-; exact Hw.
    - apply (step_no_success l s s' Z0); [| exact H].
      intros i id pk t Hpc. rewrite (Hempty s Hs) in Hpc. discriminate. }
  destruct Z0 as [Hw Z0].
  split; [now apply Hempty |]. split; [exact Hw |]. split; [apply Z0 |].
  intros r M. apply (no_success_result s r); auto.
  exact (reachable_inv _ _ _ _ _ _ _ _ _ Hreach).
Qed.

End Counters.

Lemma failing_reads_complete_nothing_witness :
  exists s,
    run failing_double demo_container 10000 10 1 0 60000000000
      error_schedule (init empty_world) = Some s /\
    totalOps s = 0 /\ totalLatency s = 0 /\
    main s = M_return (None, Some NoOperationsCompletedError).
Proof.
  eexists. split; [vm_compute; reflexivity |].
  match goal with
  | |- totalOps ?s = _ /\ _ =>
      destruct (failing_reads_complete_nothing failing_double demo_container
                  10000 10 1 0 60000000000 empty_world s) as (H1 & H2 & H3)
  end.
  - intros itemID partitionKey w1. cbn. discriminate.
  - exists error_schedule. vm_compute. reflexivity.
  - split; [exact H1 |]. split; [exact H2 |]. reflexivity.
Defined.

Lemma closed_container_run_witness :
  exists s,
    run demo_double closed_container 10000 10 1 0 60000000000
      error_schedule (init empty_world) = Some s /\
    world s = empty_world /\ totalOps s = 0 /\
    main s = M_return (None, Some NoOperationsCompletedError).
Proof.
  eexists. split; [vm_compute; reflexivity |].
  match goal with
  | |- world ?s = _ /\ _ =>
      destruct (closed_container_run demo_double closed_container
                  10000 10 1 0 60000000000 empty_world s) as (H1 & H2 & _)
  end.
  - reflexivity.
  - exists error_schedule. vm_compute. reflexivity.
  - split; [exact H1 |]. split; [exact H2 |]. reflexivity.
Defined.

Lemma no_workers_run_witness :
  exists s,
    run demo_double demo_container 10000 10 0 0 60000000000
      idle_schedule (init empty_world) = Some s /\
    workers s = [] /\ totalOps s = 0 /\
    main s = M_return (None, Some NoOperationsCompletedError).
Proof.
  eexists. split; [vm_compute; reflexivity |].
  match goal with
  | |- workers ?s = _ /\ _ =>
      destruct (no_workers_run demo_double demo_container
                  10000 10 0 0 60000000000 empty_world s) as (H1 & _ & H3 & _)
  end.
  - lia.
  - exists idle_schedule. vm_compute. reflexivity.
  - split; [exact H1 |]. split; [exact H3 |]. reflexivity.
Defined.

Lemma count_if_app (f : event -> bool) (l l' : list event) :
  count_if f (l ++ l') = (count_if f l + count_if f l')%nat.
Proof. unfold count_if. rewrite List.filter_app, length_app. reflexivity. Qed.

Section Reads.

Variable F : Foreign.
Variable container_client : ContainerClient.
Variables itemCount partitionCount nworkers : Z.
Variables startTime duration : Z.

Local Abbreviation step' :=
  (step F container_client itemCount partitionCount nworkers startTime duration).
Local Abbreviation reachable' :=
  (reachable F container_client itemCount partitionCount nworkers startTime duration).

(** A move that is not the completion of a read leaves the world and the
    operation counter alone. *)
Lemma step_world (l : label) (s s' : Bench) :
  step' l s = Some s' ->
  (world s' = world s /\ totalOps s' = totalOps s) \/
  exists i v now itemID partitionKey opStart,
    l = L_worker i v now /\
    workers s !! i = Some (W_reading itemID partitionKey opStart) /\
    world s' = snd (ReadItem F container_client itemID partitionKey (world s)) /\
    totalOps s'
    = match snd (fst (ReadItem F container_client itemID partitionKey (world s))) with
      | None => atomic_AddInt64 (totalOps s) 1
      | Some _ => totalOps s
      end.
Proof.
  intros H. unfold step in H. destruct (panicked s); [discriminate |].
  destruct l as [now | i v now | | now].
  - left. unfold main_step in H. destruct (main s); try discriminate;
      try (injection H as <-; split; reflexivity).
    + destruct (i <? nworkers); injection H as <-; split; reflexivity.
    + destruct (ctx_done s); [| discriminate]. injection H as <-; split; reflexivity.
    + destruct (wg s =? 0); [| discriminate]. injection H as <-; split; reflexivity.
  - destruct (workers s !! i) as [pc |] eqn:Hpc; [| discriminate].
    unfold worker_step in H. destruct pc; try discriminate.
    + left. destruct (ctx_done s || stop_closed s); injection H as <-; split; reflexivity.
    + left. destruct (Intn itemCount v) as [idx |];
        [destruct (worker_keys idx partitionCount) as [[id pk] |] |];
        injection H as <-; split; reflexivity.
    + right. exists i, v, now, itemID, partitionKey, opStart.
      split; [reflexivity |]. split; [exact Hpc |].
      destruct (ReadItem F container_client itemID partitionKey (world s))
        as [[res [e |]] w1]; injection H as <-; cbn; split; reflexivity.
    + left. injection H as <-; split; reflexivity.
  - left. injection H as <-; split; reflexivity.
  - left. unfold ticker_step in H. destruct (main s); [discriminate | | | | |];
      destruct (0 <? _); injection H as <-; split; reflexivity.
Qed.

(** The calls a run adds to the world and the operations it counts. *)
Lemma harness_trace_inv (w : World) (s : Bench) :
  reachable' w s ->
  exists added n,
    trace (world s) = (trace w ++ added)%list /\
    count_if is_destructor added = 0%nat /\
    0 <= n <= Z.of_nat (count_if is_read added) /\
    totalOps s = to_int64 n.
Proof.
  revert s. apply reachable_induction.
  - exists [], 0. cbn. rewrite app_nil_r.
    repeat split; try reflexivity; unfold count_if; simpl; lia.
  - intros l s s' _ (added & n & Ht & Hd & Hn & Hops) H.
    destruct (step_world l s s' H)
      as [[Ew Eo] | (i & v & now & id & pk & t0 & _ & _ & Ew & Eo)].
    + exists added, n. rewrite Ew, Eo. auto.
    + destruct (ReadItem_adds F container_client id pk (world s))
        as (added1 & Ht1 & Hd1 & Hr1 & Hok & _).
      rewrite Ew, Eo, Ht1, Ht, <- app_assoc.
      destruct (snd (fst (ReadItem F container_client id pk (world s)))) as [e |].
      * exists (added ++ added1)%list, n.
        rewrite !count_if_app, Hd, Hd1.
        repeat split; try reflexivity; try lia; try exact Hops.
      * exists (added ++ added1)%list, (n + 1).
        rewrite !count_if_app, Hd, Hd1, (Hok eq_refl).
        repeat split; try reflexivity; try lia.
        all: unfold atomic_AddInt64; rewrite Hops; apply to_int64_succ.
Qed.

(** X16: every operation the benchmark counts is backed by a native read:
    in every reachable state the operation counter is (the [int64] image
    of) a number between 0 and the number of [cosmos_container_read_item]
    calls made since the start, so as long as fewer than 2^63 reads were
    made it lies between 0 and that number; and the benchmark itself
    never calls a destructor. *)
Theorem counted_operations_are_reads (w : World) (s : Bench)
    (Hreach : reachable' w s) :
  let evs := events_since w (world s) in
  let reads := Z.of_nat (count_if is_read evs) in
  count_if is_destructor evs = 0%nat /\
  (exists n, 0 <= n <= reads /\ totalOps s = to_int64 n) /\
  (reads < 2 ^ 63 -> 0 <= totalOps s <= reads).
Proof.
  destruct (harness_trace_inv w s Hreach) as (added & n & Ht & Hd & Hn & Hops).
  intros evs reads. subst evs reads.
  rewrite (events_since_app _ _ _ Ht).
  split; [exact Hd |]. split; [now exists n |].
  intros Hlt. rewrite Hops, to_int64_id by (unfold int64_range; lia). lia.
Qed.

(** X17: with [item-count <= 0] or [partition-count = 0] no read is ever
    issued: the first worker that enters the default branch panics
    ([rand.Intn] on a non-positive bound, or [%] by zero), after which
    nothing moves; until then the world is untouched and nothing is
    counted. *)
Theorem bad_configuration_panics (w : World) (s : Bench)
    (Hbad : itemCount <= 0 \/ partitionCount = 0)
    (Hreach : reachable' w s) :
  world s = w /\ totalOps s = 0 /\
  Forall (fun pc => before_read pc = true) (workers s) /\
  forall i v now s',
    workers s !! i = Some W_default ->
    step' (L_worker i v now) s = Some s' ->
    panicked s' = true /\ forall l, step' l s' = None.
Proof.
  assert (Hkeys : forall v,
             match Intn itemCount v with
             | None => True
             | Some idx => worker_keys idx partitionCount = None
             end).
  { intros v. unfold Intn, worker_keys, go_rem.
    destruct Hbad as [Hi | ->].
    - destruct (Z.leb_spec itemCount 0); [exact I | lia].
    - destruct (itemCount <=? 0); [exact I | reflexivity]. }
  assert (Inv : world s = w /\ no_success_yet s /\
                Forall (fun pc => before_read pc = true) (workers s)).
  { revert s Hreach. apply reachable_induction.
    - split; [reflexivity |]. split; [apply init_no_success | constructor].
    - intros l s s' _ (Hw & Z0 & Hall) H.
      assert (Hnoread : forall i id pk t, workers s !! i <> Some (W_reading id pk t)).
      { intros i id pk t Hpc. rewrite Forall_forall in Hall.
        assert (Hin : W_reading id pk t ∈ workers s)
          by (eapply list_elem_of_lookup_2; eauto).
        specialize (Hall _ Hin). discriminate. }
      split; [| split].
      + destruct (step_world l s s' H)
          as [[Ew _] | (i & v & now & id & pk & t0 & _ & Hpc & _)].
        * now rewrite Ew.
        * now destruct (Hnoread _ _ _ _ Hpc).
      + apply (step_no_success F container_client itemCount partitionCount
                 nworkers startTime duration l s s' Z0); [| exact H].
        intros i id pk t Hpc. now destruct (Hnoread _ _ _ _ Hpc).
      + unfold step in H. destruct (panicked s); [discriminate |].
        destruct l as [now | i v now | | now].
        * unfold main_step in H. destruct (main s); try discriminate;
            try (injection H as <-; exact Hall).
          -- destruct (i <? nworkers); injection H as <-; cbn; [| exact Hall].
             apply Forall_app. split; [exact Hall | now constructor].
          -- destruct (ctx_done s); [| discriminate]. injection H as <-; exact Hall.
          -- destruct (wg s =? 0); [| discriminate]. injection H as <-; exact Hall.
        * destruct (workers s !! i) as [pc |] eqn:Hpc; [| discriminate].
          unfold worker_step in H. destruct pc; try discriminate.
          -- destruct (ctx_done s || stop_closed s); injection H as <-; cbn;
               now apply Forall_insert.
          -- specialize (Hkeys v).
             destruct (Intn itemCount v) as [idx |];
               [rewrite Hkeys in H |]; injection H as <-; cbn;
               now apply Forall_insert.
          -- now destruct (Hnoread _ _ _ _ Hpc).
          -- exfalso. rewrite Forall_forall in Hall.
             assert (Hin : W_add_latency opLatency ∈ workers s)
               by (eapply list_elem_of_lookup_2; eauto).
             specialize (Hall _ Hin). discriminate.
        * injection H as <-; exact Hall.
        * unfold ticker_step in H. destruct (main s); [discriminate | | | | |];
            destruct (0 <? _); injection H as <-; exact Hall. }
  destruct Inv as (Hw & Z0 & Hall).
  split; [exact Hw |]. split; [apply Z0 |]. split; [exact Hall |].
  intros i v now s' Hpc H.
  unfold step in H. destruct (panicked s); [discriminate |].
  rewrite Hpc in H. unfold worker_step in H. specialize (Hkeys v).
  assert (P : panicked s' = true).
  { destruct (Intn itemCount v) as [idx |]; [rewrite Hkeys in H |];
      injection H as <-; reflexivity. }
  split; [exact P |]. intros l. unfold step. now rewrite P.
Qed.

End Reads.

Lemma counted_operations_are_reads_witness :
  exists s,
    demo_run demo_schedule (init empty_world) = Some s /\
    count_if is_destructor (events_since empty_world (world s)) = 0%nat /\
    (1 < 2 ^ 63 -> 0 <= totalOps s <= 1).
Proof.
  eexists. split; [vm_compute; reflexivity |].
  match goal with
  | |- count_if _ (events_since _ (world ?s)) = _ /\ _ =>
      destruct (counted_operations_are_reads demo_double demo_container
                  10000 10 1 0 60000000000 empty_world s) as (H1 & _ & H3)
  end.
  - exists demo_schedule. vm_compute. reflexivity.
  - split; [exact H1 | exact H3].
Defined.

Lemma bad_configuration_panics_witness :
  exists s s',
    run demo_double demo_container 0 10 1 0 60000000000
      [L_main 0; L_worker 0 0 1] (init empty_world) = Some s /\
    world s = empty_world /\ totalOps s = 0 /\
    step demo_double demo_container 0 10 1 0 60000000000 (L_worker 0 5 2) s = Some s' /\
    panicked s' = true.
Proof.
  eexists. eexists. split; [vm_compute; reflexivity |].
  match goal with
  | |- world ?s = _ /\ _ =>
      destruct (bad_configuration_panics demo_double demo_container
                  0 10 1 0 60000000000 empty_world s) as (H1 & H2 & _ & H4)
  end.
  - left. lia.
  - exists [L_main 0; L_worker 0 0 1]. vm_compute. reflexivity.
  - split; [exact H1 |]. split; [exact H2 |].
    split; [vm_compute; reflexivity |].
    match goal with
    | |- panicked ?s' = true =>
        exact (proj1 (H4 0%nat 5 2 s' eq_refl eq_refl))
    end.
Defined.

(** ** The [pointRead] command *)

(** A constructor that is answered with the success code returns a wrapper
    around the handle it was given; its calls include no destructor and no
    read. *)
Lemma NewCosmosClientWithKey_success (F : Foreign) (endpoint key : string)
    (w : World) (hc : ptr) :
  (forall t ep k, exists e,
      cosmos_client_create_with_key F t ep k = (COSMOS_ERROR_CODE_SUCCESS, hc, e)) ->
  exists w1 added,
    NewCosmosClientWithKey F endpoint key w
    = (Some {| client := hc; client_finalizer := true |}, None, w1) /\
    trace w1 = (trace w ++ added)%list /\
    count_if is_destructor added = 0%nat /\ count_if is_read added = 0%nat.
Proof.
  intros Hopen. unfold NewCosmosClientWithKey. cbn [C_CString].
  match goal with
  | |- context [cosmos_client_create_with_key F ?t endpoint key] =>
      destruct (Hopen t endpoint key) as [e E]; rewrite E
  end.
  cbn [negb Z.eqb COSMOS_ERROR_CODE_SUCCESS].
  eexists _, _. split; [reflexivity |].
  cbn [C_free emit trace]. rewrite <- !app_assoc. cbn [app].
  split; [reflexivity |]. split; reflexivity.
Qed.

Lemma DatabaseClient_success (F : Foreign) (c : CosmosClient) (databaseID : string)
    (w : World) (hd : ptr) :
  client c <> NULL ->
  (forall t h id, exists e,
      cosmos_client_database_client F t h id = (COSMOS_ERROR_CODE_SUCCESS, hd, e)) ->
  exists w1 added,
    CosmosClient_DatabaseClient F c databaseID w
    = (Some {| database := hd; database_finalizer := true |}, None, w1) /\
    trace w1 = (trace w ++ added)%list /\
    count_if is_destructor added = 0%nat /\ count_if is_read added = 0%nat.
Proof.
  intros Hc Hopen. unfold CosmosClient_DatabaseClient.
  apply Z.eqb_neq in Hc. rewrite Hc. cbn [C_CString].
  match goal with
  | |- context [cosmos_client_database_client F ?t (client c) databaseID] =>
      destruct (Hopen t (client c) databaseID) as [e E]; rewrite E
  end.
  cbn [negb Z.eqb COSMOS_ERROR_CODE_SUCCESS].
  eexists _, _. split; [reflexivity |].
  cbn [C_free emit trace]. rewrite <- !app_assoc. cbn [app].
  split; [reflexivity |]. split; reflexivity.
Qed.

Lemma ContainerClient_success (F : Foreign) (d : DatabaseClient) (containerID : string)
    (w : World) (hk : ptr) :
  database d <> NULL ->
  (forall t h id, exists e,
      cosmos_database_container_client F t h id = (COSMOS_ERROR_CODE_SUCCESS, hk, e)) ->
  exists w1 added,
    DatabaseClient_ContainerClient F d containerID w
    = (Some {| container := hk; container_finalizer := true |}, None, w1) /\
    trace w1 = (trace w ++ added)%list /\
    count_if is_destructor added = 0%nat /\ count_if is_read added = 0%nat.
Proof.
  intros Hd Hopen. unfold DatabaseClient_ContainerClient.
  apply Z.eqb_neq in Hd. rewrite Hd. cbn [C_CString].
  match goal with
  | |- context [cosmos_database_container_client F ?t (database d) containerID] =>
      destruct (Hopen t (database d) containerID) as [e E]; rewrite E
  end.
  cbn [negb Z.eqb COSMOS_ERROR_CODE_SUCCESS].
  eexists _, _. split; [reflexivity |].
  cbn [C_free emit trace]. rewrite <- !app_assoc. cbn [app].
  split; [reflexivity |]. split; reflexivity.
Qed.

Lemma aggregate_error (finalOps finalLatency elapsed : Z) (e : error) :
  snd (aggregate finalOps finalLatency elapsed) = Some e ->
  e = NoOperationsCompletedError.
Proof.
  unfold aggregate. destruct (finalOps =? 0); cbn; intros H; [| discriminate].
  now injection H as <-.
Qed.

(** X18: the whole command on a library that opens every handle: whenever
    [runPointReadBenchmark] returns, it returns no error or the wrapped
    "no operations completed", and the last three calls it made are the
    destructors of the container, the database and the client, in that
    order (children before parents), each on the handle the library had
    returned; no destructor is called before them. *)
Theorem pointRead_releases_handles (F : Foreign) (cmd : Command)
    (startTime : Z) (ls : list label) (w w' : World) (hc hd hk : ptr)
    (res : option go_error)
    (Hflags : flags_ok cmd) (Hopens : opens F hc hd hk)
    (Hc : hc <> NULL) (Hd : hd <> NULL) (Hk : hk <> NULL)
    (Hrun : runPointReadBenchmark F cmd startTime ls w = Some (Returned res w')) :
  (res = None \/
   res = Some (Errorf_w "benchmark failed: " (Plain NoOperationsCompletedError))) /\
  exists body,
    events_since w w'
    = (body ++ [E_cosmos_container_free hk; E_cosmos_database_free hd;
                E_cosmos_client_free hc])%list /\
    count_if is_destructor body = 0%nat.
Proof.
  destruct Hflags as (F1 & F2 & F3 & F4 & F5 & F6 & F7 & F8).
  destruct Hopens as (O1 & O2 & O3).
  unfold runPointReadBenchmark, createCosmosClient, getTestDbClient in Hrun.
  destruct (GetInt cmd "item-count") as [itemCount e1]; cbn in F1; subst e1.
  destruct (GetDuration cmd "duration") as [duration e2]; cbn in F2; subst e2.
  destruct (GetInt cmd "partition-count") as [partitionCount e3]; cbn in F3; subst e3.
  destruct (GetInt cmd "workers") as [nworkers e4]; cbn in F4; subst e4.
  destruct (GetString cmd "container") as [containerName e5]; cbn in F5; subst e5.
  destruct (GetString cmd "endpoint") as [endpoint e6]; cbn in F6; subst e6.
  destruct (GetString cmd "key") as [key e7]; cbn in F7; subst e7.
  destruct (GetString cmd "database") as [databaseName e8]; cbn in F8; subst e8.
  destruct (NewCosmosClientWithKey_success F endpoint key w hc O1)
    as (w1 & a1 & E1 & T1 & D1 & _).
  rewrite E1 in Hrun.
  destruct (DatabaseClient_success F {| client := hc; client_finalizer := true |}
              databaseName w1 hd Hc O2) as (w2 & a2 & E2 & T2 & D2 & _).
  rewrite E2 in Hrun.
  destruct (ContainerClient_success F {| database := hd; database_finalizer := true |}
              containerName w2 hk Hd O3) as (w3 & a3 & E3 & T3 & D3 & _).
  rewrite E3 in Hrun.
  destruct (run F _ itemCount partitionCount nworkers startTime duration ls (init w3))
    as [s |] eqn:R; [| discriminate].
  destruct (panicked s); [discriminate |].
  assert (Hreach : reachable F {| container := hk; container_finalizer := true |}
                     itemCount partitionCount nworkers startTime duration w3 s)
    by (exists ls; exact R).
  destruct (harness_trace_inv _ _ _ _ _ _ _ _ _ Hreach) as (a4 & n & T4 & D4 & _).
  destruct (reachable_inv _ _ _ _ _ _ _ _ _ Hreach) as (_ & _ & _ & _ & Iret).
  destruct (main s) as [| | | | | [r1 r2]] eqn:M; try discriminate.
  destruct (Iret _ eq_refl) as [elapsed Er].
  assert (Hw' : trace w'
                = (trace (world s) ++ [E_cosmos_container_free hk;
                                       E_cosmos_database_free hd;
                                       E_cosmos_client_free hc])%list).
  { destruct r2 as [e |]; cbn in Hrun;
      rewrite Container_Close_eq, Database_Close_eq, Client_Close_eq in Hrun;
      cbn [container database client snd] in Hrun;
      apply Z.eqb_neq in Hc, Hd, Hk; rewrite Hc, Hd, Hk in Hrun;
      injection Hrun as _ <-; cbn [emit trace];
      rewrite <- !app_assoc; reflexivity. }
  split.
  - destruct r2 as [e |]; cbn in Hrun; injection Hrun as <- _; [right | now left].
    assert (e = NoOperationsCompletedError) as ->; [| reflexivity].
    apply (aggregate_error (totalOps s) (totalLatency s) elapsed).
    now rewrite <- Er.
  - exists (a1 ++ a2 ++ a3 ++ a4)%list. split.
    + apply events_since_app. rewrite Hw', T4. cbn [init world].
      rewrite T3, T2, T1, <- !app_assoc. reflexivity.
    + rewrite !count_if_app, D1, D2, D3, D4. reflexivity.
Qed.

Lemma pointRead_releases_handles_witness :
  exists w' body,
    runPointReadBenchmark demo_double demo_flags 0 demo_schedule empty_world
    = Some (Returned None w') /\
    events_since empty_world w'
    = (body ++ [E_cosmos_container_free 4242; E_cosmos_database_free 4242;
                E_cosmos_client_free 4242])%list /\
    count_if is_destructor body = 0%nat.
Proof.
  assert (H : exists w',
             runPointReadBenchmark demo_double demo_flags 0 demo_schedule empty_world
             = Some (Returned None w')) by (vm_compute; eexists; reflexivity).
  destruct H as [w' H]. exists w'.
  destruct (pointRead_releases_handles demo_double demo_flags 0 demo_schedule
              empty_world w' 4242 4242 4242 None) as (_ & body & Hb & Hd).
  - repeat split.
  - repeat split; intros; eexists; reflexivity.
  - discriminate.
  - discriminate.
  - discriminate.
  - exact H.
  - exists body. split; [exact H |]. split; [exact Hb | exact Hd].
Defined.

(** X19: when any of the flags [item-count], [duration],
    [partition-count], [workers], [container], [endpoint] or [key] cannot
    be read, the command returns an error and the world is untouched: no
    call crosses the cgo boundary and no worker is started. *)
Theorem flag_failure_calls_nothing (F : Foreign) (cmd : Command)
    (startTime : Z) (ls : list label) (w : World)
    (Hbad : snd (GetInt cmd "item-count") <> None \/
            snd (GetDuration cmd "duration") <> None \/
            snd (GetInt cmd "partition-count") <> None \/
            snd (GetInt cmd "workers") <> None \/
            snd (GetString cmd "container") <> None \/
            snd (GetString cmd "endpoint") <> None \/
            snd (GetString cmd "key") <> None) :
  exists err,
    runPointReadBenchmark F cmd startTime ls w = Some (Returned (Some err) w).
Proof.
  unfold runPointReadBenchmark, createCosmosClient.
  destruct (GetInt cmd "item-count") as [v1 [e1 |]]; [eexists; reflexivity |].
  destruct (GetDuration cmd "duration") as [v2 [e2 |]]; [eexists; reflexivity |].
  destruct (GetInt cmd "partition-count") as [v3 [e3 |]]; [eexists; reflexivity |].
  destruct (GetInt cmd "workers") as [v4 [e4 |]]; [eexists; reflexivity |].
  destruct (GetString cmd "container") as [v5 [e5 |]]; [eexists; reflexivity |].
  destruct (GetString cmd "endpoint") as [v6 [e6 |]]; [eexists; reflexivity |].
  destruct (GetString cmd "key") as [v7 [e7 |]]; [eexists; reflexivity |].
  cbn in Hbad. exfalso. tauto.
Qed.

Lemma flag_failure_calls_nothing_witness :
  exists err,
    runPointReadBenchmark demo_double
      {| GetInt := GetInt demo_flags;
         GetDuration := fun _ => (0, Some (Errorf "flag accessed but not defined: duration"));
         GetString := GetString demo_flags |}
      0 demo_schedule empty_world
    = Some (Returned (Some err) empty_world).
Proof.
  apply flag_failure_calls_nothing.
  right. left. discriminate.
Defined.

(** A constructor answered with a failure code returns what
    [newCosmosError] makes of the error struct; it calls no destructor
    and no read. *)
Lemma NewCosmosClientWithKey_failure (F : Foreign) (endpoint key : string)
    (w : World) (rc h : Z) (cerr : cosmos_error) :
  rc <> COSMOS_ERROR_CODE_SUCCESS ->
  (forall t ep k, cosmos_client_create_with_key F t ep k = (rc, h, cerr)) ->
  exists w1 added,
    NewCosmosClientWithKey F endpoint key w = (None, newCosmosError cerr, w1) /\
    trace w1 = (trace w ++ added)%list /\
    count_if is_destructor added = 0%nat /\ count_if is_read added = 0%nat.
Proof.
  intros Hrc Hfail. unfold NewCosmosClientWithKey. cbn [C_CString].
  rewrite Hfail. apply Z.eqb_neq in Hrc. rewrite Hrc. cbn [negb].
  eexists _, _. split; [reflexivity |].
  cbn [C_free emit trace]. rewrite <- !app_assoc. cbn [app].
  split; [reflexivity |]. split; reflexivity.
Qed.

Lemma DatabaseClient_failure (F : Foreign) (c : CosmosClient) (databaseID : string)
    (w : World) (rc h : Z) (cerr : cosmos_error) :
  client c <> NULL ->
  rc <> COSMOS_ERROR_CODE_SUCCESS ->
  (forall t hc id, cosmos_client_database_client F t hc id = (rc, h, cerr)) ->
  exists w1 added,
    CosmosClient_DatabaseClient F c databaseID w = (None, newCosmosError cerr, w1) /\
    trace w1 = (trace w ++ added)%list /\
    count_if is_destructor added = 0%nat /\ count_if is_read added = 0%nat.
Proof.
  intros Hc Hrc Hfail. unfold CosmosClient_DatabaseClient.
  apply Z.eqb_neq in Hc. rewrite Hc. cbn [C_CString].
  rewrite Hfail. apply Z.eqb_neq in Hrc. rewrite Hrc. cbn [negb].
  eexists _, _. split; [reflexivity |].
  cbn [C_free emit trace]. rewrite <- !app_assoc. cbn [app].
  split; [reflexivity |]. split; reflexivity.
Qed.

Lemma ContainerClient_failure (F : Foreign) (d : DatabaseClient) (containerID : string)
    (w : World) (rc h : Z) (cerr : cosmos_error) :
  database d <> NULL ->
  rc <> COSMOS_ERROR_CODE_SUCCESS ->
  (forall t hd id, cosmos_database_container_client F t hd id = (rc, h, cerr)) ->
  exists w1 added,
    DatabaseClient_ContainerClient F d containerID w = (None, newCosmosError cerr, w1) /\
    trace w1 = (trace w ++ added)%list /\
    count_if is_destructor added = 0%nat /\ count_if is_read added = 0%nat.
Proof.
  intros Hd Hrc Hfail. unfold DatabaseClient_ContainerClient.
  apply Z.eqb_neq in Hd. rewrite Hd. cbn [C_CString].
  rewrite Hfail. apply Z.eqb_neq in Hrc. rewrite Hrc. cbn [negb].
  eexists _, _. split; [reflexivity |].
  cbn [C_free emit trace]. rewrite <- !app_assoc. cbn [app].
  split; [reflexivity |]. split; reflexivity.
Qed.

Lemma newCosmosError_nonzero (c : Z) (m : cbuf) :
  c <> 0 -> - 2 ^ 31 <= c < 2 ^ 31 ->
  newCosmosError {| code := c; message := Some m |} = Some (CosmosError c (bytes m)).
Proof.
  intros Hc Hr. unfold newCosmosError, COSMOS_ERROR_CODE_SUCCESS. cbn [code message].
  apply Z.eqb_neq in Hc. rewrite Hc, (to_int32_id c Hr). reflexivity.
Qed.

(** X20: a failure while the handles are being acquired is returned
    wrapped with the name of the step, and the handles acquired so far are
    released in reverse order before the command returns: nothing after a
    failed client creation, the client after a failed database open, the
    database and then the client after a failed container open.  No read
    is made. *)
Theorem setup_failure_releases_acquired (F : Foreign) (cmd : Command)
    (startTime : Z) (ls : list label) (w : World)
    (hc hd rc h c : Z) (m : cbuf)
    (Hflags : flags_ok cmd)
    (Hrc : rc <> COSMOS_ERROR_CODE_SUCCESS)
    (Hcode : c <> 0) (Hrange : - 2 ^ 31 <= c < 2 ^ 31)
    (Hc : hc <> NULL) (Hd : hd <> NULL) :
  let cerr := {| code := c; message := Some m |} in
  let e := Plain (CosmosError c (bytes m)) in
  let result step_name released :=
    exists w' body,
      runPointReadBenchmark F cmd startTime ls w
      = Some (Returned (Some (Errorf_w step_name e)) w') /\
      events_since w w' = (body ++ released)%list /\
      count_if is_destructor body = 0%nat /\ count_if is_read body = 0%nat in
  ((forall t ep k, cosmos_client_create_with_key F t ep k = (rc, h, cerr)) ->
   result "failed to create Cosmos client: " []) /\
  ((forall t ep k, exists e', cosmos_client_create_with_key F t ep k
                              = (COSMOS_ERROR_CODE_SUCCESS, hc, e')) ->
   (forall t p id, cosmos_client_database_client F t p id = (rc, h, cerr)) ->
   result "failed to get database client: " [E_cosmos_client_free hc]) /\
  ((forall t ep k, exists e', cosmos_client_create_with_key F t ep k
                              = (COSMOS_ERROR_CODE_SUCCESS, hc, e')) ->
   (forall t p id, exists e', cosmos_client_database_client F t p id
                              = (COSMOS_ERROR_CODE_SUCCESS, hd, e')) ->
   (forall t p id, cosmos_database_container_client F t p id = (rc, h, cerr)) ->
   result "failed to get container client: "
     [E_cosmos_database_free hd; E_cosmos_client_free hc]) /\
  error_text (Errorf_w "failed to get database client: " e)
  = "failed to get database client: Cosmos error " ++ fmt_d c ++ ": " ++ bytes m.
Proof.
  intros cerr e result.
  destruct Hflags as (F1 & F2 & F3 & F4 & F5 & F6 & F7 & F8).
  assert (Herr : newCosmosError cerr = Some (CosmosError c (bytes m)))
    by now apply newCosmosError_nonzero.
  subst result. cbv beta.
  unfold runPointReadBenchmark, createCosmosClient, getTestDbClient.
  destruct (GetInt cmd "item-count") as [itemCount e1]; cbn in F1; subst e1.
  destruct (GetDuration cmd "duration") as [duration e2]; cbn in F2; subst e2.
  destruct (GetInt cmd "partition-count") as [partitionCount e3]; cbn in F3; subst e3.
  destruct (GetInt cmd "workers") as [nworkers e4]; cbn in F4; subst e4.
  destruct (GetString cmd "container") as [containerName e5]; cbn in F5; subst e5.
  destruct (GetString cmd "endpoint") as [endpoint e6]; cbn in F6; subst e6.
  destruct (GetString cmd "key") as [key e7]; cbn in F7; subst e7.
  destruct (GetString cmd "database") as [databaseName e8]; cbn in F8; subst e8.
  apply Z.eqb_neq in Hc as Hc', Hd as Hd'.
  split; [| split; [| split]].
  - intros O1.
    destruct (NewCosmosClientWithKey_failure F endpoint key w rc h cerr Hrc O1)
      as (w1 & a1 & E1 & T1 & D1 & R1).
    rewrite E1, Herr. exists w1, a1.
    split; [reflexivity |]. rewrite app_nil_r.
    split; [now apply events_since_app | now split].
  - intros O1 O2.
    destruct (NewCosmosClientWithKey_success F endpoint key w hc O1)
      as (w1 & a1 & E1 & T1 & D1 & R1).
    rewrite E1.
    destruct (DatabaseClient_failure F {| client := hc; client_finalizer := true |}
                databaseName w1 rc h cerr Hc Hrc O2) as (w2 & a2 & E2 & T2 & D2 & R2).
    rewrite E2, Herr. cbn [return_through deferred_client_Close].
    rewrite Client_Close_eq. cbn [client snd]. rewrite Hc'.
    eexists _, (a1 ++ a2)%list. split; [reflexivity |]. split.
    + apply events_since_app. cbn [emit trace]. rewrite T2, T1, <- !app_assoc.
      reflexivity.
    + rewrite !count_if_app, D1, D2, R1, R2. now split.
  - intros O1 O2 O3.
    destruct (NewCosmosClientWithKey_success F endpoint key w hc O1)
      as (w1 & a1 & E1 & T1 & D1 & R1).
    rewrite E1.
    destruct (DatabaseClient_success F {| client := hc; client_finalizer := true |}
                databaseName w1 hd Hc O2) as (w2 & a2 & E2 & T2 & D2 & R2).
    rewrite E2.
    destruct (ContainerClient_failure F {| database := hd; database_finalizer := true |}
                containerName w2 rc h cerr Hd Hrc O3) as (w3 & a3 & E3 & T3 & D3 & R3).
    rewrite E3, Herr.
    cbn [return_through deferred_client_Close deferred_database_Close].
    rewrite Database_Close_eq, Client_Close_eq. cbn [client database snd].
    rewrite Hc', Hd'.
    eexists _, (a1 ++ a2 ++ a3)%list. split; [reflexivity |]. split.
    + apply events_since_app. cbn [emit trace]. rewrite T3, T2, T1, <- !app_assoc.
      reflexivity.
    + rewrite !count_if_app, D1, D2, D3, R1, R2, R3. now split.
  - reflexivity.
Qed.

Lemma setup_failure_releases_acquired_witness :
  exists w' body,
    runPointReadBenchmark database_failing_double demo_flags 0 demo_schedule empty_world
    = Some (Returned
              (Some (Errorf_w "failed to get database client: "
                       (Plain (CosmosError 7 "boom")))) w') /\
    events_since empty_world w' = (body ++ [E_cosmos_client_free 11])%list /\
    count_if is_destructor body = 0%nat /\ count_if is_read body = 0%nat.
Proof.
  apply (proj1 (proj2 (setup_failure_releases_acquired database_failing_double
                         demo_flags 0 demo_schedule empty_world 11 12 7 0 7
                         {| addr := 500; bytes := "boom" |}
                         ltac:(repeat split) ltac:(discriminate) ltac:(discriminate)
                         ltac:(lia) ltac:(discriminate) ltac:(discriminate)))).
  - intros. eexists. reflexivity.
  - intros. reflexivity.
Defined.

(** X21: when the library answers the client creation (or the database
    open) with a failure code but leaves code 0 in the error struct, the
    constructor returns a nil wrapper and a nil error, the command takes
    the nil wrapper for a client, and the first method called on it
    panics: the failure is never reported as an error. *)
Theorem nil_wrapper_panics (F : Foreign) (cmd : Command)
    (startTime : Z) (ls : list label) (w : World)
    (hc rc h : Z) (msg : char_ptr)
    (Hflags : flags_ok cmd)
    (Hrc : rc <> COSMOS_ERROR_CODE_SUCCESS) (Hc : hc <> NULL) :
  let cerr := {| code := COSMOS_ERROR_CODE_SUCCESS; message := msg |} in
  ((forall t ep k, cosmos_client_create_with_key F t ep k = (rc, h, cerr)) ->
   runPointReadBenchmark F cmd startTime ls w = Some Panicked) /\
  ((forall t ep k, exists e', cosmos_client_create_with_key F t ep k
                              = (COSMOS_ERROR_CODE_SUCCESS, hc, e')) ->
   (forall t p id, cosmos_client_database_client F t p id = (rc, h, cerr)) ->
   runPointReadBenchmark F cmd startTime ls w = Some Panicked).
Proof.
  intros cerr.
  destruct Hflags as (F1 & F2 & F3 & F4 & F5 & F6 & F7 & F8).
  unfold runPointReadBenchmark, createCosmosClient, getTestDbClient.
  destruct (GetInt cmd "item-count") as [itemCount e1]; cbn in F1; subst e1.
  destruct (GetDuration cmd "duration") as [duration e2]; cbn in F2; subst e2.
  destruct (GetInt cmd "partition-count") as [partitionCount e3]; cbn in F3; subst e3.
  destruct (GetInt cmd "workers") as [nworkers e4]; cbn in F4; subst e4.
  destruct (GetString cmd "container") as [containerName e5]; cbn in F5; subst e5.
  destruct (GetString cmd "endpoint") as [endpoint e6]; cbn in F6; subst e6.
  destruct (GetString cmd "key") as [key e7]; cbn in F7; subst e7.
  destruct (GetString cmd "database") as [databaseName e8]; cbn in F8; subst e8.
  split.
  - intros O1.
    destruct (NewCosmosClientWithKey_failure F endpoint key w rc h cerr Hrc O1)
      as (w1 & a1 & E1 & _).
    rewrite E1. reflexivity.
  - intros O1 O2.
    destruct (NewCosmosClientWithKey_success F endpoint key w hc O1)
      as (w1 & a1 & E1 & _).
    rewrite E1.
    destruct (DatabaseClient_failure F {| client := hc; client_finalizer := true |}
                databaseName w1 rc h cerr Hc Hrc O2) as (w2 & a2 & E2 & _).
    rewrite E2. reflexivity.
Qed.

Lemma nil_wrapper_panics_witness :
  runPointReadBenchmark (constant_double 5 0 None no_error) demo_flags 0
    demo_schedule empty_world = Some Panicked.
Proof.
  apply (proj1 (nil_wrapper_panics (constant_double 5 0 None no_error) demo_flags 0
                  demo_schedule empty_world 11 5 0 None
                  ltac:(repeat split) ltac:(discriminate) ltac:(discriminate))).
  intros. reflexivity.
Defined.

(** ** The data loader *)

Lemma sum_over_app (f : lwpc -> Z) (l k : list lwpc) :
  sum_over f (l ++ k) = sum_over f l + sum_over f k.
Proof. induction l as [| x l IH]; simpl; [reflexivity |]. rewrite IH. lia. Qed.

Lemma sum_over_insert (f : lwpc -> Z) (l : list lwpc) (i : nat) (pc pc' : lwpc) :
  l !! i = Some pc ->
  sum_over f (<[i := pc']> l) = sum_over f l - f pc + f pc'.
Proof.
  revert i. induction l as [| x l IH]; intros [| i] H; simpl in *; try discriminate.
  - injection H as ->. lia.
  - rewrite (IH i H). lia.
Qed.

Lemma sum_over_live_bounds (l : list lwpc) :
  0 <= sum_over lw_live l <= Z.of_nat (length l).
Proof.
  induction l as [| x l IH]; simpl length; cbn [sum_over]; [lia |].
  destruct x; cbn [lw_live]; lia.
Qed.

Lemma sum_over_live_zero (l : list lwpc) :
  sum_over lw_live l = 0 ->
  sum_over lw_busy l = 0 /\ sum_over lw_sending_nil l = 0 /\ inflight l = [] /\
  forall i pc, l !! i = Some pc -> pc = LW_exited.
Proof.
  induction l as [| x l IH]; cbn [sum_over inflight]; intros H.
  - repeat split; auto. intros i pc Hl. destruct i; discriminate.
  - pose proof (sum_over_live_bounds l).
    destruct x; cbn [lw_live] in H; try lia.
    destruct (IH ltac:(lia)) as (H1 & H2 & H3 & H4).
    cbn [lw_busy lw_sending_nil lw_holds app]. repeat split; try lia; try assumption.
    intros [| i] pc Hl; simpl in Hl; [now injection Hl as <- | eauto].
Qed.

Lemma inflight_app (l k : list lwpc) : inflight (l ++ k) = (inflight l ++ inflight k)%list.
Proof.
  induction l as [| x l IH]; simpl; [reflexivity |]. now rewrite IH, app_assoc.
Qed.

(** Replacing the position of one goroutine changes the jobs in flight by
    what the old and the new position hold. *)
Lemma inflight_insert (l : list lwpc) (i : nat) (pc pc' : lwpc) :
  l !! i = Some pc ->
  (lw_holds pc ++ inflight (<[i := pc']> l))%list
  ≡ₚ (lw_holds pc' ++ inflight l)%list.
Proof.
  revert i. induction l as [| x l IH]; intros [| i] H; simpl in *; try discriminate.
  - injection H as ->.
    rewrite !app_assoc. apply Permutation_app_tail, Permutation_app_comm.
  - specialize (IH i H).
    rewrite !app_assoc.
    rewrite (Permutation_app_comm (lw_holds pc) (lw_holds x)).
    rewrite (Permutation_app_comm (lw_holds pc') (lw_holds x)).
    rewrite <- !app_assoc. now apply Permutation_app_head.
Qed.

Section LoaderProperties.

Variables itemCount partitionCount : Z.

Local Abbreviation lstep := (loader_step itemCount partitionCount).
Local Abbreviation lrun := (loader_run itemCount partitionCount).
Local Abbreviation lreachable := (loader_reachable itemCount partitionCount).

(** What a goroutine's move leaves alone, and what it does to the wait
    group. *)
Lemma loader_worker_frame (me ce : option error) (pc pc' : lwpc) (s s1 : Loader) :
  loader_worker_step itemCount partitionCount me ce pc s = Some (pc', s1) ->
  lmain s1 = lmain s /\ lworkers s1 = lworkers s /\ jobs_closed s1 = jobs_closed s /\
  lw_live pc = 1 /\ lwg s1 = lwg s - (1 - lw_live pc').
Proof.
  unfold loader_worker_step. destruct pc; intros H.
  - destruct (jobs s) as [| j rest].
    + destruct (jobs_closed s); [| discriminate].
      injection H as <- <-. cbn. repeat split; lia.
    + injection H as <- <-. cbn. repeat split; lia.
  - destruct (createRandomDocsItem_drawn j partitionCount (rng s)) as [[item r'] |];
      [destruct me |]; injection H as <- <-; cbn; repeat split; lia.
  - destruct (Z.of_nat (length (results s)) <? itemCount); [| discriminate].
    injection H as <- <-. cbn. repeat split; lia.
  - discriminate.
Qed.

Lemma loader_step_counts (l : llabel) (s s' : Loader) :
  loader_counts itemCount s -> lstep l s = Some s' -> loader_counts itemCount s'.
Proof.
  intros (C1 & C2 & C3 & C4 & C5 & C6 & C7) H.
  unfold loader_step in H. destruct (lpanicked s); [discriminate |].
  unfold loader_counts.
  destruct l as [| i me ce].
  - unfold loader_main_step in H. destruct (lmain s) eqn:M; cbn [sent] in *.
    + rewrite C2 in C1, C5, C6, C7. cbn in C1, C5, C6, C7.
      destruct (Z.ltb_spec itemCount 0); injection H as <-; cbn; rewrite ?M, ?C2;
        cbn; unfold concurrency; repeat split; try tauto; try lia.
    + destruct (Z.ltb_spec w concurrency); injection H as <-; cbn;
        rewrite ?sum_over_app, ?length_app; cbn; unfold concurrency in *;
        repeat split; try tauto; try lia.
    + destruct (Z.ltb_spec i itemCount).
      * destruct (Z.ltb_spec (Z.of_nat (length (jobs s))) itemCount); [| discriminate].
        injection H as <-; cbn; rewrite ?length_app; cbn;
          repeat split; try tauto; try lia.
      * injection H as <-; cbn; repeat split; try tauto; try lia.
    + injection H as <-; cbn; repeat split; try tauto; try lia.
    + destruct (Z.eqb_spec (lwg s) 0); [| discriminate].
      injection H as <-; cbn; repeat split; try tauto; try lia.
    + injection H as <-; cbn; repeat split; try tauto; try lia.
    + discriminate.
  - destruct (lworkers s !! i) as [pc |] eqn:Hpc; [| discriminate].
    destruct (loader_worker_step itemCount partitionCount me ce pc s)
      as [[pc' s1] |] eqn:Hw; [| discriminate].
    injection H as <-. cbn.
    destruct (loader_worker_frame me ce pc pc' s s1 Hw) as (Em & Ew & Ec & Hlive & Ewg).
    rewrite Em, Ew, Ec, length_insert.
    rewrite !(sum_over_insert _ _ _ _ pc' Hpc), Hlive.
    pose proof (sum_over_live_bounds (lworkers s)) as Hb.
    assert (Hpast : match lmain s with
                    | LM_make | LM_collect | LM_return _ => False
                    | _ => True
                    end).
    { destruct (lmain s); try exact I;
        [rewrite C2 in Hpc; discriminate | |];
        rewrite C3 in C1; symmetry in C1;
        destruct (sum_over_live_zero _ C1) as (_ & _ & _ & Hex);
        rewrite (Hex i pc Hpc) in Hlive; discriminate. }
    unfold loader_worker_step in Hw. destruct pc; try discriminate.
    + destruct (jobs s) as [| j rest] eqn:J.
      * destruct (jobs_closed s) eqn:Cl; [| discriminate].
        injection Hw as <- <-. cbn.
        destruct (lmain s); try contradiction; cbn in *;
          repeat split; try tauto; try lia; try (destruct C6; discriminate);
          try (intros; apply C7; lia).
      * injection Hw as <- <-. cbn.
        assert (Hfull : sum_over lw_live (lworkers s) = Z.of_nat (length (lworkers s))).
        { destruct (Z.eq_dec (sum_over lw_live (lworkers s))
                      (Z.of_nat (length (lworkers s)))); [assumption |].
          assert (Hlt : sum_over lw_live (lworkers s) < Z.of_nat (length (lworkers s)))
            by lia.
          specialize (C7 Hlt). discriminate. }
        simpl length in C5.
        destruct (lmain s); try contradiction; cbn in *;
          repeat split; try tauto; try lia; try (intros; apply C7; lia).
    + destruct (createRandomDocsItem_drawn j partitionCount (rng s)) as [[item r'] |];
        [destruct me |]; injection Hw as <- <-; cbn;
        destruct (lmain s); try contradiction; cbn in *;
        repeat split; try tauto; try lia; try (intros; apply C7; lia).
    + destruct (Z.of_nat (length (results s)) <? itemCount); [| discriminate].
      injection Hw as <- <-. cbn. rewrite ?length_app. cbn.
      destruct (lmain s); try contradiction; cbn in *;
        repeat split; try tauto; try lia; try (intros; apply C7; lia).
Qed.

Lemma loader_init_counts (r : Rand) : loader_counts itemCount (loader_init r).
Proof. unfold loader_counts, loader_init. cbn. repeat split; lia. Qed.

Lemma nil_results_app (l : list (option error)) (r : option error) :
  nil_results (l ++ [r])
  = nil_results l + match r with None => 1 | Some _ => 0 end.
Proof.
  unfold nil_results. rewrite List.filter_app, length_app.
  destruct r; simpl; lia.
Qed.

Lemma omap_id_nil (l : list (option error)) :
  omap id l = [] -> nil_results l = Z.of_nat (length l).
Proof.
  unfold nil_results. induction l as [| [e |] l IH]; simpl; intros H.
  - reflexivity.
  - discriminate.
  - specialize (IH H). lia.
Qed.

Lemma createRandomDocsItem_drawn_keys (j : Z) (r r' : Rand) (item : RandomDocsItem) :
  createRandomDocsItem_drawn j partitionCount r = Some (item, r') ->
  doc_of partitionCount j (PartitionKey item, item).
Proof.
  unfold createRandomDocsItem_drawn, createRandomDocsItem, go_rem, doc_of.
  destruct (partitionCount =? 0); [discriminate |].
  destruct (generateRandomString 1024 r) as [[data r1] |]; [| discriminate].
  destruct (generateRandomInt 0 10000 r1) as [[n r2] |]; [| discriminate].
  intros H. injection H as <- _. cbn. auto.
Qed.

(** No goroutine moves before the spawn loop or after [wg.Wait()]. *)
Lemma loader_worker_main (s : Loader) (i : nat) (pc : lwpc) :
  loader_counts itemCount s ->
  lworkers s !! i = Some pc -> pc <> LW_exited ->
  match lmain s with
  | LM_make | LM_collect | LM_return _ => False
  | _ => True
  end.
Proof.
  intros (C1 & C2 & C3 & _) Hpc Hne.
  destruct (lmain s); try exact I.
  - rewrite C2 in Hpc. discriminate.
  - rewrite C3 in C1. symmetry in C1.
    destruct (sum_over_live_zero _ C1) as (_ & _ & _ & Hex). eauto.
  - rewrite C3 in C1. symmetry in C1.
    destruct (sum_over_live_zero _ C1) as (_ & _ & _ & Hex). eauto.
Qed.

Lemma loader_main_tracks (s s' : Loader) :
  loader_counts itemCount s -> loader_tracks itemCount partitionCount s ->
  loader_main_step itemCount s = Some s' ->
  loader_tracks itemCount partitionCount s'.
Proof.
  intros Hcounts (js & F2 & ND & FR & G) H.
  pose proof Hcounts as (C1 & C2 & C3 & C4 & C5 & C6 & C7).
  unfold loader_main_step in H. unfold loader_tracks.
  destruct (lmain s) eqn:M; cbn [sent] in *.
  - destruct (itemCount <? 0); injection H as <-; cbn; rewrite ?M;
      exists js; repeat split; assumption.
  - destruct (w <? concurrency); injection H as <-; cbn;
      rewrite ?inflight_app, ?sum_over_app; cbn; rewrite ?app_nil_r;
      exists js; repeat split; try assumption; lia.
  - destruct (Z.ltb_spec i itemCount).
    + destruct (Z.of_nat (length (jobs s)) <? itemCount); [| discriminate].
      injection H as <-; cbn. exists js.
      assert (Hperm : ((jobs s ++ [i]) ++ inflight (lworkers s) ++ js)%list
                      ≡ₚ i :: (jobs s ++ inflight (lworkers s) ++ js)%list).
      { rewrite <- app_assoc. cbn. now rewrite <- Permutation_middle. }
      split; [exact F2 |]. split; [| split; [| exact G]].
      * rewrite Hperm. apply NoDup_cons. split; [| exact ND].
        intros Hin. rewrite Forall_forall in FR. specialize (FR _ Hin). lia.
      * rewrite Hperm. constructor; [lia |].
        eapply Forall_impl; [exact FR |]. cbn. intros. lia.
    + injection H as <-; cbn. exists js.
      repeat split; try assumption.
      eapply Forall_impl; [exact FR |]. cbn. intros. lia.
  - injection H as <-; cbn. exists js. repeat split; assumption.
  - destruct (lwg s =? 0); [| discriminate].
    injection H as <-; cbn. exists js. repeat split; assumption.
  - injection H as <-; cbn. exists js. repeat split; try assumption.
    intros Hr.
    assert (Hnil : omap id (results s) = []).
    { destruct (omap id (results s)); [reflexivity | discriminate]. }
    apply omap_id_nil in Hnil.
    rewrite C3 in C1. symmetry in C1.
    destruct (sum_over_live_zero _ C1) as (Hb & Hs & _ & _).
    assert (Hj : jobs s = []).
    { apply C7. rewrite C1, C2. unfold concurrency. lia. }
    rewrite Hj, Hb in C5. simpl length in C5. rewrite Hs in G. lia.
  - discriminate.
Qed.

Lemma loader_worker_tracks (s s' : Loader) (i : nat) (me ce : option error) :
  loader_counts itemCount s -> loader_tracks itemCount partitionCount s ->
  lstep (LL_worker i me ce) s = Some s' ->
  loader_tracks itemCount partitionCount s'.
Proof.
  intros Hcounts (js & F2 & ND & FR & G) H.
  unfold loader_step in H. destruct (lpanicked s); [discriminate |].
  destruct (lworkers s !! i) as [pc |] eqn:Hpc; [| discriminate].
  destruct (loader_worker_step itemCount partitionCount me ce pc s)
    as [[pc' s1] |] eqn:Hw; [| discriminate].
  injection H as <-.
  assert (Hne : pc <> LW_exited) by (intros ->; discriminate).
  pose proof (loader_worker_main s i pc Hcounts Hpc Hne) as Hmain.
  pose proof (inflight_insert (lworkers s) i pc pc' Hpc) as Hperm.
  unfold loader_tracks. cbn.
  unfold loader_worker_step in Hw. destruct pc; try discriminate.
  - (* at the range *)
    destruct (jobs s) as [| j rest] eqn:J.
    + destruct (jobs_closed s); [| discriminate]. injection Hw as <- <-. cbn in *.
      rewrite (sum_over_insert _ _ _ _ LW_exited Hpc). cbn.
      exists js. rewrite Hperm.
      destruct (lmain s); try contradiction; repeat split; try assumption; lia.
    + injection Hw as <- <-. cbn in *.
      rewrite (sum_over_insert _ _ _ _ (LW_got j) Hpc). cbn.
      exists js.
      assert (HT : (rest ++ inflight (<[i:=LW_got j]> (lworkers s)) ++ js)%list
                   ≡ₚ j :: (rest ++ inflight (lworkers s) ++ js)%list).
      { rewrite Hperm. cbn. symmetry. apply Permutation_middle. }
      rewrite HT.
      destruct (lmain s); try contradiction; repeat split; try assumption; lia.
  - (* holding a job *)
    destruct (createRandomDocsItem_drawn j partitionCount (rng s))
      as [[item r'] |] eqn:Hdoc; [destruct me as [e |] |];
      injection Hw as <- <-; cbn in *.
    + (* json.Marshal fails: the job is dropped *)
      rewrite (sum_over_insert _ _ _ _ (LW_send (Some e)) Hpc). cbn.
      exists js.
      assert (HT : (jobs s ++ inflight (lworkers s) ++ js)%list
                   ≡ₚ j :: (jobs s ++ inflight (<[i:=LW_send (Some e)]> (lworkers s))
                              ++ js)%list).
      { rewrite <- Hperm. cbn. symmetry. apply Permutation_middle. }
      rewrite HT in ND, FR.
      apply NoDup_cons in ND as [_ ND]. apply Forall_cons in FR as [_ FR].
      destruct (lmain s); try contradiction; repeat split; try assumption; lia.
    + (* CreateItem is called *)
      rewrite (sum_over_insert _ _ _ _ (LW_send ce) Hpc). cbn.
      exists (js ++ [j])%list.
      assert (HT : (jobs s ++ inflight (<[i:=LW_send ce]> (lworkers s))
                      ++ js ++ [j])%list
                   ≡ₚ (jobs s ++ inflight (lworkers s) ++ js)%list).
      { rewrite <- Hperm. cbn.
        rewrite (Permutation_app_comm js [j]). cbn.
        now rewrite <- !Permutation_middle. }
      rewrite HT, length_app. cbn.
      split.
      { apply Forall2_app; [exact F2 |]. constructor; [| constructor].
        exact (createRandomDocsItem_drawn_keys j (rng s) r' item Hdoc). }
      destruct ce; destruct (lmain s); try contradiction;
        repeat split; try assumption; lia.
    + (* createRandomDocsItem panics *)
      rewrite (sum_over_insert _ _ _ _ (LW_got j) Hpc). cbn.
      exists js.
      apply Permutation_cons_inv in Hperm. rewrite Hperm.
      destruct (lmain s); try contradiction; repeat split; try assumption; lia.
  - (* sending the result *)
    destruct (Z.of_nat (length (results s)) <? itemCount); [| discriminate].
    injection Hw as <- <-. cbn in *.
    rewrite (sum_over_insert _ _ _ _ LW_range Hpc), nil_results_app. cbn.
    exists js. rewrite Hperm.
    destruct r; destruct (lmain s); try contradiction;
      repeat split; try assumption; lia.
Qed.

Lemma loader_init_tracks (r : Rand) :
  loader_tracks itemCount partitionCount (loader_init r).
Proof.
  exists []. cbn. repeat split; try constructor. unfold nil_results. cbn. lia.
Qed.

(** Both invariants hold in every state the loader can reach. *)
Lemma loader_reachable_inv (r : Rand) (s : Loader) :
  lreachable r s ->
  loader_counts itemCount s /\ loader_tracks itemCount partitionCount s.
Proof.
  intros [ls Hrun].
  assert (Hgen : forall s0,
             loader_counts itemCount s0 /\ loader_tracks itemCount partitionCount s0 ->
             lrun ls s0 = Some s ->
             loader_counts itemCount s /\ loader_tracks itemCount partitionCount s).
  { clear Hrun. induction ls as [| l ls IH]; intros s0 [Hc Ht] H; simpl in H.
    - injection H as <-. now split.
    - destruct (lstep l s0) as [s1 |] eqn:E; [| discriminate].
      apply (IH s1); [| exact H]. split.
      + exact (loader_step_counts l s0 s1 Hc E).
      + destruct l as [| i me ce].
        * unfold loader_step in E. destruct (lpanicked s0); [discriminate |].
          exact (loader_main_tracks s0 s1 Hc Ht E).
        * exact (loader_worker_tracks s0 s1 i me ce Hc Ht E). }
  apply (Hgen (loader_init r)); [| exact Hrun].
  split; [apply loader_init_counts | apply loader_init_tracks].
Qed.

Lemma sum_over_busy_member (l : list lwpc) (i : nat) (pc : lwpc) :
  l !! i = Some pc -> lw_busy pc <= sum_over lw_busy l /\ 0 <= sum_over lw_busy l.
Proof.
  revert i. induction l as [| x l IH]; intros [| i] H; simpl in *; try discriminate.
  - injection H as ->.
    assert (0 <= sum_over lw_busy l).
    { clear. induction l as [| y l IH]; cbn; [lia |]. destruct y; cbn; lia. }
    destruct pc; cbn; lia.
  - destruct (IH i H). destruct x; cbn; lia.
Qed.

Lemma sum_over_busy_nonneg (l : list lwpc) : 0 <= sum_over lw_busy l.
Proof. induction l as [| y l IH]; cbn; [lia |]. destruct y; cbn; lia. Qed.

(** X22: the two channels never make a sender wait: in every reachable
    state a goroutine standing at [results <- err] can move, and so can
    [insertSampleDocuments] standing at [jobs <- i]; and once it has
    returned, all 32 goroutines have returned and no job is left. *)
Theorem loader_sends_never_block (r0 : Rand) (s : Loader)
    (Hreach : lreachable r0 s) (Halive : lpanicked s = false) :
  (forall i r me ce,
     lworkers s !! i = Some (LW_send r) ->
     exists s', lstep (LL_worker i me ce) s = Some s') /\
  (forall k, lmain s = LM_send k -> exists s', lstep LL_main s = Some s') /\
  (forall r, lmain s = LM_return r ->
     Z.of_nat (length (lworkers s)) = concurrency /\
     (forall i pc, lworkers s !! i = Some pc -> pc = LW_exited) /\
     jobs s = []).
Proof.
  destruct (loader_reachable_inv r0 s Hreach) as [Hcounts _].
  pose proof Hcounts as (C1 & C2 & C3 & C4 & C5 & C6 & C7).
  split; [| split].
  - intros i r me ce Hpc.
    pose proof (loader_worker_main s i _ Hcounts Hpc ltac:(discriminate)) as Hmain.
    destruct (sum_over_busy_member _ _ _ Hpc) as [Hb _]. cbn in Hb.
    unfold loader_step. rewrite Halive, Hpc. cbn.
    assert (Hlt : Z.of_nat (length (results s)) < itemCount).
    { destruct (lmain s); try contradiction; cbn in *; lia. }
    apply Z.ltb_lt in Hlt. rewrite Hlt. eexists. reflexivity.
  - intros k M. unfold loader_step, loader_main_step. rewrite Halive, M.
    rewrite M in C4, C5. cbn in C4, C5.
    pose proof (sum_over_busy_nonneg (lworkers s)).
    destruct (Z.ltb_spec k itemCount); [| eexists; reflexivity].
    assert (Hlt : Z.of_nat (length (jobs s)) < itemCount) by lia.
    apply Z.ltb_lt in Hlt. rewrite Hlt. eexists. reflexivity.
  - intros r M. rewrite M in C2, C3. rewrite C3 in C1. symmetry in C1.
    destruct (sum_over_live_zero _ C1) as (_ & _ & _ & Hex).
    split; [exact C2 |]. split; [exact Hex |].
    apply C7. rewrite C1, C2. unfold concurrency. lia.
Qed.

Lemma in_zseq (n j : Z) : 0 <= j < n -> In j (map Z.of_nat (seq 0 (Z.to_nat n))).
Proof.
  intros H. apply in_map_iff. exists (Z.to_nat j). split; [lia |].
  apply in_seq. lia.
Qed.

(** X23: no index is inserted twice: in every reachable state the
    documents passed to [CreateItem] have pairwise different ids, each is
    the document of an index in [0, itemCount) under the partition key of
    that index, and there are at most [itemCount] of them. *)
Theorem loader_creates_each_index_once (r0 : Rand) (s : Loader)
    (Hreach : lreachable r0 s) :
  NoDup (map (fun c => ID (snd c)) (created s)) /\
  Forall (fun c => exists j, 0 <= j < itemCount /\ doc_of partitionCount j c)
         (created s) /\
  (lmain s <> LM_make -> Z.of_nat (length (created s)) <= itemCount).
Proof.
  destruct (loader_reachable_inv r0 s Hreach) as [Hcounts (js & F2 & ND & FR & _)].
  pose proof Hcounts as (_ & _ & _ & C4 & _).
  apply NoDup_app in ND as (_ & _ & ND). apply NoDup_app in ND as (_ & _ & ND).
  apply Forall_app in FR as [_ FR]. apply Forall_app in FR as [_ FR].
  assert (Hsent : lmain s <> LM_make -> sent itemCount (lmain s) <= itemCount).
  { intros Hm. destruct (lmain s); try contradiction; cbn in *; lia. }
  assert (Hmake : lmain s = LM_make -> js = []).
  { intros M. rewrite M in FR. cbn in FR. destruct js as [| j js]; [reflexivity |].
    apply Forall_cons in FR as [Hj _]. lia. }
  assert (Hrange : Forall (fun j => 0 <= j < itemCount) js).
  { destruct js as [| j0 js0] eqn:Ejs; [constructor |]. rewrite <- Ejs in *.
    assert (Hm : lmain s <> LM_make) by (intros M; rewrite (Hmake M) in Ejs; discriminate).
    specialize (Hsent Hm).
    eapply Forall_impl; [exact FR |]. cbn. intros. lia. }
  clear FR Hmake.
  split; [| split].
  - revert ND Hrange. induction F2 as [| j c js cs Hjc F2 IH]; intros ND Hrange; cbn.
    + constructor.
    + apply NoDup_cons in ND as [Hnin ND]. apply Forall_cons in Hrange as [_ Hrange].
      apply NoDup_cons. split; [| now apply IH].
      intros Hin. apply Hnin. destruct Hjc as (Eid & _).
      clear IH ND Hrange Hnin.
      induction F2 as [| j' c' js cs Hjc' F2 IH]; cbn in Hin.
      * now apply elem_of_nil in Hin.
      * apply elem_of_cons in Hin as [E | Hin].
        -- destruct Hjc' as (Eid' & _). rewrite Eid, Eid' in E.
           apply append_inj_r, fmt_d_inj in E. subst. now left.
        -- right. now apply IH.
  - clear ND. induction F2 as [| j c js cs Hjc F2 IH]; [constructor |].
    apply Forall_cons in Hrange as [Hj Hrange].
    constructor; [exists j; now split | now apply IH].
  - intros Hm. rewrite <- (Forall2_length _ _ _ F2).
    assert (Hincl : incl js (map Z.of_nat (seq 0 (Z.to_nat itemCount)))).
    { intros j Hin. apply in_zseq. rewrite Forall_forall in Hrange.
      apply Hrange. now apply list_elem_of_In. }
    apply NoDup_ListNoDup in ND.
    pose proof (NoDup_incl_length ND Hincl) as Hlen.
    rewrite length_map, length_seq in Hlen.
    destruct (Z_lt_le_dec itemCount 0) as [Hneg | Hpos]; [| lia].
    destruct js as [| j js0]; [simpl; specialize (Hsent Hm);
      destruct (lmain s); try contradiction; cbn in *; lia |].
    apply Forall_cons in Hrange as [Hj _]. lia.
Qed.

(** X24: when [insertSampleDocuments] returns nil, [CreateItem] has been
    called for every index in [0, itemCount) exactly once: the documents
    created are those of a permutation of the indices. *)
Theorem loader_nil_means_all_created (r0 : Rand) (s : Loader)
    (Hreach : lreachable r0 s) (Hret : lmain s = LM_return None) :
  exists js,
    Forall2 (doc_of partitionCount) js (created s) /\
    js ≡ₚ map Z.of_nat (seq 0 (Z.to_nat itemCount)).
Proof.
  destruct (loader_reachable_inv r0 s Hreach) as [Hcounts (js & F2 & ND & FR & G)].
  rewrite Hret in FR, G. cbn in FR. specialize (G eq_refl).
  apply NoDup_app in ND as (_ & _ & ND). apply NoDup_app in ND as (_ & _ & ND).
  apply Forall_app in FR as [_ FR]. apply Forall_app in FR as [_ FR].
  exists js. split; [exact F2 |].
  apply NoDup_ListNoDup in ND.
  apply NoDup_Permutation_bis; [exact ND | |].
  - rewrite length_map, length_seq. lia.
  - intros j Hin. apply in_zseq. rewrite Forall_forall in FR.
    apply FR. now apply list_elem_of_In.
Qed.

End LoaderProperties.

Lemma loader_sends_never_block_witness :
  exists s s',
    loader_run 2 10 loader_prefix (loader_init demo_rand) = Some s /\
    lworkers s !! 0%nat = Some (LW_send None) /\
    loader_step 2 10 (LL_worker 0 None None) s = Some s'.
Proof.
  assert (H : exists s,
             loader_run 2 10 loader_prefix (loader_init demo_rand) = Some s /\
             lworkers s !! 0%nat = Some (LW_send None) /\ lpanicked s = false).
  { eexists. split; [vm_compute; reflexivity |]. split; reflexivity. }
  destruct H as (s & Hrun & Hpc & Halive).
  destruct (proj1 (loader_sends_never_block 2 10 demo_rand s
                     (ex_intro _ loader_prefix Hrun) Halive)
              0%nat None None None Hpc) as [s' Hs'].
  exists s, s'. split; [exact Hrun |]. split; [exact Hpc | exact Hs'].
Defined.

Lemma loader_creates_each_index_once_witness :
  exists s,
    loader_run 2 10 loader_schedule (loader_init demo_rand) = Some s /\
    NoDup (map (fun c => ID (snd c)) (created s)) /\
    map (fun c => ID (snd c)) (created s) = ["item0"; "item1"].
Proof.
  assert (H : exists s,
             loader_run 2 10 loader_schedule (loader_init demo_rand) = Some s /\
             map (fun c => ID (snd c)) (created s) = ["item0"; "item1"]).
  { eexists. split; [vm_compute; reflexivity |]. vm_compute. reflexivity. }
  destruct H as (s & Hrun & Hids).
  exists s. split; [exact Hrun |]. split; [| exact Hids].
  exact (proj1 (loader_creates_each_index_once 2 10 demo_rand s
                  (ex_intro _ loader_schedule Hrun))).
Defined.

Lemma loader_nil_means_all_created_witness :
  exists s js,
    loader_run 2 10 loader_schedule (loader_init demo_rand) = Some s /\
    lmain s = LM_return None /\
    Forall2 (doc_of 10) js (created s) /\
    js ≡ₚ [0; 1].
Proof.
  assert (H : exists s,
             loader_run 2 10 loader_schedule (loader_init demo_rand) = Some s /\
             lmain s = LM_return None).
  { eexists. split; [vm_compute; reflexivity |]. reflexivity. }
  destruct H as (s & Hrun & Hret).
  destruct (loader_nil_means_all_created 2 10 demo_rand s
              (ex_intro _ loader_schedule Hrun) Hret) as (js & F2 & Hperm).
  exists s, js. split; [exact Hrun |]. split; [exact Hret |].
  split; [exact F2 | exact Hperm].
Defined.

(** ** The harness: every run can be completed *)

Lemma live_all_exited (l : list wpc) :
  (forall i pc, l !! i = Some pc -> pc = W_exited) -> live l = 0.
Proof.
  induction l as [| x l IH]; intros H; cbn; [reflexivity |].
  rewrite (H 0%nat x eq_refl). cbn. apply IH.
  intros i pc Hl. exact (H (S i) pc Hl).
Qed.

Section Termination.

Variable F : Foreign.
Variable container_client : ContainerClient.
Variables itemCount partitionCount nworkers : Z.
Variables startTime duration : Z.

Hypothesis Hitems : 0 < itemCount.
Hypothesis Hparts : partitionCount <> 0.

Local Abbreviation step' :=
  (step F container_client itemCount partitionCount nworkers startTime duration).
Local Abbreviation run' :=
  (run F container_client itemCount partitionCount nworkers startTime duration).
Local Abbreviation reachable' :=
  (reachable F container_client itemCount partitionCount nworkers startTime duration).

(** With the context done, a worker that has not returned can make a move
    that brings it closer to its return, and nothing panics. *)
Lemma worker_progress (s : Bench) (i : nat) (pc : wpc) :
  sound nworkers s -> ctx_done s = true ->
  workers s !! i = Some pc -> pc <> W_exited ->
  exists s' pc',
    step' (L_worker i 0 0) s = Some s' /\ sound nworkers s' /\ ctx_done s' = true /\
    main s' = main s /\ workers s' = <[i := pc']> (workers s) /\
    (moves_left pc' < moves_left pc)%nat.
Proof.
  intros [P I] Hctx Hpc Hne.
  assert (Hstep : exists s' pc',
             step' (L_worker i 0 0) s = Some s' /\ panicked s' = false /\
             ctx_done s' = true /\ main s' = main s /\
             workers s' = <[i := pc']> (workers s) /\
             (moves_left pc' < moves_left pc)%nat).
  { unfold step. rewrite P, Hpc. unfold worker_step.
    destruct pc; try contradiction.
    - rewrite Hctx. cbn. eexists _, W_exited. cbn. repeat split; auto; lia.
    - unfold Intn. destruct (Z.leb_spec itemCount 0); [lia |].
      unfold worker_keys, go_rem. apply Z.eqb_neq in Hparts. rewrite Hparts.
      eexists _, (W_reading _ _ _). cbn. repeat split; auto; lia.
    - destruct (ReadItem F container_client itemID partitionKey (world s))
        as [[res [e |]] w1].
      + eexists _, W_select. cbn. repeat split; auto; lia.
      + eexists _, (W_add_latency _). cbn. repeat split; auto; lia.
    - eexists _, W_select. cbn. repeat split; auto. }
  destruct Hstep as (s' & pc' & E & P' & C' & M' & W' & Hlt).
  exists s', pc'. split; [exact E |]. split; [| auto].
  split; [exact P' |].
  exact (step_preserves_inv _ _ _ _ _ _ _ _ s s' I E).
Qed.

(** So it can be driven to its return. *)
Lemma drain_worker (n : nat) (s : Bench) (i : nat) (pc : wpc) :
  (moves_left pc <= n)%nat ->
  sound nworkers s -> ctx_done s = true -> workers s !! i = Some pc ->
  exists ls s',
    run' ls s = Some s' /\ sound nworkers s' /\ ctx_done s' = true /\
    main s' = main s /\ workers s' = <[i := W_exited]> (workers s).
Proof.
  revert s pc. induction n as [| n IH]; intros s pc Hn Hs Hctx Hpc.
  - destruct pc; cbn in Hn; try lia.
    exists [], s. cbn. repeat split; try apply Hs; auto.
    symmetry. now apply list_insert_id.
  - assert (Hdec : pc = W_exited \/ pc <> W_exited)
      by (destruct pc; auto; right; discriminate).
    destruct Hdec as [-> | Hne].
    + exists [], s. cbn. repeat split; try apply Hs; auto.
      symmetry. now apply list_insert_id.
    + destruct (worker_progress s i pc Hs Hctx Hpc Hne)
        as (s1 & pc1 & E & Hs1 & C1 & M1 & W1 & Hlt).
      assert (Hpc1 : workers s1 !! i = Some pc1).
      { rewrite W1. apply list_lookup_insert_eq. eapply lookup_lt_Some; eauto. }
      destruct (IH s1 pc1 ltac:(lia) Hs1 C1 Hpc1) as (ls & s' & R & Hs' & C' & M' & W').
      exists (L_worker i 0 0 :: ls), s'. cbn. rewrite E.
      repeat split; try apply Hs'; auto; try congruence.
      rewrite W', W1. apply list_insert_insert_eq.
Qed.

(** All workers, one after the other. *)
Lemma drain_upto (k : nat) (s : Bench) :
  sound nworkers s -> ctx_done s = true ->
  exists ls s',
    run' ls s = Some s' /\ sound nworkers s' /\ ctx_done s' = true /\
    main s' = main s /\
    forall i pc, (i < k)%nat -> workers s' !! i = Some pc -> pc = W_exited.
Proof.
  intros Hs Hctx. induction k as [| k IH].
  - exists [], s. cbn. repeat split; try apply Hs; auto. intros; lia.
  - destruct IH as (ls1 & s1 & R1 & Hs1 & C1 & M1 & A1).
    destruct (workers s1 !! k) as [pc |] eqn:Hk.
    + destruct (drain_worker (moves_left pc) s1 k pc (le_n _) Hs1 C1 Hk)
        as (ls2 & s2 & R2 & Hs2 & C2 & M2 & W2).
      exists (ls1 ++ ls2)%list, s2. rewrite run_app, R1.
      split; [exact R2 |]. split; [exact Hs2 |]. split; [exact C2 |].
      split; [congruence |].
      intros i pc' Hi Hl. rewrite W2 in Hl.
      destruct (Nat.eq_dec i k) as [-> | Hne].
      * rewrite list_lookup_insert_eq in Hl by (eapply lookup_lt_Some; eauto).
        congruence.
      * rewrite list_lookup_insert_ne in Hl by congruence.
        apply (A1 i pc'); [lia | exact Hl].
    + exists ls1, s1. repeat split; try apply Hs1; auto.
      intros i pc' Hi Hl.
      destruct (Nat.eq_dec i k) as [-> | Hne]; [congruence |].
      apply (A1 i pc'); [lia | exact Hl].
Qed.

Lemma drain_all (s : Bench) :
  sound nworkers s -> ctx_done s = true ->
  exists ls s',
    run' ls s = Some s' /\ sound nworkers s' /\ ctx_done s' = true /\
    main s' = main s /\ wg s' = 0.
Proof.
  intros Hs Hctx.
  destruct (drain_upto (length (workers s)) s Hs Hctx)
    as (ls & s' & R & Hs' & C' & M' & A).
  destruct (drain_upto (length (workers s')) s' Hs' C')
    as (ls2 & s2 & R2 & Hs2 & C2 & M2 & A2).
  exists (ls ++ ls2)%list, s2. rewrite run_app, R.
  split; [exact R2 |]. split; [exact Hs2 |]. split; [exact C2 |].
  split; [congruence |].
  destruct Hs2 as [_ I2]. destruct I2 as (Iwg & _). rewrite Iwg.
  apply live_all_exited. intros i pc Hl. apply (A2 i pc); [| exact Hl].
  assert (Hlen : forall ls s1 s2, run' ls s1 = Some s2 ->
                   main s2 = main s1 -> sound nworkers s1 ->
                   length (workers s2) = length (workers s1)).
  { intros ls0 sa sb Rab Mab [Pa Ia].
    assert (Ib : harness_inv nworkers sb).
    { clear - Ia Rab. revert sa Ia Rab.
      induction ls0 as [| l ls0 IH]; intros sa Ia Rab; cbn in Rab.
      - now injection Rab as <-.
      - destruct (step' l sa) as [sc |] eqn:E; [| discriminate].
        apply (IH sc); [| exact Rab].
        exact (step_preserves_inv _ _ _ _ _ _ _ _ sa sc Ia E). }
    destruct Ia as (_ & _ & La & _). destruct Ib as (_ & _ & Lb & _).
    rewrite Mab in Lb. destruct (main sa); lia. }
  rewrite <- (Hlen ls2 s' s2 R2 M2 Hs').
  eapply lookup_lt_Some; eauto.
Qed.

(** [executeBenchmark] leaves its spawn loop. *)
Lemma finish_spawning (n : nat) (s : Bench) (i : Z) :
  sound nworkers s -> main s = M_spawn i -> (Z.to_nat (nworkers - i) <= n)%nat ->
  exists ls s',
    run' ls s = Some s' /\ sound nworkers s' /\ main s' = M_wait_ctx /\
    ctx_done s' = ctx_done s.
Proof.
  revert s i. induction n as [| n IH]; intros s i [P I] Hm Hn.
  - assert (E : step' (L_main 0) s = Some (with_main M_wait_ctx s)).
    { unfold step, main_step. rewrite P, Hm.
      destruct (Z.ltb_spec i nworkers); [lia | reflexivity]. }
    exists [L_main 0], (with_main M_wait_ctx s). cbn [run]. rewrite E.
    split; [reflexivity |]. split; [| split; reflexivity].
    split; [exact P |].
    exact (step_preserves_inv _ _ _ _ _ _ _ _ s _ I E).
  - destruct (Z.ltb_spec i nworkers) as [Hlt | Hge].
    + pose (s1 := with_main (M_spawn (i + 1))
                    (with_workers (workers s ++ [W_select])
                       (with_wg (wg s + 1) s))).
      assert (E : step' (L_main 0) s = Some s1).
      { unfold step, main_step. rewrite P, Hm.
        destruct (Z.ltb_spec i nworkers); [reflexivity | lia]. }
      assert (Hs1 : sound nworkers s1).
      { split; [exact P |].
        exact (step_preserves_inv _ _ _ _ _ _ _ _ s _ I E). }
      destruct (IH s1 (i + 1) Hs1 eq_refl ltac:(lia))
        as (ls & s' & R & Hs' & M' & C').
      exists (L_main 0 :: ls), s'. cbn [run]. rewrite E.
      repeat split; try apply Hs'; auto.
    + assert (E : step' (L_main 0) s = Some (with_main M_wait_ctx s)).
      { unfold step, main_step. rewrite P, Hm.
        destruct (Z.ltb_spec i nworkers); [lia | reflexivity]. }
      exists [L_main 0], (with_main M_wait_ctx s). cbn [run]. rewrite E.
      split; [reflexivity |]. split; [| split; reflexivity].
      split; [exact P |].
      exact (step_preserves_inv _ _ _ _ _ _ _ _ s _ I E).
Qed.

(** Past the spawn loop and with the context done, [executeBenchmark]
    comes to its return. *)
Lemma finish_waiting (s : Bench) :
  sound nworkers s -> ctx_done s = true ->
  (forall i, main s <> M_spawn i) ->
  exists ls s' r,
    run' ls s = Some s' /\ main s' = M_return r /\ panicked s' = false.
Proof.
  assert (Hloads : forall s, sound nworkers s -> main s = M_loads ->
            exists ls s' r,
              run' ls s = Some s' /\ main s' = M_return r /\ panicked s' = false).
  { intros s0 [P I] Hm.
    exists [L_main 0]. eexists. eexists. cbn [run]. unfold step, main_step.
    rewrite P, Hm. split; [reflexivity |]. cbn. split; [reflexivity | exact P]. }
  assert (Hwait : forall s, sound nworkers s -> ctx_done s = true -> main s = M_wg_wait ->
            exists ls s' r,
              run' ls s = Some s' /\ main s' = M_return r /\ panicked s' = false).
  { intros s0 Hs0 C0 Hm.
    destruct (drain_all s0 Hs0 C0) as (ls1 & s1 & R1 & Hs1 & C1 & M1 & W1).
    assert (E : step' (L_main 0) s1 = Some (with_main M_loads s1)).
    { unfold step, main_step. destruct Hs1 as [P1 _].
      rewrite P1, M1, Hm, W1. reflexivity. }
    assert (Hs2 : sound nworkers (with_main M_loads s1)).
    { split; [apply Hs1 |].
      exact (step_preserves_inv _ _ _ _ _ _ _ _ s1 _ (proj2 Hs1) E). }
    destruct (Hloads _ Hs2 eq_refl) as (ls2 & s' & r & R2 & M' & P').
    exists (ls1 ++ L_main 0 :: ls2)%list, s', r. rewrite run_app, R1.
    cbn [run]. rewrite E. auto. }
  assert (Hclose : forall s, sound nworkers s -> ctx_done s = true -> main s = M_close_stop ->
            exists ls s' r,
              run' ls s = Some s' /\ main s' = M_return r /\ panicked s' = false).
  { intros s0 Hs0 C0 Hm.
    pose (s1 := with_main M_wg_wait (with_stop_closed true s0)).
    assert (E : step' (L_main 0) s0 = Some s1).
    { unfold step, main_step. destruct Hs0 as [P0 _]. rewrite P0, Hm. reflexivity. }
    assert (Hs1 : sound nworkers s1).
    { split; [apply Hs0 |].
      exact (step_preserves_inv _ _ _ _ _ _ _ _ s0 _ (proj2 Hs0) E). }
    destruct (Hwait s1 Hs1 C0 eq_refl) as (ls2 & s' & r & R2 & M' & P').
    exists (L_main 0 :: ls2), s', r. cbn [run]. rewrite E. auto. }
  intros Hs Hctx Hm.
  destruct (main s) as [i | | | | | r] eqn:M.
  - now destruct (Hm i).
  - pose (s1 := with_main M_close_stop s).
    assert (E : step' (L_main 0) s = Some s1).
    { unfold step, main_step. destruct Hs as [P0 _]. rewrite P0, M, Hctx. reflexivity. }
    assert (Hs1 : sound nworkers s1).
    { split; [apply Hs |].
      exact (step_preserves_inv _ _ _ _ _ _ _ _ s _ (proj2 Hs) E). }
    destruct (Hclose s1 Hs1 Hctx eq_refl) as (ls2 & s' & r & R2 & M' & P').
    exists (L_main 0 :: ls2), s', r. cbn [run]. rewrite E. auto.
  - apply Hclose; auto.
  - apply Hwait; auto.
  - apply Hloads; auto.
  - exists [], s, r. cbn. repeat split; try apply Hs; auto.
Qed.

(** X25: deadlock freedom of [executeBenchmark] and [workerBenchmark]
    (part_000 lines 310-423): with a positive item count and a nonzero
    partition count, every state the harness can reach in which no
    goroutine has panicked has a continuation that brings
    [executeBenchmark] to its return, with no panic on the way: once the
    deadline fires the spawn loop ends, every worker finishes its
    iteration and returns at its check, and [wg.Wait()] is released. *)
Theorem run_can_be_completed (w : World) (s : Bench) :
  reachable' w s -> panicked s = false ->
  exists ls s' r,
    run' ls s = Some s' /\ main s' = M_return r /\ panicked s' = false.
Proof.
  intros Hr P.
  assert (Hs : sound nworkers s)
    by (split; [exact P | exact (reachable_inv _ _ _ _ _ _ _ w s Hr)]).
  pose (s1 := with_ctx_done true s).
  assert (E : step' L_deadline s = Some s1)
    by (unfold step; rewrite P; reflexivity).
  assert (Hs1 : sound nworkers s1).
  { split; [exact P |].
    exact (step_preserves_inv _ _ _ _ _ _ _ _ s _ (proj2 Hs) E). }
  assert (Hpast : exists ls2 s2,
             run' ls2 s1 = Some s2 /\ sound nworkers s2 /\ ctx_done s2 = true /\
             forall i, main s2 <> M_spawn i).
  { destruct (main s1) as [i | | | | | r] eqn:M.
    - destruct (finish_spawning (Z.to_nat (nworkers - i)) s1 i Hs1 M (le_n _))
        as (ls2 & s2 & R2 & Hs2 & M2 & C2).
      exists ls2, s2. repeat split; try apply Hs2; auto.
      intros j. rewrite M2. discriminate.
    - exists [], s1. cbn. repeat split; try apply Hs1; auto.
      intros j Hj. change (main s1 = M_spawn j) in Hj. congruence.
    - exists [], s1. cbn. repeat split; try apply Hs1; auto.
      intros j Hj. change (main s1 = M_spawn j) in Hj. congruence.
    - exists [], s1. cbn. repeat split; try apply Hs1; auto.
      intros j Hj. change (main s1 = M_spawn j) in Hj. congruence.
    - exists [], s1. cbn. repeat split; try apply Hs1; auto.
      intros j Hj. change (main s1 = M_spawn j) in Hj. congruence.
    - exists [], s1. cbn. repeat split; try apply Hs1; auto.
      intros j Hj. change (main s1 = M_spawn j) in Hj. congruence. }
  destruct Hpast as (ls2 & s2 & R2 & Hs2 & C2 & M2).
  destruct (finish_waiting s2 Hs2 C2 M2) as (ls3 & s' & r & R3 & M' & P').
  exists (L_deadline :: ls2 ++ ls3)%list, s', r. cbn [run]. rewrite E.
  rewrite run_app, R2. auto.
Qed.

End Termination.

(** The state in which the deadline has passed between a worker's check
    and its read can still be brought to the return. *)
Lemma run_can_be_completed_witness :
  exists ls s' r,
    demo_run ls late_state = Some s' /\ main s' = M_return r /\
    panicked s' = false.
Proof.
  apply (run_can_be_completed demo_double demo_container 10000 10 1 0
           60000000000 ltac:(lia) ltac:(lia) empty_world late_state).
  - exists late_schedule. vm_compute. reflexivity.
  - reflexivity.
Defined.

(** ** The loader: every run can be completed *)

Lemma sum_over_live_exited (l : list lwpc) :
  (forall i pc, l !! i = Some pc -> pc = LW_exited) -> sum_over lw_live l = 0.
Proof.
  induction l as [| x l IH]; intros H; cbn [sum_over]; [reflexivity |].
  rewrite (H 0%nat x eq_refl). cbn [lw_live]. rewrite IH; [reflexivity |].
  intros i pc Hl. exact (H (S i) pc Hl).
Qed.

Section LoaderTermination.

Variables itemCount partitionCount : Z.

Hypothesis Hcount : 0 <= itemCount.
Hypothesis Hparts : partitionCount <> 0.

Local Abbreviation lstep := (loader_step itemCount partitionCount).
Local Abbreviation lrun := (loader_run itemCount partitionCount).
Local Abbreviation lreachable := (loader_reachable itemCount partitionCount).

Lemma loader_run_app (ls ls' : list llabel) (s : Loader) :
  lrun (ls ++ ls') s
  = match lrun ls s with Some s1 => lrun ls' s1 | None => None end.
Proof.
  revert s. induction ls as [| l ls IH]; intros s; simpl; [reflexivity |].
  destruct (lstep l s); [apply IH | reflexivity].
Qed.

(** While [insertSampleDocuments] waits at [wg.Wait()], a goroutine that
    has not returned can move: a job is there, or [jobs] is closed; the
    document can be made; [results] has room. *)
Lemma loader_worker_progress (s : Loader) (i : nat) (pc : lwpc) :
  lsound itemCount s -> lmain s = LM_wait ->
  lworkers s !! i = Some pc -> pc <> LW_exited ->
  exists s' pc',
    lstep (LL_worker i None None) s = Some s' /\ lsound itemCount s' /\
    lmain s' = LM_wait /\ lworkers s' = <[i := pc']> (lworkers s) /\
    (3 * length (jobs s') + lw_moves pc' < 3 * length (jobs s) + lw_moves pc)%nat.
Proof.
  intros [P Hcounts] M Hpc Hne.
  pose proof Hcounts as (C1 & C2 & C3 & C4 & C5 & C6 & C7).
  rewrite M in C2, C3, C4, C5, C6. cbn [sent] in C4, C5.
  assert (Hstep : exists s' pc',
             lstep (LL_worker i None None) s = Some s' /\ lpanicked s' = false /\
             lmain s' = LM_wait /\ lworkers s' = <[i := pc']> (lworkers s) /\
             (3 * length (jobs s') + lw_moves pc'
              < 3 * length (jobs s) + lw_moves pc)%nat).
  { unfold loader_step. rewrite P, Hpc. unfold loader_worker_step.
    destruct pc; try contradiction.
    - destruct (jobs s) as [| j rest] eqn:J.
      + rewrite C6. eexists _, LW_exited. split; [reflexivity |].
        cbn. repeat split; auto; lia.
      + eexists _, (LW_got j). split; [reflexivity |].
        cbn. repeat split; auto; lia.
    - destruct (createRandomDocsItem_drawn_returns j partitionCount (rng s) Hparts)
        as (doc & -> & _).
      eexists _, (LW_send None). split; [reflexivity |].
      cbn. repeat split; auto; lia.
    - destruct (sum_over_busy_member _ _ _ Hpc) as [Hb _]. cbn in Hb.
      destruct (Z.ltb_spec (Z.of_nat (length (results s))) itemCount); [| lia].
      eexists _, LW_range. split; [reflexivity |].
      cbn. repeat split; auto; lia. }
  destruct Hstep as (s' & pc' & E & P' & M' & W' & Hlt).
  exists s', pc'. split; [exact E |]. split; [| auto].
  split; [exact P' |]. exact (loader_step_counts _ _ _ s s' Hcounts E).
Qed.

(** So it can be driven to its return. *)
Lemma loader_drain_worker (n : nat) (s : Loader) (i : nat) (pc : lwpc) :
  (3 * length (jobs s) + lw_moves pc <= n)%nat ->
  lsound itemCount s -> lmain s = LM_wait -> lworkers s !! i = Some pc ->
  exists ls s',
    lrun ls s = Some s' /\ lsound itemCount s' /\ lmain s' = LM_wait /\
    lworkers s' = <[i := LW_exited]> (lworkers s).
Proof.
  revert s pc. induction n as [| n IH]; intros s pc Hn Hs M Hpc.
  - destruct pc; cbn in Hn; try lia.
    exists [], s. cbn. repeat split; try apply Hs; auto.
    symmetry. now apply list_insert_id.
  - assert (Hdec : pc = LW_exited \/ pc <> LW_exited)
      by (destruct pc; auto; right; discriminate).
    destruct Hdec as [-> | Hne].
    + exists [], s. cbn. repeat split; try apply Hs; auto.
      symmetry. now apply list_insert_id.
    + destruct (loader_worker_progress s i pc Hs M Hpc Hne)
        as (s1 & pc1 & E & Hs1 & M1 & W1 & Hlt).
      assert (Hpc1 : lworkers s1 !! i = Some pc1).
      { rewrite W1. apply list_lookup_insert_eq. eapply lookup_lt_Some; eauto. }
      destruct (IH s1 pc1 ltac:(lia) Hs1 M1 Hpc1) as (ls & s' & R & Hs' & M' & W').
      exists (LL_worker i None None :: ls), s'. cbn [loader_run]. rewrite E.
      split; [exact R |]. split; [exact Hs' |]. split; [exact M' |].
      rewrite W', W1. apply list_insert_insert_eq.
Qed.

(** All goroutines, one after the other. *)
Lemma loader_drain_upto (k : nat) (s : Loader) :
  lsound itemCount s -> lmain s = LM_wait ->
  exists ls s',
    lrun ls s = Some s' /\ lsound itemCount s' /\ lmain s' = LM_wait /\
    length (lworkers s') = length (lworkers s) /\
    forall i pc, (i < k)%nat -> lworkers s' !! i = Some pc -> pc = LW_exited.
Proof.
  intros Hs M. induction k as [| k IH].
  - exists [], s. cbn. repeat split; try apply Hs; auto. intros; lia.
  - destruct IH as (ls1 & s1 & R1 & Hs1 & M1 & L1 & A1).
    destruct (lworkers s1 !! k) as [pc |] eqn:Hk.
    + destruct (loader_drain_worker _ s1 k pc (le_n _) Hs1 M1 Hk)
        as (ls2 & s2 & R2 & Hs2 & M2 & W2).
      exists (ls1 ++ ls2)%list, s2. rewrite loader_run_app, R1.
      split; [exact R2 |]. split; [exact Hs2 |]. split; [exact M2 |].
      split; [rewrite W2, length_insert; exact L1 |].
      intros i pc' Hi Hl. rewrite W2 in Hl.
      destruct (Nat.eq_dec i k) as [-> | Hne].
      * rewrite list_lookup_insert_eq in Hl by (eapply lookup_lt_Some; eauto).
        congruence.
      * rewrite list_lookup_insert_ne in Hl by congruence.
        apply (A1 i pc'); [lia | exact Hl].
    + exists ls1, s1. split; [exact R1 |]. split; [exact Hs1 |].
      split; [exact M1 |]. split; [exact L1 |].
      intros i pc' Hi Hl.
      destruct (Nat.eq_dec i k) as [-> | Hne]; [congruence |].
      apply (A1 i pc'); [lia | exact Hl].
Qed.

Lemma loader_drain_all (s : Loader) :
  lsound itemCount s -> lmain s = LM_wait ->
  exists ls s',
    lrun ls s = Some s' /\ lsound itemCount s' /\ lmain s' = LM_wait /\ lwg s' = 0.
Proof.
  intros Hs M.
  destruct (loader_drain_upto (length (lworkers s)) s Hs M)
    as (ls & s' & R & Hs' & M' & L' & A).
  exists ls, s'. split; [exact R |]. split; [exact Hs' |]. split; [exact M' |].
  destruct Hs' as [_ (C1 & _)]. rewrite C1.
  apply sum_over_live_exited. intros i pc Hl. apply (A i pc); [| exact Hl].
  rewrite <- L'. eapply lookup_lt_Some; eauto.
Qed.

(** [insertSampleDocuments] itself can move whenever it is not waiting for
    goroutines that have yet to return: in particular [jobs <- i] finds
    room. *)
Lemma loader_main_progress (s : Loader) :
  lsound itemCount s ->
  (lmain s = LM_wait -> lwg s = 0) ->
  (forall r, lmain s <> LM_return r) ->
  exists s',
    lstep LL_main s = Some s' /\ lsound itemCount s' /\
    (lmain_rank itemCount (lmain s') < lmain_rank itemCount (lmain s))%nat.
Proof.
  intros [P Hcounts] Hwait Hret.
  pose proof Hcounts as (C1 & C2 & C3 & C4 & C5 & C6 & C7).
  assert (Hstep : exists s',
             lstep LL_main s = Some s' /\ lpanicked s' = false /\
             (lmain_rank itemCount (lmain s')
              < lmain_rank itemCount (lmain s))%nat).
  { unfold loader_step, loader_main_step. rewrite P.
    destruct (lmain s) as [| w | i | | | | r] eqn:M; cbn [sent] in *.
    - destruct (Z.ltb_spec itemCount 0); [lia |].
      eexists. split; [reflexivity |]. cbn. unfold concurrency.
      split; [reflexivity || exact P | lia].
    - destruct (Z.ltb_spec w concurrency);
        (eexists; split; [reflexivity |]); cbn; unfold concurrency in *;
        (split; [reflexivity || exact P | lia]).
    - pose proof (sum_over_busy_nonneg (lworkers s)).
      destruct (Z.ltb_spec i itemCount).
      + destruct (Z.ltb_spec (Z.of_nat (length (jobs s))) itemCount); [| lia].
        eexists. split; [reflexivity |]. cbn. split; [reflexivity || exact P | lia].
      + eexists. split; [reflexivity |]. cbn. split; [reflexivity || exact P | lia].
    - eexists. split; [reflexivity |]. cbn. split; [reflexivity || exact P | lia].
    - rewrite (Hwait eq_refl). cbn.
      eexists. split; [reflexivity |]. cbn. split; [reflexivity || exact P | lia].
    - eexists. split; [reflexivity |]. cbn. split; [reflexivity || exact P | lia].
    - now destruct (Hret r). }
  destruct Hstep as (s' & E & P' & Hlt).
  exists s'. split; [exact E |]. split; [| exact Hlt].
  split; [exact P' |]. exact (loader_step_counts _ _ _ s s' Hcounts E).
Qed.

Lemma loader_complete (n : nat) (s : Loader) :
  (lmain_rank itemCount (lmain s) <= n)%nat -> lsound itemCount s ->
  exists ls s' r,
    lrun ls s = Some s' /\ lmain s' = LM_return r /\ lpanicked s' = false.
Proof.
  revert s. induction n as [| n IH]; intros s Hn Hs.
  - destruct (lmain s) as [| w | i | | | | r] eqn:M; cbn in Hn; try lia.
    exists [], s, r. cbn. repeat split; try apply Hs; auto.
  - assert (Hcases : (exists r, lmain s = LM_return r) \/ lmain s = LM_wait \/
                     ((forall r, lmain s <> LM_return r) /\ lmain s <> LM_wait)).
    { destruct (lmain s); eauto; right; right; split; intros; discriminate. }
    destruct Hcases as [[r M] | [M | [Hret Hnw]]].
    + exists [], s, r. cbn. repeat split; try apply Hs; auto.
    + destruct (loader_drain_all s Hs M) as (ls1 & s1 & R1 & Hs1 & M1 & W1).
      destruct (loader_main_progress s1 Hs1 (fun _ => W1)
                  ltac:(intros r; rewrite M1; discriminate))
        as (s2 & E & Hs2 & Hlt).
      rewrite M1, <- M in Hlt.
      destruct (IH s2 ltac:(lia) Hs2) as (ls3 & s' & r & R3 & M' & P').
      exists (ls1 ++ LL_main :: ls3)%list, s', r. rewrite loader_run_app, R1.
      cbn [loader_run]. rewrite E. auto.
    + destruct (loader_main_progress s Hs ltac:(intros; contradiction) Hret)
        as (s2 & E & Hs2 & Hlt).
      destruct (IH s2 ltac:(lia) Hs2) as (ls3 & s' & r & R3 & M' & P').
      exists (LL_main :: ls3), s', r. cbn [loader_run]. rewrite E. auto.
Qed.

(** X26: deadlock freedom of [insertSampleDocuments] (createDb.go lines
    71-126): with a non-negative item count and a nonzero partition count,
    every state the loader can reach without a panic has a continuation
    that brings [insertSampleDocuments] to its return, with no panic on the
    way: the two channels of capacity [itemCount] never fill up, the
    goroutines use up the jobs and return once [jobs] is closed, and
    [wg.Wait()] is released. *)
Theorem loader_can_be_completed (r0 : Rand) (s : Loader) :
  lreachable r0 s -> lpanicked s = false ->
  exists ls s' r,
    lrun ls s = Some s' /\ lmain s' = LM_return r /\ lpanicked s' = false.
Proof.
  intros Hr P.
  apply (loader_complete (lmain_rank itemCount (lmain s)) s (le_n _)).
  split; [exact P |].
  exact (proj1 (loader_reachable_inv _ _ r0 s Hr)).
Qed.

End LoaderTermination.

(** Two items: after goroutine 0 has made its document, and before it has
    sent its result, the load can be brought to its return. *)
Lemma loader_can_be_completed_witness :
  exists s0,
    loader_run 2 10 loader_prefix (loader_init demo_rand) = Some s0 /\
    exists ls s' r,
      loader_run 2 10 ls s0 = Some s' /\ lmain s' = LM_return r /\
      lpanicked s' = false.
Proof.
  eexists. split; [vm_compute; reflexivity |].
  match goal with
  | |- exists ls s' r, loader_run _ _ ls ?s0 = _ /\ _ =>
      apply (loader_can_be_completed 2 10 ltac:(lia) ltac:(lia) demo_rand s0)
  end.
  - exists loader_prefix. vm_compute. reflexivity.
  - reflexivity.
Defined.
